(** * Glow image-classifier driver and queue-backed device manager

    A shallow embedding of the parts of
    [tools/loader/ImageClassifier.cpp] and of the
    [QueueBackedDeviceManager] member functions that the specification
    talks about, with the properties that hold of them.

    Conventions.
    - [size_t] and [unsigned] values are naturals of type [N]; where the
      source computes with them and the result can leave the 64-bit range,
      the wrap-around is written out with [wrap64].
    - [float] is the IEEE-754 datum [spec_float] of the Standard Library,
      compared with [SFltb] (the C++ [operator<]) and [SFeqb]
      ([operator==]); a comparison with a NaN is false.
    - A read through [operator[]] outside a vector, [top()] of an empty
      queue and an integer division by zero have no defined behaviour in
      C++: the embedding returns [None] there. *)

From Stdlib Require Import String Ascii Bool List ZArith NArith Lia.
From Stdlib Require Import Sorted Permutation.
From Stdlib Require Import Floats.SpecFloat.
Import ListNotations.

Set Implicit Arguments.

(* ===================================================================== *)
(** * Machine integers *)
(* ===================================================================== *)

Module SizeT.

Definition modulus : N := 2 ^ 64.

(** Reduction of a mathematical result to a [size_t]. *)
Definition wrap64 (x : N) : N := x mod modulus.

(** [a - b] on [size_t]: the mathematical difference modulo [2^64]. *)
Definition sub64 (a b : N) : N :=
  wrap64 (a + (modulus - wrap64 b)).

Definition add64 (a b : N) : N := wrap64 (a + b).

Definition mul64 (a b : N) : N := wrap64 (a * b).

Definition in_range (x : N) : Prop := (x < modulus)%N.

End SizeT.

(* ===================================================================== *)
(** * Order on floats *)
(* ===================================================================== *)

Module FloatOrder.

Definition float := spec_float.

Definition is_nan (f : float) : bool :=
  match f with S754_nan => true | _ => false end.

Definition nan_free (H : list float) : Prop :=
  Forall (fun f => is_nan f = false) H.

Fixpoint nan_freeb (H : list float) : bool :=
  match H with
  | [] => true
  | f :: H' => negb (is_nan f) && nan_freeb H'
  end.

(** [operator<] on [float]. *)
Definition flt (a b : float) : bool := SFltb a b.

(** [operator==] on [float]. *)
Definition feq (a b : float) : bool := SFeqb a b.

Ltac float_cases :=
  repeat match goal with
  | f : float |- _ => destruct f
  | f : spec_float |- _ => destruct f
  | s : bool |- _ => destruct s
  end.

Ltac compare_cases :=
  repeat match goal with
  | |- context [Z.compare ?a ?b] => destruct (Z.compare_spec a b)
  | H : context [Z.compare ?a ?b] |- _ => destruct (Z.compare_spec a b)
  | |- context [Pos.compare_cont Eq ?a ?b] =>
      change (Pos.compare_cont Eq a b) with (Pos.compare a b);
      destruct (Pos.compare_spec a b)
  | H : context [Pos.compare_cont Eq ?a ?b] |- _ =>
      change (Pos.compare_cont Eq a b) with (Pos.compare a b) in H;
      destruct (Pos.compare_spec a b)
  end.

Ltac float_order :=
  unfold flt, feq, SFltb, SFeqb, SFcompare, is_nan in *;
  float_cases; simpl in *; try congruence; try discriminate;
  compare_cases; simpl in *; subst;
  try congruence; try discriminate; try lia.

Lemma flt_irrefl (a : float) : flt a a = false.
Proof. float_order. Qed.

Lemma flt_asym (a b : float) : flt a b = true -> flt b a = false.
Proof. float_order. Qed.

Lemma flt_trans (a b c : float) :
  flt a b = true -> flt b c = true -> flt a c = true.
Proof. float_order. Qed.

(** Incomparability is transitive through a float that is not a NaN. *)
Lemma flt_cotrans (a b c : float) :
  is_nan b = false -> flt a c = true -> flt a b = true \/ flt b c = true.
Proof.
  intros Hb Hac.
  destruct (flt a b) eqn:Hab; [now left|right].
  destruct (flt b c) eqn:Hbc; [reflexivity|exfalso].
  revert Hb Hac Hab Hbc. float_order.
Qed.

Lemma feq_flt (a b : float) :
  is_nan a = false -> is_nan b = false ->
  feq a b = negb (flt a b) && negb (flt b a).
Proof. float_order. Qed.

Lemma feq_not_flt (a b : float) :
  feq a b = true -> flt a b = false /\ flt b a = false.
Proof. intros Heq. split; revert Heq; float_order. Qed.

Lemma nan_freeb_spec (H : list float) : nan_freeb H = true <-> nan_free H.
Proof.
  unfold nan_free. induction H as [|f H IH]; simpl.
  - split; [constructor|reflexivity].
  - rewrite andb_true_iff, negb_true_iff, IH. split.
    + intros [? ?]. now constructor.
    + intros HF. inversion HF; subst. now split.
Qed.

End FloatOrder.

(* ===================================================================== *)
(** * The top-K reducer: [getTopKPairs] *)
(* ===================================================================== *)

Module TopK.
Import FloatOrder.

(** [using FloatIndexPair = std::pair<float, size_t>]. *)
Definition FloatIndexPair : Type := (float * N)%type.

(** [operator<] of [std::pair]: lexicographic, the second components
    deciding when neither first component is less than the other. *)
Definition pair_lt (x y : FloatIndexPair) : bool :=
  flt (fst x) (fst y) || (negb (flt (fst y) (fst x)) && (snd x <? snd y)%N).

(** [std::greater<FloatIndexPair>], the comparator of [topKQueue]. *)
Definition pair_greater (x y : FloatIndexPair) : bool := pair_lt y x.

(** [std::priority_queue<FloatIndexPair, std::vector<FloatIndexPair>,
    std::greater<FloatIndexPair>>]: with [std::greater] the queue's [top()]
    is the least held pair.  The queue is kept as the list of held pairs
    with the one [top()] returns at the head: [push] puts the new pair
    after the held pairs that the comparator ranks above it.  This is
    what the heap of the source returns as long as the comparator is a
    strict weak ordering of the pairs pushed, that is, as long as no
    score is a NaN; [getTopKPairs] uses the queue on such scores only. *)
Definition pqueue : Type := list FloatIndexPair.

Fixpoint pq_push (p : FloatIndexPair) (q : pqueue) : pqueue :=
  match q with
  | [] => [p]
  | x :: q' => if pair_greater x p then p :: q else x :: pq_push p q'
  end.

(** [top()]; undefined on an empty queue. *)
Definition pq_top (q : pqueue) : option FloatIndexPair := hd_error q.

Definition pq_pop (q : pqueue) : pqueue := tl q.

Definition pq_size (q : pqueue) : N := N.of_nat (length q).

(** One iteration of the scanning loop, at index [i] with value
    [currProbability]. *)
Definition visit (topKCount : N) (q : pqueue) (currProbability : float) (i : N)
  : option pqueue :=
  if (pq_size q <? topKCount)%N then
    Some (pq_push (currProbability, i) q)
  else
    match pq_top q with
    | None => None
    | Some t =>
        if flt (fst t) currProbability
        then Some (pq_push (currProbability, i) (pq_pop q))
        else Some q
    end.

(** [for (size_t i = 0, e = H.size(); i < e; i++)] over the elements that
    remain from index [i] on. *)
Fixpoint scan (topKCount : N) (H : list float) (i : N) (q : pqueue)
  : option pqueue :=
  match H with
  | [] => Some q
  | currProbability :: rest =>
      match visit topKCount q currProbability i with
      | None => None
      | Some q' => scan topKCount rest (N.succ i) q'
      end
  end.

(** [res[k] = v] on a vector. *)
Fixpoint assign (res : list FloatIndexPair) (k : nat) (v : FloatIndexPair)
  : list FloatIndexPair :=
  match res, k with
  | [], _ => []
  | _ :: r, O => v :: r
  | x :: r, S k' => x :: assign r k' v
  end.

(** The draining loop: [n] iterations are left, the next one is
    iteration [i]. *)
Fixpoint drain (topKCount : N) (n : nat) (i : N) (res : list FloatIndexPair)
  (q : pqueue) : option (list FloatIndexPair) :=
  match n with
  | O => Some res
  | S n' =>
      match pq_top q with
      | None => None
      | Some t =>
          drain topKCount n' (N.succ i)
            (assign res (N.to_nat (topKCount - i - 1)) t) (pq_pop q)
      end
  end.

Definition default_pair : FloatIndexPair := (S754_zero false, 0%N).

(** [getTopKPairs(H)] with [topKCount] read from the command line.  The
    first assertion of the source guards the call.  With a NaN among the
    scores [operator<] of the pairs is no strict weak ordering, which
    [std::priority_queue] requires of its comparator: the behaviour is
    then not defined and there is no result. *)
Definition getTopKPairs (topKCount : N) (H : list float)
  : option (list FloatIndexPair) :=
  if (topKCount <=? N.of_nat (length H))%N then
    if nan_freeb H then
      match scan topKCount H 0%N [] with
      | None => None
      | Some q =>
          drain topKCount (N.to_nat topKCount) 0%N
            (repeat default_pair (N.to_nat topKCount)) q
      end
    else None
  else None.

(** The indices held by a list of pairs. *)
Definition indices (l : list FloatIndexPair) : list N := map snd l.

(** [H.at({i}) = s]. *)
Definition entry (H : list float) (i : N) (s : float) : Prop :=
  nth_error H (N.to_nat i) = Some s.

(** binary32 constants used by the end-to-end scenario. *)
Definition f0_1 : float := S754_finite false 13421773 (-27).
Definition f0_4 : float := S754_finite false 13421773 (-25).
Definition f0_9 : float := S754_finite false 15099494 (-24).
Definition f1_0 : float := S754_finite false 8388608 (-23).
Definition f2_0 : float := S754_finite false 8388608 (-22).

(** The queue in the order in which [top()] and [pop()] yield its pairs:
    every pair is below the pairs after it. *)
Definition ascending : pqueue -> Prop :=
  StronglySorted (fun x y => pair_lt x y = true).

(** ** The invariant of the scanning loop

    [done] is the part of the vector already visited, [q] the queue. *)

Record Inv (K : N) (done : list float) (q : pqueue) : Prop := {
  inv_sorted : ascending q;
  inv_entry : forall s i, In (s, i) q -> entry done i s;
  inv_size : pq_size q = N.min K (N.of_nat (length done));
  inv_all : (pq_size q < K)%N ->
            forall i, (i < N.of_nat (length done))%N -> In i (indices q);
  inv_above : forall i s, entry done i s -> ~ In i (indices q) ->
              forall p, In p q -> flt (fst p) s = false;
  inv_tie : forall i si j sj,
      entry done i si -> ~ In i (indices q) -> In (sj, j) q ->
      feq sj si = true -> (i < j)%N ->
      exists m sm, (j < m)%N /\ entry done m sm /\ flt sj sm = true
}.

(** Order of the returned vector: [a] stands before [b]. *)
Definition before (a b : FloatIndexPair) : Prop :=
  flt (fst a) (fst b) = false /\
  (feq (fst a) (fst b) = true -> (snd b < snd a)%N).

(** The tie clause in the specification's words: of a selected and a
    non-selected entry with equal scores, the selected one is the one with
    the lower index. *)
Definition first_seen_kept (H : list float) (res : list FloatIndexPair)
  : Prop :=
  forall i si j sj,
    entry H i si -> ~ In i (indices res) -> In (sj, j) res ->
    feq sj si = true -> (j < i)%N.

(** ** The order on pairs *)

Lemma pair_lt_irrefl (x : FloatIndexPair) : pair_lt x x = false.
Proof.
  unfold pair_lt. rewrite flt_irrefl, N.ltb_irrefl. reflexivity.
Qed.

Lemma pair_lt_trans (x y z : FloatIndexPair) :
  is_nan (fst x) = false -> is_nan (fst y) = false -> is_nan (fst z) = false ->
  pair_lt x y = true -> pair_lt y z = true -> pair_lt x z = true.
Proof.
  destruct x as [fx sx], y as [fy sy], z as [fz sz]; unfold pair_lt; simpl.
  intros Nx Ny Nz Hxy Hyz.
  apply orb_true_iff in Hxy. apply orb_true_iff in Hyz. apply orb_true_iff.
  destruct Hxy as [Hxy|Hxy], Hyz as [Hyz|Hyz].
  - left. eapply flt_trans; eauto.
  - apply andb_true_iff in Hyz. destruct Hyz as [Hyz _].
    apply negb_true_iff in Hyz.
    destruct (flt_cotrans fx fz fy Nz Hxy) as [?|?]; [now left|congruence].
  - apply andb_true_iff in Hxy. destruct Hxy as [Hxy _].
    apply negb_true_iff in Hxy.
    destruct (flt_cotrans fy fx fz Nx Hyz) as [?|?]; [congruence|now left].
  - apply andb_true_iff in Hxy. destruct Hxy as [Hxy Lxy].
    apply andb_true_iff in Hyz. destruct Hyz as [Hyz Lyz].
    apply negb_true_iff in Hxy. apply negb_true_iff in Hyz.
    apply N.ltb_lt in Lxy. apply N.ltb_lt in Lyz.
    right. apply andb_true_iff. split.
    + apply negb_true_iff. destruct (flt fz fx) eqn:Hzx; [|reflexivity].
      destruct (flt_cotrans fz fy fx Ny Hzx); congruence.
    + apply N.ltb_lt. lia.
Qed.

(** A pair with a later index that is not below [x] is above it. *)
Lemma pair_lt_total (x p : FloatIndexPair) :
  (snd x < snd p)%N -> pair_lt p x = false -> pair_lt x p = true.
Proof.
  destruct x as [fx sx], p as [fp sp]; unfold pair_lt; simpl.
  intros Hlt Hpx. apply orb_false_iff in Hpx. destruct Hpx as [Hpx _].
  rewrite Hpx. simpl. apply N.ltb_lt in Hlt. rewrite Hlt.
  apply orb_true_r.
Qed.

(** The score of a pair is not below the score of a pair under it. *)
Lemma pair_lt_score (x y : FloatIndexPair) :
  pair_lt x y = true -> flt (fst y) (fst x) = false.
Proof.
  unfold pair_lt. intros Hxy. apply orb_true_iff in Hxy.
  destruct Hxy as [Hxy|Hxy].
  - now apply flt_asym.
  - apply andb_true_iff in Hxy. destruct Hxy as [Hxy _].
    now apply negb_true_iff in Hxy.
Qed.

(** ** The queue *)

Lemma In_pq_push (p x : FloatIndexPair) (q : pqueue) :
  In x (pq_push p q) <-> x = p \/ In x q.
Proof.
  induction q as [|y q IH]; simpl.
  - intuition congruence.
  - destruct (pair_greater y p); simpl; rewrite ?IH; intuition congruence.
Qed.

Lemma length_pq_push (p : FloatIndexPair) (q : pqueue) :
  length (pq_push p q) = S (length q).
Proof.
  induction q as [|y q IH]; simpl; [reflexivity|].
  destruct (pair_greater y p); simpl; congruence.
Qed.

Lemma ascending_push (p : FloatIndexPair) (q : pqueue) :
  ascending q ->
  is_nan (fst p) = false ->
  (forall x, In x q -> is_nan (fst x) = false /\ (snd x < snd p)%N) ->
  ascending (pq_push p q).
Proof.
  unfold ascending. intros Hq Np Hall.
  induction Hq as [|y q Hq IH Hy]; simpl.
  - repeat constructor.
  - unfold pair_greater. destruct (pair_lt p y) eqn:Hpy.
    + constructor; [now constructor|].
      constructor; [exact Hpy|].
      rewrite Forall_forall in *. intros z Hz.
      apply pair_lt_trans with y; auto.
      * apply Hall. now left.
      * apply Hall. now right.
    + constructor.
      * apply IH. intros x Hx. apply Hall. now right.
      * rewrite Forall_forall in *. intros z Hz.
        apply In_pq_push in Hz. destruct Hz as [->|Hz]; [|now apply Hy].
        apply pair_lt_total; [|exact Hpy]. apply Hall. now left.
Qed.

Lemma pq_top_Some (q : pqueue) (t : FloatIndexPair) :
  pq_top q = Some t -> q = t :: pq_pop q.
Proof. destruct q; simpl; congruence. Qed.

Lemma pq_top_None (q : pqueue) : pq_top q = None -> q = [].
Proof. destruct q; simpl; congruence. Qed.

Lemma ascending_tl (q : pqueue) : ascending q -> ascending (pq_pop q).
Proof.
  unfold ascending. intros Hq. destruct Hq; simpl; [constructor|assumption].
Qed.

(** The head of an ascending queue has the least score. *)
Lemma ascending_top (t : FloatIndexPair) (q : pqueue) (p : FloatIndexPair) :
  ascending (t :: q) -> In p (t :: q) -> flt (fst p) (fst t) = false.
Proof.
  unfold ascending. intros Hq [<-|Hp].
  - apply flt_irrefl.
  - inversion Hq as [|? ? _ Hall]; subst. rewrite Forall_forall in Hall.
    now apply pair_lt_score, Hall.
Qed.

(** ** Entries of the score vector *)

Lemma entry_lt (H : list float) (i : N) (s : float) :
  entry H i s -> (i < N.of_nat (length H))%N.
Proof.
  unfold entry. intros E.
  assert (N.to_nat i < length H)%nat by (apply nth_error_Some; congruence).
  lia.
Qed.

Lemma entry_snoc (H : list float) (x : float) (i : N) (s : float) :
  entry (H ++ [x]) i s <->
  entry H i s \/ (i = N.of_nat (length H) /\ s = x).
Proof.
  unfold entry. destruct (Nat.lt_ge_cases (N.to_nat i) (length H)) as [Hlt|Hge].
  - rewrite nth_error_app1 by exact Hlt. split; [now left|].
    intros [E|[-> _]]; [exact E|lia].
  - rewrite nth_error_app2 by exact Hge. split.
    + intros E. right.
      destruct (N.to_nat i - length H)%nat as [|k] eqn:Hk; simpl in E.
      * split; [lia|congruence].
      * destruct k; discriminate.
    + intros [E|[-> ->]].
      * apply nth_error_None in Hge. congruence.
      * rewrite Nnat.Nat2N.id, Nat.sub_diag. reflexivity.
Qed.

Lemma entry_nan_free (H : list float) (i : N) (s : float) :
  nan_free H -> entry H i s -> is_nan s = false.
Proof.
  unfold nan_free, entry. intros NF E. rewrite Forall_forall in NF.
  apply NF. eapply nth_error_In; eauto.
Qed.

Lemma entry_fun (H : list float) (i : N) (s s' : float) :
  entry H i s -> entry H i s' -> s = s'.
Proof. unfold entry. congruence. Qed.

Lemma In_indices (l : list FloatIndexPair) (i : N) :
  In i (indices l) <-> exists s, In (s, i) l.
Proof.
  unfold indices. rewrite in_map_iff. split.
  - intros [[s j] [E Hin]]. simpl in E. subst. now exists s.
  - intros [s Hin]. now exists (s, i).
Qed.

Lemma In_indices_push (p : FloatIndexPair) (q : pqueue) (i : N) :
  In i (indices (pq_push p q)) <-> i = snd p \/ In i (indices q).
Proof.
  rewrite !In_indices. split.
  - intros [s Hin]. apply In_pq_push in Hin. destruct Hin as [<-|Hin].
    + now left.
    + right. now exists s.
  - intros [->|[s Hin]].
    + exists (fst p). apply In_pq_push. left. now destruct p.
    + exists s. apply In_pq_push. now right.
Qed.

(** ** The scanning loop keeps its invariant *)

Lemma Inv_start (K : N) : Inv K [] [].
Proof.
  constructor; simpl; intros; try contradiction; try lia.
  - constructor.
  - unfold pq_size. simpl. lia.
Qed.

Lemma nan_free_snoc (done : list float) (x : float) :
  nan_free (done ++ [x]) -> nan_free done /\ is_nan x = false.
Proof.
  unfold nan_free. intros NF. apply Forall_app in NF. destruct NF as [? NF].
  split; [assumption|]. now inversion NF.
Qed.

Lemma Inv_held_fresh (K : N) (done : list float) (q : pqueue) :
  Inv K done q -> nan_free done ->
  forall x, In x q ->
    is_nan (fst x) = false /\ (snd x < N.of_nat (length done))%N.
Proof.
  intros I NF [s i] Hin. simpl. apply (inv_entry I) in Hin. split.
  - eapply entry_nan_free; eauto.
  - eapply entry_lt; eauto.
Qed.

Section Step.

Variable K : N.
Variable done : list float.
Variable x : float.
Variable q : pqueue.
Hypothesis I : Inv K done q.
Hypothesis NF : nan_free done.
Hypothesis Nx : is_nan x = false.

Let n : N := N.of_nat (length done).

Lemma length_snoc : N.of_nat (length (done ++ [x])) = N.succ n.
Proof. rewrite length_app. simpl. subst n. lia. Qed.

(** The queue is not full: the pair is pushed. *)
Lemma Inv_push :
  (pq_size q < K)%N -> Inv K (done ++ [x]) (pq_push (x, n) q).
Proof.
  intros Hsz.
  assert (Hn : pq_size q = n) by (rewrite (inv_size I) in *; subst n; lia).
  constructor.
  - apply ascending_push; [apply (inv_sorted I)|exact Nx|].
    intros y Hy. apply (Inv_held_fresh I NF y Hy).
  - intros s i Hin. apply entry_snoc. apply In_pq_push in Hin.
    destruct Hin as [E|Hin].
    + right. inversion E. now split.
    + left. now apply (inv_entry I).
  - unfold pq_size in *. rewrite length_pq_push, length_snoc. lia.
  - intros _ i Hi. rewrite length_snoc in Hi. apply In_indices_push. simpl.
    destruct (N.eq_dec i n) as [->|Hne]; [now left|right].
    apply (inv_all I Hsz). subst n. lia.
  - intros i s E Hnot p _. exfalso. apply Hnot. apply In_indices_push. simpl.
    apply entry_lt in E. rewrite length_snoc in E.
    destruct (N.eq_dec i n) as [->|Hne]; [now left|right].
    apply (inv_all I Hsz). subst n. lia.
  - intros i si j sj E Hnot _ _ _. exfalso. apply Hnot.
    apply In_indices_push. simpl.
    apply entry_lt in E. rewrite length_snoc in E.
    destruct (N.eq_dec i n) as [->|Hne]; [now left|right].
    apply (inv_all I Hsz). subst n. lia.
Qed.

(** The queue is full and its least score is not below [x]: nothing
    changes. *)
Lemma Inv_keep (t : FloatIndexPair) (q0 : pqueue) :
  q = t :: q0 -> (K <= pq_size q)%N -> flt (fst t) x = false ->
  Inv K (done ++ [x]) q.
Proof.
  intros Eq Hsz Htx.
  assert (Ht : is_nan (fst t) = false).
  { apply (Inv_held_fresh I NF). rewrite Eq. now left. }
  assert (Hold : forall i s, entry (done ++ [x]) i s -> i <> n -> entry done i s).
  { intros i s E Hne. apply entry_snoc in E. destruct E as [E|[E _]]; tauto. }
  constructor.
  - apply (inv_sorted I).
  - intros s i Hin. apply entry_snoc. left. now apply (inv_entry I).
  - rewrite length_snoc. pose proof (inv_size I) as Hs. fold n in Hs. lia.
  - lia.
  - intros i s E Hnot p Hp. apply entry_snoc in E. destruct E as [E|[-> ->]].
    + now apply (inv_above I E Hnot).
    + destruct (flt (fst p) x) eqn:Hpx; [exfalso|reflexivity].
      destruct (flt_cotrans (fst p) (fst t) x Ht Hpx) as [C|C]; [|congruence].
      pose proof (inv_sorted I) as Hasc. rewrite Eq in Hasc, Hp.
      rewrite (ascending_top Hasc Hp) in C. discriminate.
  - intros i si j sj E Hnot Hin Hfeq Hlt.
    pose proof (entry_lt (inv_entry I _ _ Hin)) as Hj. fold n in Hj.
    assert (E' : entry done i si) by (apply Hold; [exact E|lia]).
    destruct (inv_tie I sj E' Hnot Hin Hfeq Hlt) as (m & sm & Hm & Em & Hsm).
    exists m, sm. repeat split; auto. apply entry_snoc. now left.
Qed.

(** The queue is full and its least score is below [x]: that pair is
    popped and the new one pushed. *)
Lemma Inv_evict (t : FloatIndexPair) (q0 : pqueue) :
  q = t :: q0 -> (K <= pq_size q)%N -> flt (fst t) x = true ->
  Inv K (done ++ [x]) (pq_push (x, n) q0).
Proof.
  intros Eq Hsz Htx.
  pose proof (inv_sorted I) as Hasc. rewrite Eq in Hasc.
  assert (Hin0 : forall p, In p q0 -> In p q) by (intros; rewrite Eq; now right).
  assert (Ht : In t q) by (rewrite Eq; now left).
  assert (Et : entry done (snd t) (fst t)).
  { apply (inv_entry I). now destruct t. }
  assert (Nt : is_nan (fst t) = false) by (apply (Inv_held_fresh I NF _ Ht)).
  assert (Hold : forall i s, entry (done ++ [x]) i s -> i <> n -> entry done i s).
  { intros i s E Hne. apply entry_snoc in E. destruct E as [E|[E _]]; tauto. }
  assert (Hsplit : forall i, ~ In i (indices (pq_push (x, n) q0)) ->
            i <> n /\ (i = snd t \/ ~ In i (indices q))).
  { intros i Hnot. rewrite In_indices_push in Hnot. simpl in Hnot.
    split; [tauto|]. destruct (N.eq_dec i (snd t)) as [->|Hne]; [now left|right].
    rewrite Eq. unfold indices. simpl. intros [C|C]; [congruence|].
    apply Hnot. now right. }
  constructor.
  - apply ascending_push; [now apply ascending_tl in Hasc|exact Nx|].
    intros y Hy. apply (Inv_held_fresh I NF y (Hin0 _ Hy)).
  - intros s i Hin. apply entry_snoc. apply In_pq_push in Hin.
    destruct Hin as [E|Hin].
    + right. inversion E. now split.
    + left. apply (inv_entry I). now apply Hin0.
  - unfold pq_size in *. rewrite length_pq_push, length_snoc.
    pose proof (inv_size I) as Hs. fold n in Hs. unfold pq_size in Hs.
    rewrite Eq in Hs, Hsz. simpl length in *. lia.
  - unfold pq_size in *. rewrite length_pq_push. rewrite Eq in Hsz.
    simpl length in *. lia.
  - intros i s E Hnot p Hp.
    destruct (Hsplit i Hnot) as [Hne [->|Hout]];
      apply (Hold _ _ E) in Hne; apply In_pq_push in Hp.
    + rewrite (entry_fun Hne Et). destruct Hp as [->|Hp]; simpl.
      * now apply flt_asym.
      * apply (ascending_top Hasc). now right.
    + destruct Hp as [->|Hp]; simpl.
      * destruct (flt x s) eqn:Hxs; [exfalso|reflexivity].
        pose proof (flt_trans _ _ _ Htx Hxs) as C.
        rewrite (inv_above I Hne Hout t Ht) in C. discriminate.
      * apply (inv_above I Hne Hout). now apply Hin0.
  - intros i si j sj E Hnot Hin Hfeq Hlt.
    apply In_pq_push in Hin.
    assert (Hjn : (j <= n)%N).
    { destruct Hin as [Ej|Hin]; [inversion Ej; lia|].
      apply Hin0, (inv_entry I), entry_lt in Hin. fold n in Hin. lia. }
    destruct (Hsplit i Hnot) as [Hne Hcase]. apply (Hold _ _ E) in Hne.
    destruct Hin as [Ej|Hin].
    + exfalso. inversion Ej; subst sj j. apply feq_not_flt in Hfeq.
      destruct Hfeq as [Hxsi Hsix]. destruct Hcase as [->|Hout].
      * rewrite (entry_fun Hne Et) in Hsix. congruence.
      * assert (Nsi : is_nan si = false) by (eapply entry_nan_free; eauto).
        destruct (flt_cotrans (fst t) si x Nsi Htx) as [C|C]; [|congruence].
        rewrite (inv_above I Hne Hout t Ht) in C. discriminate.
    + destruct Hcase as [->|Hout].
      * exists n, x. rewrite (entry_fun Hne Et) in Hfeq.
        pose proof (Hin0 _ Hin) as Hinq.
        pose proof (Inv_held_fresh I NF _ Hinq) as [Nsj Hj]. simpl in *.
        fold n in Hj. repeat split; [exact Hj| |].
        -- apply entry_snoc. right. now split.
        -- apply feq_not_flt in Hfeq. destruct Hfeq as [_ Hts].
           destruct (flt_cotrans (fst t) sj x Nsj Htx) as [C|C]; congruence.
      * destruct (inv_tie I sj Hne Hout (Hin0 _ Hin) Hfeq Hlt)
          as (m & sm & Hm & Em & Hsm).
        exists m, sm. repeat split; auto. apply entry_snoc. now left.
Qed.

(** One iteration of the loop is defined and keeps the invariant. *)
Lemma Inv_visit :
  (1 <= K)%N ->
  exists q', visit K q x n = Some q' /\ Inv K (done ++ [x]) q'.
Proof.
  intros HK. unfold visit. destruct (pq_size q <? K)%N eqn:Hsz.
  - apply N.ltb_lt in Hsz. eexists. split; [reflexivity|now apply Inv_push].
  - apply N.ltb_ge in Hsz. destruct (pq_top q) as [t|] eqn:Htop.
    + apply pq_top_Some in Htop. destruct (flt (fst t) x) eqn:Htx.
      * eexists. split; [reflexivity|]. eapply Inv_evict; eauto.
      * eexists. split; [reflexivity|]. eapply Inv_keep; eauto.
    + apply pq_top_None in Htop. exfalso. revert Hsz. rewrite Htop.
      unfold pq_size. simpl. lia.
Qed.

End Step.

(** The whole scan, started with [done] already visited. *)
Lemma Inv_scan (K : N) (rest done : list float) (q : pqueue) :
  (1 <= K)%N -> Inv K done q -> nan_free (done ++ rest) ->
  exists q', scan K rest (N.of_nat (length done)) q = Some q' /\
             Inv K (done ++ rest) q'.
Proof.
  intros HK. revert done q. induction rest as [|x rest IH]; intros done q I NF.
  - exists q. rewrite app_nil_r. now split.
  - simpl. replace (done ++ x :: rest) with ((done ++ [x]) ++ rest) in *
      by (rewrite <- app_assoc; reflexivity).
    assert (NF' : nan_free (done ++ [x])).
    { unfold nan_free in *. now apply Forall_app in NF. }
    destruct (nan_free_snoc _ _ NF') as [NFd Nx].
    destruct (Inv_visit x I NFd Nx HK) as (q1 & Hv & I1).
    rewrite Hv. rewrite <- (length_snoc done x).
    now apply IH.
Qed.

(** ** The draining loop *)

Lemma assign_middle (l1 l2 : list FloatIndexPair) (x t : FloatIndexPair) :
  assign (l1 ++ x :: l2) (length l1) t = l1 ++ t :: l2.
Proof.
  induction l1 as [|y l1 IH]; simpl; [reflexivity|]. now rewrite IH.
Qed.

Lemma assign_last_default (n : nat) (acc : list FloatIndexPair)
  (t : FloatIndexPair) :
  assign (repeat default_pair (S n) ++ acc) n t
  = repeat default_pair n ++ t :: acc.
Proof.
  rewrite <- (repeat_length default_pair n) at 2.
  rewrite <- assign_middle with (x := default_pair).
  rewrite repeat_length. f_equal.
  change (default_pair :: acc) with ([default_pair] ++ acc).
  rewrite app_assoc. f_equal.
  rewrite <- repeat_cons. reflexivity.
Qed.

Lemma drain_rev (K : N) (n : nat) :
  forall (i : N) (acc : list FloatIndexPair) (q : pqueue),
    (i + N.of_nat n = K)%N -> (n <= length q)%nat ->
    drain K n i (repeat default_pair n ++ acc) q
    = Some (rev (firstn n q) ++ acc).
Proof.
  induction n as [|n IH]; intros i acc q Hi Hq.
  - reflexivity.
  - destruct q as [|t q]; [simpl in Hq; lia|].
    change (drain K (S n) i (repeat default_pair (S n) ++ acc) (t :: q))
      with (drain K n (N.succ i)
              (assign (repeat default_pair (S n) ++ acc)
                 (N.to_nat (K - i - 1)) t) q).
    replace (N.to_nat (K - i - 1)) with n by lia.
    rewrite assign_last_default. rewrite IH; [|lia|simpl in Hq; lia].
    simpl firstn. simpl rev. rewrite <- app_assoc. reflexivity.
Qed.

(** ** Properties read off the final queue *)

Lemma ascending_NoDup (H : list float) (q : pqueue) :
  ascending q -> (forall s i, In (s, i) q -> entry H i s) ->
  NoDup (indices q).
Proof.
  unfold ascending. intros Hq. induction Hq as [|t q Hq IH Ht]; intros HE.
  - constructor.
  - unfold indices. simpl. constructor.
    + intros Hin. apply In_indices in Hin. destruct Hin as [s Hin].
      assert (s = fst t).
      { apply entry_fun with H (snd t).
        - apply HE. now right.
        - apply HE. left. now destruct t. }
      subst s. rewrite Forall_forall in Ht. apply Ht in Hin.
      destruct t as [ft st]. simpl in Hin.
      rewrite pair_lt_irrefl in Hin. discriminate.
    + apply IH. intros s i Hin. apply HE. now right.
Qed.

Lemma pair_lt_before (a b : FloatIndexPair) :
  pair_lt b a = true -> before a b.
Proof.
  intros Hba. split; [now apply pair_lt_score|].
  intros Hfeq. apply feq_not_flt in Hfeq. destruct Hfeq as [Hab Hb].
  unfold pair_lt in Hba. rewrite Hb, Hab in Hba. simpl in Hba.
  now apply N.ltb_lt.
Qed.

Lemma StronglySorted_snoc (A : Type) (R : A -> A -> Prop) (l : list A) (x : A) :
  StronglySorted R l -> Forall (fun y => R y x) l ->
  StronglySorted R (l ++ [x]).
Proof.
  intros Hl. induction Hl as [|y l Hl IH Hy]; intros HF; simpl.
  - repeat constructor.
  - inversion HF; subst. constructor; [now apply IH|].
    apply Forall_app. split; [assumption|]. now repeat constructor.
Qed.

Lemma ascending_rev_before (q : pqueue) :
  ascending q -> StronglySorted before (rev q).
Proof.
  unfold ascending. intros Hq. induction Hq as [|t q Hq IH Ht]; simpl.
  - constructor.
  - apply StronglySorted_snoc; [exact IH|].
    rewrite Forall_forall in *. intros y Hy. apply in_rev in Hy.
    now apply pair_lt_before, Ht.
Qed.

(** What [getTopKPairs] returns, in terms of the final queue. *)
Lemma getTopKPairs_queue (K : N) (H : list float) :
  nan_free H -> (1 <= K)%N -> (K <= N.of_nat (length H))%N ->
  exists q, Inv K H q /\ pq_size q = K /\ getTopKPairs K H = Some (rev q).
Proof.
  intros NF HK HL. unfold getTopKPairs.
  apply N.leb_le in HL. rewrite HL. apply N.leb_le in HL.
  rewrite (proj2 (nan_freeb_spec H) NF).
  destruct (@Inv_scan K H [] [] HK (Inv_start K) NF) as (q & Hs & I).
  simpl in Hs, I. rewrite Hs. exists q.
  assert (Hsz : pq_size q = K) by (rewrite (inv_size I); lia).
  split; [exact I|]. split; [exact Hsz|].
  unfold pq_size in Hsz.
  rewrite <- (app_nil_r (repeat default_pair (N.to_nat K))).
  rewrite drain_rev; [|lia|lia].
  rewrite app_nil_r. replace (N.to_nat K) with (length q) by lia.
  now rewrite firstn_all.
Qed.

(** C1 (tie clause fails).  On the scores [1.0, 1.0, 2.0] with K = 2 the
    entry at index 0 is evicted when 2.0 arrives, and the equal entry at
    index 1 is kept: the kept one of two equal scores is the later one. *)
Lemma getTopKPairs_first_seen_counterexample :
  getTopKPairs 2 [f1_0; f1_0; f2_0] = Some [(f2_0, 2%N); (f1_0, 1%N)] /\
  ~ first_seen_kept [f1_0; f1_0; f2_0] [(f2_0, 2%N); (f1_0, 1%N)].
Proof.
  split; [reflexivity|].
  intros C.
  specialize (C 0%N f1_0 1%N f1_0).
  assert (1 < 0)%N; [|lia].
  apply C.
  - reflexivity.
  - simpl. intros [E|[E|[]]]; discriminate.
  - simpl. right. now left.
  - reflexivity.
Qed.

(** C1 (amended).  For a NaN-free score vector [H] and [1 <= K <= |H|],
    [getTopKPairs] returns exactly K pairs; their indices are pairwise
    distinct; each pair [(s, i)] is an entry of [H] ([H[i] = s]); no
    selected score is below a non-selected score; and when a selected entry
    [j] and a non-selected entry [i] have equal scores, either the selected
    one is the earlier ([j < i]) or an entry with a strictly greater score
    occurs after both (at some [m > j]): a later equal score never
    displaces a held pair, but an eviction removes the lowest-indexed
    holder of the least score. *)
Theorem getTopKPairs_top_k (K : N) (H : list float) :
  nan_free H -> (1 <= K)%N -> (K <= N.of_nat (length H))%N ->
  exists res,
    getTopKPairs K H = Some res /\
    N.of_nat (length res) = K /\
    NoDup (indices res) /\
    (forall s i, In (s, i) res -> entry H i s) /\
    (forall i s, entry H i s -> ~ In i (indices res) ->
       forall p, In p res -> flt (fst p) s = false) /\
    (forall i si j sj,
       entry H i si -> ~ In i (indices res) -> In (sj, j) res ->
       feq sj si = true ->
       (j < i)%N \/
       exists m sm, (j < m)%N /\ entry H m sm /\ flt sj sm = true).
Proof.
  intros NF HK HL.
  destruct (getTopKPairs_queue NF HK HL) as (q & I & Hsz & Hres).
  exists (rev q). split; [exact Hres|].
  assert (Hidx : forall i, In i (indices (rev q)) <-> In i (indices q)).
  { intros i. unfold indices. rewrite map_rev. symmetry. apply in_rev. }
  repeat split.
  - rewrite length_rev. exact Hsz.
  - unfold indices. rewrite map_rev. apply NoDup_rev.
    apply ascending_NoDup with H; [apply (inv_sorted I)|apply (inv_entry I)].
  - intros s i Hin. apply in_rev in Hin. now apply (inv_entry I).
  - intros i s E Hnot p Hp. apply in_rev in Hp. rewrite Hidx in Hnot.
    now apply (inv_above I E Hnot).
  - intros i si j sj E Hnot Hin Hfeq. apply in_rev in Hin.
    rewrite Hidx in Hnot.
    destruct (N.lt_ge_cases i j) as [Hlt|Hge].
    + right. now apply (inv_tie I sj E Hnot Hin Hfeq).
    + left. assert (i <> j); [|lia].
      intros ->. apply Hnot. apply In_indices. now exists sj.
Qed.

Lemma getTopKPairs_top_k_witness :
  exists res, getTopKPairs 2 [f1_0; f1_0; f2_0] = Some res /\
              N.of_nat (length res) = 2%N.
Proof.
  destruct (@getTopKPairs_top_k 2 [f1_0; f1_0; f2_0]) as (res & Hres & Hlen & _).
  - apply nan_freeb_spec. reflexivity.
  - lia.
  - simpl. lia.
  - exists res. split; assumption.
Defined.

(** C2 (as stated, fails).  On [0.1, 0.9, 0.4, 0.9] with K = 2 the result
    is not [(0.9, 1), (0.9, 3)]. *)
Lemma getTopKPairs_scenario_counterexample :
  getTopKPairs 2 [f0_1; f0_9; f0_4; f0_9]
  <> Some [(f0_9, 1%N); (f0_9, 3%N)].
Proof. vm_compute. discriminate. Qed.

(** C2 (amended).  For a NaN-free score vector and [1 <= K <= |H|] the
    returned pairs are ordered by non-increasing score, and of two pairs
    with equal scores the one with the higher index (seen later) comes
    first; on [0.1, 0.9, 0.4, 0.9] with K = 2 the result is
    [(0.9, 3), (0.9, 1)]. *)
Theorem getTopKPairs_descending :
  (forall (K : N) (H : list float),
     nan_free H -> (1 <= K)%N -> (K <= N.of_nat (length H))%N ->
     exists res, getTopKPairs K H = Some res /\ StronglySorted before res) /\
  getTopKPairs 2 [f0_1; f0_9; f0_4; f0_9]
  = Some [(f0_9, 3%N); (f0_9, 1%N)].
Proof.
  split; [|reflexivity].
  intros K H NF HK HL.
  destruct (getTopKPairs_queue NF HK HL) as (q & I & _ & Hres).
  exists (rev q). split; [exact Hres|].
  apply ascending_rev_before, (inv_sorted I).
Qed.

Lemma getTopKPairs_descending_witness :
  exists res, getTopKPairs 2 [f0_1; f0_9; f0_4; f0_9] = Some res /\
              StronglySorted before res.
Proof.
  apply (proj1 getTopKPairs_descending 2%N [f0_1; f0_9; f0_4; f0_9]).
  - apply nan_freeb_spec. reflexivity.
  - lia.
  - simpl. lia.
Defined.

(** ** Where [getTopKPairs] is defined *)

Lemma visit_size (K : N) (q : pqueue) (x : float) (i : N) :
  (1 <= K)%N -> (pq_size q <= K)%N ->
  exists q', visit K q x i = Some q' /\
             pq_size q' = N.min K (N.succ (pq_size q)).
Proof.
  intros HK Hle. unfold visit. destruct (pq_size q <? K)%N eqn:Hlt.
  - apply N.ltb_lt in Hlt. eexists. split; [reflexivity|].
    unfold pq_size in *. rewrite length_pq_push. lia.
  - apply N.ltb_ge in Hlt. destruct q as [|t q].
    + unfold pq_size in Hlt. simpl in Hlt. lia.
    + simpl pq_top. cbv iota. destruct (flt (fst t) x).
      * eexists. split; [reflexivity|].
        unfold pq_size in *. simpl pq_pop. rewrite length_pq_push.
        simpl length in *. lia.
      * eexists. split; [reflexivity|]. lia.
Qed.

Lemma scan_size (K : N) (H : list float) :
  (1 <= K)%N ->
  forall (i : N) (q : pqueue),
    (pq_size q <= K)%N ->
    exists q', scan K H i q = Some q' /\
               pq_size q' = N.min K (pq_size q + N.of_nat (length H)).
Proof.
  intros HK. induction H as [|x H IH]; intros i q Hle.
  - exists q. split; [reflexivity|]. simpl. lia.
  - simpl scan. destruct (visit_size q x i HK Hle) as (q1 & Hv & Hs).
    rewrite Hv. destruct (IH (N.succ i) q1) as (q2 & Hscan & Hs2); [lia|].
    exists q2. split; [exact Hscan|]. rewrite Hs2, Hs. simpl length. lia.
Qed.

Lemma getTopKPairs_full (K : N) (H : list float) :
  nan_free H -> (1 <= K)%N -> (K <= N.of_nat (length H))%N ->
  exists q, pq_size q = K /\ getTopKPairs K H = Some (rev q).
Proof.
  intros NF HK HL. unfold getTopKPairs.
  apply N.leb_le in HL. rewrite HL. apply N.leb_le in HL.
  rewrite (proj2 (nan_freeb_spec H) NF).
  destruct (@scan_size K H HK 0%N []) as (q & Hs & Hsz).
  { unfold pq_size. simpl. lia. }
  rewrite Hs. exists q.
  assert (Hq : pq_size q = K) by (rewrite Hsz; unfold pq_size; simpl; lia).
  split; [exact Hq|]. unfold pq_size in Hq.
  rewrite <- (app_nil_r (repeat default_pair (N.to_nat K))).
  rewrite drain_rev; [|lia|lia].
  rewrite app_nil_r. replace (N.to_nat K) with (length q) by lia.
  now rewrite firstn_all.
Qed.

Lemma getTopKPairs_zero (H : list float) :
  H <> [] -> getTopKPairs 0 H = None.
Proof.
  intros Hne. unfold getTopKPairs.
  destruct H as [|x H]; [contradiction|].
  cbn [length N.of_nat N.leb N.compare]. destruct (nan_freeb (x :: H));
    reflexivity.
Qed.

Lemma getTopKPairs_large (K : N) (H : list float) :
  (N.of_nat (length H) < K)%N -> getTopKPairs K H = None.
Proof.
  intros Hlt. unfold getTopKPairs. apply N.leb_gt in Hlt. now rewrite Hlt.
Qed.

Lemma getTopKPairs_nan (K : N) (H : list float) :
  ~ nan_free H -> getTopKPairs K H = None.
Proof.
  intros Hnan. unfold getTopKPairs.
  destruct (K <=? N.of_nat (length H))%N; [|reflexivity].
  destruct (nan_freeb H) eqn:E; [|reflexivity].
  apply nan_freeb_spec in E. contradiction.
Qed.

Lemma getTopKPairs_Some_iff (K : N) (H : list float) :
  (exists res, getTopKPairs K H = Some res) <->
  nan_free H /\ (K <= N.of_nat (length H))%N /\ ((1 <= K)%N \/ H = []).
Proof.
  split.
  - intros [res Hres].
    assert (NF : nan_free H).
    { destruct (nan_freeb H) eqn:E; [now apply nan_freeb_spec|].
      rewrite getTopKPairs_nan in Hres; [discriminate|].
      intros C. apply nan_freeb_spec in C. congruence. }
    split; [exact NF|].
    destruct (N.le_gt_cases K (N.of_nat (length H))) as [HL|HL].
    + split; [exact HL|].
      destruct (N.eq_dec K 0) as [HK|HK]; [|left; lia].
      destruct H as [|x H]; [now right|]. subst K.
      rewrite getTopKPairs_zero in Hres; discriminate.
    + rewrite getTopKPairs_large in Hres; [discriminate|lia].
  - intros (NF & HL & [HK| ->]).
    + destruct (@getTopKPairs_full K H NF HK HL) as (q & _ & Hres).
      now exists (rev q).
    + simpl in HL. assert (K = 0%N) by lia. subst K. now exists [].
Qed.



(** ** Special cases of the selection *)

(** What the invariant says of a queue that holds one pair. *)
Lemma Inv_single (K : N) (H : list float) (s : float) (j : N) :
  Inv K H [(s, j)] ->
  entry H j s /\
  forall i si, entry H i si ->
    flt s si = false /\ (feq s si = true -> (j <= i)%N).
Proof.
  intros I.
  assert (Ej : entry H j s) by (apply (inv_entry I); now left).
  split; [exact Ej|]. intros i si Ei.
  destruct (N.eq_dec i j) as [->|Hij].
  - rewrite (entry_fun Ei Ej). split; [apply flt_irrefl|lia].
  - assert (Hout : forall k, k <> j -> ~ In k (indices [(s, j)])).
    { intros k Hk [E|[]]. simpl in E. congruence. }
    assert (Habove : forall k sk, entry H k sk -> k <> j -> flt s sk = false).
    { intros k sk Ek Hk.
      apply (inv_above I Ek (Hout k Hk) (s, j)). now left. }
    split; [now apply (Habove i si)|].
    intros Hfeq. destruct (N.lt_ge_cases i j) as [Hlt|Hge]; [|exact Hge].
    exfalso.
    destruct (inv_tie I s Ei (Hout i Hij) (or_introl eq_refl) Hfeq Hlt)
      as (m & sm & Hm & Em & Hsm).
    rewrite (Habove m sm Em) in Hsm; [discriminate|lia].
Qed.

(** X2.  With [topKCount = 1] on a non-empty NaN-free vector the result
    is the single pair of the greatest score and the first index at which
    it occurs. *)
Theorem getTopKPairs_first_maximum (H : list float) :
  nan_free H -> H <> [] ->
  exists s j,
    getTopKPairs 1 H = Some [(s, j)] /\ entry H j s /\
    forall i si, entry H i si ->
      flt s si = false /\ (feq s si = true -> (j <= i)%N).
Proof.
  intros NF Hne.
  assert (HL : (1 <= N.of_nat (length H))%N).
  { destruct H; [contradiction|simpl; lia]. }
  destruct (@getTopKPairs_queue 1 H NF ltac:(lia) HL) as (q & I & Hsz & Hres).
  destruct q as [|[s j] [|p q]]; unfold pq_size in Hsz; simpl in Hsz; try lia.
  simpl in Hres. exists s, j. split; [exact Hres|].
  apply (Inv_single I).
Qed.

Lemma getTopKPairs_first_maximum_witness :
  exists s j, getTopKPairs 1 [f0_1; f0_9; f0_4; f0_9] = Some [(s, j)] /\
              entry [f0_1; f0_9; f0_4; f0_9] j s.
Proof.
  destruct (@getTopKPairs_first_maximum [f0_1; f0_9; f0_4; f0_9])
    as (s & j & Hres & Hj & _).
  - apply nan_freeb_spec. reflexivity.
  - discriminate.
  - exists s, j. now split.
Defined.

(** X3.  With [topKCount] equal to the number of scores, on a NaN-free
    vector, every index is returned exactly once: the result is a
    rearrangement of the whole indexed vector. *)
Theorem getTopKPairs_all (H : list float) :
  nan_free H -> H <> [] ->
  exists res,
    getTopKPairs (N.of_nat (length H)) H = Some res /\
    Permutation (indices res) (map N.of_nat (seq 0 (length H))) /\
    (forall s i, In (s, i) res -> entry H i s).
Proof.
  intros NF Hne.
  assert (HL : (1 <= N.of_nat (length H))%N).
  { destruct H; [contradiction|simpl; lia]. }
  destruct (@getTopKPairs_queue (N.of_nat (length H)) H NF HL (N.le_refl _))
    as (q & I & Hsz & Hres).
  exists (rev q). split; [exact Hres|]. split.
  - unfold indices. rewrite map_rev, <- Permutation_rev.
    assert (Hnd : NoDup (indices q)).
    { apply ascending_NoDup with H;
        [apply (inv_sorted I)|apply (inv_entry I)]. }
    assert (Hincl : incl (indices q) (map N.of_nat (seq 0 (length H)))).
    { intros i Hi. apply In_indices in Hi. destruct Hi as [s Hin].
      apply (inv_entry I), entry_lt in Hin.
      apply in_map_iff. exists (N.to_nat i). split; [lia|].
      apply in_seq. lia. }
    apply NoDup_Permutation_bis; [exact Hnd| |exact Hincl].
    rewrite length_map, length_seq. unfold pq_size, indices in *.
    rewrite length_map. lia.
  - intros s i Hin. apply in_rev in Hin. now apply (inv_entry I).
Qed.

Lemma getTopKPairs_all_witness :
  exists res,
    getTopKPairs 3 [f0_1; f0_9; f0_4] = Some res /\
    Permutation (indices res) [0; 1; 2]%N.
Proof.
  destruct (@getTopKPairs_all [f0_1; f0_9; f0_4]) as (res & Hres & Hp & _).
  - apply nan_freeb_spec. reflexivity.
  - discriminate.
  - exists res. split; assumption.
Defined.

(** X4.  When no two scores of a NaN-free vector are equal, the returned
    pairs are in strictly descending order of score. *)
Theorem getTopKPairs_strictly_descending (K : N) (H : list float) :
  nan_free H -> (1 <= K)%N -> (K <= N.of_nat (length H))%N ->
  (forall i j si sj, entry H i si -> entry H j sj -> i <> j ->
     feq si sj = false) ->
  exists res,
    getTopKPairs K H = Some res /\
    StronglySorted (fun a b => flt (fst b) (fst a) = true) res.
Proof.
  intros NF HK HL Hdistinct.
  destruct (getTopKPairs_queue NF HK HL) as (q & I & _ & Hres).
  exists (rev q). split; [exact Hres|].
  pose proof (inv_sorted I) as Hasc. pose proof (inv_entry I) as Hent.
  unfold ascending in Hasc. clear I Hres. revert Hent.
  induction Hasc as [|t q Hq IH Ht]; intros Hent; simpl; [constructor|].
  apply StronglySorted_snoc.
  - apply IH. intros s i Hin. apply Hent. now right.
  - rewrite Forall_forall in *. intros y Hy. apply in_rev in Hy.
    pose proof (Ht y Hy) as Hlt.
    destruct t as [st it], y as [sy iy]. simpl.
    assert (Et : entry H it st) by (apply Hent; now left).
    assert (Ey : entry H iy sy) by (apply Hent; now right).
    unfold pair_lt in Hlt. simpl in Hlt.
    destruct (flt st sy) eqn:Hf; [reflexivity|exfalso].
    simpl in Hlt. apply andb_true_iff in Hlt. destruct Hlt as [Hn Hi].
    apply negb_true_iff in Hn. apply N.ltb_lt in Hi.
    assert (Hfeq : feq st sy = false) by (apply (Hdistinct it iy); auto; lia).
    rewrite feq_flt in Hfeq by (eapply entry_nan_free; eauto).
    rewrite Hf, Hn in Hfeq. discriminate.
Qed.

Lemma getTopKPairs_strictly_descending_witness :
  exists res,
    getTopKPairs 2 [f0_1; f0_9; f0_4] = Some res /\
    StronglySorted (fun a b => flt (fst b) (fst a) = true) res.
Proof.
  apply (@getTopKPairs_strictly_descending 2 [f0_1; f0_9; f0_4]).
  - apply nan_freeb_spec. reflexivity.
  - lia.
  - simpl. lia.
  - intros i j si sj Ei Ej Hne. unfold entry in *.
    destruct (N.to_nat i) as [|[|[|n]]] eqn:Hi;
      destruct (N.to_nat j) as [|[|[|m]]] eqn:Hj;
      simpl in Ei, Ej; try lia;
      try (inversion Ei; inversion Ej; subst; reflexivity);
      try (destruct n; discriminate); try (destruct m; discriminate).
Defined.

End TopK.

(* ===================================================================== *)
(** * The batch inference driver: [ImageClassifier.cpp] *)
(* ===================================================================== *)

Module Driver.
Import SizeT FloatOrder TopK.
Local Open Scope N_scope.

(** ** Command line and environment *)

(** The [llvm::cl] options after [parseCommandLine]. *)
Record Options : Type := {
  inputImageFilenames : list string;
  inputImageListFile : string;
  miniBatch : N;
  miniBatchThreads : N;
  labelOffset : N;
  computeSoftmax : bool;
  topKCount : N;
  expectedMatchingLabels : list N
}.

(** What the driver consults outside itself: the [Loader] predicates
    [emittingBundle()] and [profilingGraph()] and [getModelOptPath()]
    ([Loader.h] is not among the sources); whether the image list file
    can be opened, and its lines; the lines typed on standard input, each
    already split at white space; [imageDims], the dimensions of the
    tensor [inputImageData] that [loadImagesAndPreprocess] fills for a
    batch of image files; [inference], the rows of the output tensor
    [SMT] once the compiled model has run on a batch of image files; and
    [applySoftmax], the float arithmetic of the source's function of that
    name. *)
Record Environment : Type := {
  emittingBundle : bool;
  profilingGraph : bool;
  modelOptPath : string;
  imageListFileOpens : bool;
  imageListFileLines : list string;
  stdinLines : list (list string);
  imageDims : list string -> list N;
  inference : list string -> list (list float);
  applySoftmax : list float -> list float
}.

(** ** [getNextMiniBatch] *)

(** [for (size_t index = miniBatchIndex; index < endIndex; index++)
      imageList.push_back(totalImageList[index]);]
    with [count] iterations left. *)
Fixpoint copyImages (totalImageList : list string) (index : N) (count : nat)
  (imageList : list string) : option (list string) :=
  match count with
  | O => Some imageList
  | S count' =>
      match nth_error totalImageList (N.to_nat index) with
      | None => None
      | Some f =>
          copyImages totalImageList (N.succ index) count' (imageList ++ [f])
      end
  end.

(** The result is the returned [bool] with the new values of the two
    reference parameters [imageList] and [miniBatchIndex]. *)
Definition getNextMiniBatch (imageList totalImageList : list string)
  (miniBatchIndex miniBatchSize miniBatchLimit : N)
  : option (bool * list string * N) :=
  if miniBatchLimit <=? miniBatchIndex then
    Some (false, imageList, miniBatchIndex)
  else
    let endIndex := add64 miniBatchIndex miniBatchSize in
    match copyImages totalImageList miniBatchIndex
            (N.to_nat (endIndex - miniBatchIndex)) [] with
    | None => None
    | Some imageList' =>
        Some (true, imageList', add64 miniBatchIndex miniBatchSize)
    end.

(** ** Modes *)

(** [inputImageFilenames.size() == 1 && inputImageFilenames.front() == "-"] *)
Definition streamInputFilenamesMode (inputImageFilenames : list string)
  : bool :=
  (N.of_nat (length inputImageFilenames) =? 1) &&
  match hd_error inputImageFilenames with
  | Some front => String.eqb front "-"
  | None => false
  end.

Definition miniBatchMode (o : Options) : bool := 0 <? miniBatch o.

(** The first value of [inputImageBatchFilenames] in [processImageRange]. *)
Definition initialBatchFilenames (miniBatchMode streamMode : bool)
  (inputImageFilenames : list string) : list string :=
  if negb miniBatchMode && negb streamMode then inputImageFilenames else [].

(** ** Worker threads and their ranges *)

Definition multiThreadingAllowed (o : Options) (e : Environment) : bool :=
  miniBatchMode o && negb (emittingBundle e) && negb (profilingGraph e).

Definition numImages (o : Options) : N :=
  N.of_nat (length (inputImageFilenames o)).

Definition numBatches (o : Options) : N :=
  if miniBatchMode o then numImages o / miniBatch o else 1.

Definition numThreads (o : Options) (e : Environment) : N :=
  if multiThreadingAllowed o e
  then N.min (miniBatchThreads o) (numBatches o)
  else 1.

(** [(numBatches + numThreads - 1) / numThreads]; the division is
    undefined for [numThreads = 0]. *)
Definition miniBatchesPerThread (o : Options) (e : Environment) : option N :=
  if numThreads o e =? 0 then None
  else Some (sub64 (add64 (numBatches o) (numThreads o e)) 1 / numThreads o e).

(** [startIndex] and [endIndex] of thread [i]. *)
Definition threadRange (o : Options) (e : Environment) (perThread i : N)
  : N * N :=
  if 1 <? numThreads o e then
    (mul64 (mul64 i perThread) (miniBatch o),
     N.min (mul64 (mul64 (add64 i 1) perThread) (miniBatch o)) (numImages o))
  else (0, numImages o).

(** The ranges handed to the workers, in the order the threads are
    created. *)
Definition threadRanges (o : Options) (e : Environment)
  : option (list (N * N)) :=
  match miniBatchesPerThread o e with
  | None => None
  | Some perThread =>
      Some (map (fun i => threadRange o e perThread (N.of_nat i))
              (seq 0 (N.to_nat (numThreads o e))))
  end.

(** [x] is one of the indices [startIndex .. endIndex) of a range. *)
Definition member (r : N * N) (x : N) : Prop := fst r <= x /\ x < snd r.

(** Ranges that follow one another from [from] to [T]: each is an
    interval [startIndex <= endIndex] and starts where the one before it
    ends. *)
Fixpoint chained (from T : N) (ranges : list (N * N)) : Prop :=
  match ranges with
  | [] => from = T
  | r :: rest => fst r = from /\ fst r <= snd r /\ chained (snd r) T rest
  end.

(** The partition in the specification's words: the ranges are contiguous
    from 0 to [T], so pairwise disjoint with union [0, T), and the length
    of each is a multiple of the minibatch size. *)
Definition contiguous_partition (mb T : N) (ranges : list (N * N)) : Prop :=
  chained 0 T ranges /\
  Forall (fun r => (snd r - fst r) mod mb = 0) ranges.

(** The range of thread [i] when no product wraps: [c] images per
    thread. *)
Definition slice (c T i : N) : N * N := (i * c, N.min ((i + 1) * c) T).

Definition options_5_images_4_threads : Options :=
  {| inputImageFilenames := ["0"; "1"; "2"; "3"; "4"]%string;
     inputImageListFile := ""%string;
     miniBatch := 1;
     miniBatchThreads := 4;
     labelOffset := 0;
     computeSoftmax := false;
     topKCount := 1;
     expectedMatchingLabels := [] |}.

Definition plain_run : Environment :=
  {| emittingBundle := false;
     profilingGraph := false;
     modelOptPath := "model.onnx"%string;
     imageListFileOpens := true;
     imageListFileLines := [];
     stdinLines := [];
     imageDims := fun filenames => [N.of_nat (length filenames); 3; 224; 224];
     inference := fun filenames => map (fun _ => [f0_1; f0_9; f0_4]) filenames;
     applySoftmax := fun row => row |}.

(** ** Console output *)

(** What is written with [operator<<]: string pieces, unsigned numbers,
    and probabilities formatted with ["%0.4f"]. *)
Inductive Chunk : Type :=
| Str (s : string)
| Num (n : N)
| Probability (f : float).

Definition Output : Type := list Chunk.

Definition newline : string := String (ascii_of_nat 10) EmptyString.
Definition tab : string := String (ascii_of_nat 9) EmptyString.

(** ** [printTopKPairs] and [checkExpectedLabel] *)

(** One line of [printTopKPairs], for position [i] of the vector. *)
Definition printTopKPair (labelOffset i : N) (p : FloatIndexPair) : Output :=
  let label := sub64 (snd p) labelOffset in
  (if i =? 0 then [] else [Str (tab ++ tab ++ tab ++ tab ++ tab)]) ++
  [Str (tab ++ "Label-K"); Num (i + 1); Str ": "; Num label;
   Str " (probability: "; Probability (fst p); Str (")" ++ newline)].

Fixpoint printTopKPairsFrom (labelOffset i : N)
  (topKPairs : list FloatIndexPair) : Output :=
  match topKPairs with
  | [] => []
  | p :: rest =>
      printTopKPair labelOffset i p
      ++ printTopKPairsFrom labelOffset (N.succ i) rest
  end.

Definition printTopKPairs (labelOffset : N) (topKPairs : list FloatIndexPair)
  : Output :=
  printTopKPairsFrom labelOffset 0 topKPairs.

(** The loop of [checkExpectedLabel]: true when it returns from inside. *)
Fixpoint findMatchingLabel (labelOffset : N) (topKPairs : list FloatIndexPair)
  (expectedCategoryIndex : N) : bool :=
  match topKPairs with
  | [] => false
  | p :: rest =>
      if sub64 (snd p) labelOffset =? expectedCategoryIndex then true
      else findMatchingLabel labelOffset rest expectedCategoryIndex
  end.

(** The diagnostic of [checkExpectedLabel]. *)
Definition mismatchDiagnostic (topKPairs : list FloatIndexPair)
  (fileName : string) (expectedCategoryIndex : N) : Output :=
  [Str " File: "; Str fileName; Str " doesn't match index: ";
   Num expectedCategoryIndex; Str " in the top ";
   Num (N.of_nat (length topKPairs)); Str (" pairs" ++ newline)].

(** The returned [int] and what is written to [llvm::outs()]. *)
Definition checkExpectedLabel (labelOffset : N)
  (topKPairs : list FloatIndexPair) (fileName : string)
  (expectedCategoryIndex : N) : Z * Output :=
  if findMatchingLabel labelOffset topKPairs expectedCategoryIndex
  then (0%Z, [])
  else (1%Z, mismatchDiagnostic topKPairs fileName expectedCategoryIndex).

(** ** [processAndPrintResultsImpl] *)

(** The body of the loop for image [i], file [fileName]: the new
    [retVal] and the output of this iteration. *)
Definition processSample (o : Options) (e : Environment)
  (SMT : list (list float)) (i : N) (fileName : string) (retVal : Z)
  : option (Z * Output) :=
  match nth_error SMT (N.to_nat i) with
  | None => None
  | Some slice =>
      let SH := if computeSoftmax o then applySoftmax e slice else slice in
      match getTopKPairs (topKCount o) SH with
      | None => None
      | Some topKPairs =>
          let printed :=
            [Str " File: "; Str fileName]
            ++ printTopKPairs (labelOffset o) topKPairs in
          match expectedMatchingLabels o with
          | [] => Some (retVal, printed)
          | _ :: _ =>
              match nth_error (expectedMatchingLabels o) (N.to_nat i) with
              | None => None
              | Some expected =>
                  let (r, diagnostic) :=
                    checkExpectedLabel (labelOffset o) topKPairs fileName
                      expected in
                  Some ((retVal + r)%Z, printed ++ diagnostic)
              end
          end
      end
  end.

(** [for (unsigned i = 0; i < imageList.size(); i++)] over the files that
    remain from index [i] on. *)
Fixpoint processSamples (o : Options) (e : Environment)
  (SMT : list (list float)) (i : N) (imageList : list string) (retVal : Z)
  : option (Z * Output) :=
  match imageList with
  | [] => Some (retVal, [])
  | fileName :: rest =>
      match processSample o e SMT i fileName retVal with
      | None => None
      | Some (retVal', out) =>
          match processSamples o e SMT (N.succ i) rest retVal' with
          | None => None
          | Some (retVal'', out') => Some (retVal'', out ++ out')
          end
      end
  end.

(** [processAndPrintResultsImpl(SMT, imageList)]: the number of
    mismatches found and the output.  [SMT] is given by its rows, one per
    image of the batch; the batch size of [SMT] must be the number of
    images (an assertion of the source). *)
Definition processAndPrintResultsImpl (o : Options) (e : Environment)
  (SMT : list (list float)) (imageList : list string) : option (Z * Output) :=
  if (length SMT =? length imageList)%nat then
    processSamples o e SMT 0 imageList 0%Z
  else None.

(** [processAndPrintResults]: the [switch] on the element type selects
    the instance for [float] or for [float16_t]; the elements are read as
    [float] in both. *)
Definition processAndPrintResults (o : Options) (e : Environment)
  (SMT : list (list float)) (imageList : list string) : option (Z * Output) :=
  processAndPrintResultsImpl o e SMT imageList.

(** ** [processImageRange] *)

(** What a run does that can be seen from outside. *)
Inductive Event : Type :=
| Stdout (out : Output)
| Stderr (out : Output)
| LoadImagesAndPreprocess (filenames : list string)
| BuildAndCompile (filenames : list string)
| RunInference (filenames : list string)
| SerializeQuantizationInfos.

(** [getNextImageFilenames]: the returned [bool], the new [*filenames]
    and what is left of standard input.  At end of input [getline] yields
    nothing. *)
Definition getNextImageFilenames (stdin : list (list string))
  : bool * list string * list (list string) :=
  match stdin with
  | [] => (false, [], [])
  | filenames :: rest =>
      (match filenames with [] => false | _ :: _ => true end, filenames, rest)
  end.

(** The local variables of the lambda [processImageRange] that change,
    with the part of [numErrors] this worker has added and the events it
    has caused.  [inputImagePH] is null ([None]) until the model is
    built, and holds the dimensions of the input placeholder from then
    on. *)
Record Worker : Type := {
  isFirstRun : bool;
  miniBatchIndex : N;
  inputImageBatchFilenames : list string;
  stdin : list (list string);
  numErrors : Z;
  trace : list Event;
  inputImagePH : option (list N)
}.

(** [==] on two lists of dimensions. *)
Fixpoint dims_eqb (a b : list N) : bool :=
  match a, b with
  | [], [] => true
  | x :: a', y :: b' => (x =? y) && dims_eqb a' b'
  | _, _ => false
  end.

(** [inputImagePH && inputImagePH->dims() == inputImageData.dims()]: the
    two conditions on the placeholder that the body asserts before it
    runs inference. *)
Definition shapeMatches (placeholder : option (list N)) (dims : list N)
  : bool :=
  match placeholder with
  | Some placeholderDims => dims_eqb placeholderDims dims
  | None => false
  end.

Definition prompt : Output := [Str "Enter image filenames to classify: "].

(** The condition of the [while]:
    [(streamInputFilenamesMode && getNextImageFilenames(..)) ||
     (miniBatch && getNextMiniBatch(..)) || isFirstRun],
    evaluated left to right with its effects. *)
Definition loopCondition (o : Options) (streamMode : bool) (endIndex : N)
  (w : Worker) : option (bool * Worker) :=
  let '(streamed, w1) :=
    if streamMode then
      let '(got, filenames, rest) := getNextImageFilenames (stdin w) in
      (got,
       {| isFirstRun := isFirstRun w;
          miniBatchIndex := miniBatchIndex w;
          inputImageBatchFilenames := filenames;
          stdin := rest;
          numErrors := numErrors w;
          trace := trace w ++ [Stdout prompt];
          inputImagePH := inputImagePH w |})
    else (false, w) in
  if streamed then Some (true, w1)
  else if 0 <? miniBatch o then
    match getNextMiniBatch (inputImageBatchFilenames w1)
            (inputImageFilenames o) (miniBatchIndex w1) (miniBatch o)
            endIndex with
    | None => None
    | Some (got, imageList, index) =>
        Some (got || isFirstRun w1,
              {| isFirstRun := isFirstRun w1;
                 miniBatchIndex := index;
                 inputImageBatchFilenames := imageList;
                 stdin := stdin w1;
                 numErrors := numErrors w1;
                 trace := trace w1;
                 inputImagePH := inputImagePH w1 |})
    end
  else Some (isFirstRun w1, w1).

(** How the body of the [while] ends: at its closing brace, or with the
    [return] taken when a bundle is emitted. *)
Inductive BodyEnd : Type :=
| NextIteration (w : Worker)
| Return (w : Worker).

(** The body of the [while].  The model is built and compiled on the
    first run, for the type of that run's [inputImageData] (the loaders
    are created with [{inputImageType}] as the type of the model's input),
    so the placeholder [inputImagePH] has the dimensions of the first
    batch.  Every run then asserts
    [GLOW_ASSERT(inputImagePH->dims() == inputImageData.dims())]: a batch
    of other dimensions ends the program, and there is no next state.
    After the inference the results are printed and the mismatches found
    are added to [numErrors]. *)
Definition loopBody (o : Options) (e : Environment) (w : Worker)
  : option BodyEnd :=
  let batch := inputImageBatchFilenames w in
  let loaded := trace w ++ [LoadImagesAndPreprocess batch] in
  let compiled :=
    if isFirstRun w then loaded ++ [BuildAndCompile batch] else loaded in
  if isFirstRun w && emittingBundle e then
    Some (Return
            {| isFirstRun := false;
               miniBatchIndex := miniBatchIndex w;
               inputImageBatchFilenames := batch;
               stdin := stdin w;
               numErrors := numErrors w;
               trace := compiled;
               inputImagePH := inputImagePH w |})
  else
    let placeholder :=
      if isFirstRun w then Some (imageDims e batch) else inputImagePH w in
    if shapeMatches placeholder (imageDims e batch) then
      match processAndPrintResults o e (inference e batch) batch with
      | None => None
      | Some (mismatches, out) =>
          Some (NextIteration
                  {| isFirstRun := false;
                     miniBatchIndex := miniBatchIndex w;
                     inputImageBatchFilenames := batch;
                     stdin := stdin w;
                     numErrors := (numErrors w + mismatches)%Z;
                     trace := compiled ++ [RunInference batch; Stdout out];
                     inputImagePH := placeholder |})
      end
    else None.

(** After the loop: [if (profilingGraph()) ...]. *)
Definition afterLoop (e : Environment) (w : Worker) : Worker :=
  {| isFirstRun := isFirstRun w;
     miniBatchIndex := miniBatchIndex w;
     inputImageBatchFilenames := inputImageBatchFilenames w;
     stdin := stdin w;
     numErrors := numErrors w;
     trace := if profilingGraph e
              then trace w ++ [SerializeQuantizationInfos] else trace w;
     inputImagePH := inputImagePH w |}.

(** The [while] loop, with a bound on the number of times its condition
    is evaluated.  There is no final state when an assertion fails or the
    behaviour is not defined, and none when the bound runs out. *)
Fixpoint workerLoop (fuel : nat) (o : Options) (e : Environment)
  (streamMode : bool) (endIndex : N) (w : Worker) : option Worker :=
  match fuel with
  | O => None
  | S fuel' =>
      match loopCondition o streamMode endIndex w with
      | None => None
      | Some (false, w1) => Some (afterLoop e w1)
      | Some (true, w1) =>
          match loopBody o e w1 with
          | None => None
          | Some (Return w2) => Some w2
          | Some (NextIteration w2) =>
              workerLoop fuel' o e streamMode endIndex w2
          end
      end
  end.

(** The state a worker starts in. *)
Definition startWorker (o : Options) (e : Environment) (streamMode : bool)
  (startIndex : N) : Worker :=
  {| isFirstRun := true;
     miniBatchIndex := startIndex;
     inputImageBatchFilenames :=
       initialBatchFilenames (miniBatchMode o) streamMode
         (inputImageFilenames o);
     stdin := stdinLines e;
     numErrors := 0%Z;
     trace := [];
     inputImagePH := None |}.

(** The [while] loop as the source runs it, without a bound: from the
    state [w] the loop, and what follows it in the lambda, end in the
    state given second. *)
Inductive loopRuns (o : Options) (e : Environment) (streamMode : bool)
  (endIndex : N) : Worker -> Worker -> Prop :=
| loopRuns_exit (w w1 : Worker) :
    loopCondition o streamMode endIndex w = Some (false, w1) ->
    loopRuns o e streamMode endIndex w (afterLoop e w1)
| loopRuns_return (w w1 w2 : Worker) :
    loopCondition o streamMode endIndex w = Some (true, w1) ->
    loopBody o e w1 = Some (Return w2) ->
    loopRuns o e streamMode endIndex w w2
| loopRuns_next (w w1 w2 w3 : Worker) :
    loopCondition o streamMode endIndex w = Some (true, w1) ->
    loopBody o e w1 = Some (NextIteration w2) ->
    loopRuns o e streamMode endIndex w2 w3 ->
    loopRuns o e streamMode endIndex w w3.

(** [n] times in a row, from the state given first, the condition of
    the [while] holds and its body runs to its closing brace; the state
    given second is the one reached. *)
Inductive iterations (o : Options) (e : Environment) (streamMode : bool)
  (endIndex : N) : nat -> Worker -> Worker -> Prop :=
| iterations_none (w : Worker) :
    iterations o e streamMode endIndex 0 w w
| iterations_next (n : nat) (w w1 w2 w3 : Worker) :
    loopCondition o streamMode endIndex w = Some (true, w1) ->
    loopBody o e w1 = Some (NextIteration w2) ->
    iterations o e streamMode endIndex n w2 w3 ->
    iterations o e streamMode endIndex (S n) w w3.

(** What an iteration uses up: a line of standard input, a minibatch, or
    the first run. *)
Definition loopMeasure (o : Options) (streamMode : bool) (w : Worker) : nat :=
  (if streamMode then length (stdin w) else 0)
  + (if 0 <? miniBatch o then N.to_nat (numImages o - miniBatchIndex w) else 0)
  + (if isFirstRun w then 1 else 0).

(** A bound on the evaluations of the loop condition: every iteration but
    the first consumes a line of standard input or a minibatch. *)
Definition loopBound (o : Options) (e : Environment) : nat :=
  length (stdinLines e) + length (inputImageFilenames o) + 2.

Definition processImageRange (o : Options) (e : Environment)
  (streamMode : bool) (startIndex endIndex : N) : option Worker :=
  workerLoop (loopBound o e) o e streamMode endIndex
    (startWorker o e streamMode startIndex).

(** ** [main] *)

(** The loop of [parseInputImageList] on a file that was opened: the
    lines of the file that are not empty are appended to
    [inputImageFilenames]. *)
Definition readImageList (o : Options) (e : Environment) : Options :=
  {| inputImageFilenames :=
       inputImageFilenames o
       ++ filter (fun img => negb (String.eqb img "")) (imageListFileLines e);
     inputImageListFile := inputImageListFile o;
     miniBatch := miniBatch o;
     miniBatchThreads := miniBatchThreads o;
     labelOffset := labelOffset o;
     computeSoftmax := computeSoftmax o;
     topKCount := topKCount o;
     expectedMatchingLabels := expectedMatchingLabels o |}.

(** [parseInputImageList].  When the file cannot be opened the stream is
    in a failed state in which [getline] reads nothing and [eof()] stays
    false: [while (!inFile.eof())] does not end, and the function does
    not return ([None]). *)
Definition parseInputImageList (o : Options) (e : Environment)
  : option Options :=
  if imageListFileOpens e then Some (readImageList o e) else None.

(** How [main] ends.  [Returned] carries the exit status, what [main]
    itself wrote, and the worker threads that ran; the other ends are
    [std::exit], a failed [GLOW_ASSERT], and undefined behaviour; with
    [NeverReturns] it does not end. *)
Inductive Result : Type :=
| Returned (status : Z) (events : list Event) (workers : list Worker)
| Exited (status : Z) (events : list Event)
| AssertionFailed (message : string)
| Undefined
| NeverReturns.

Definition noInputMessage : Output :=
  [Str ("Args: Either positional inputImageFilenames or -inputImageListFile "
        ++ "must be used to specify input images." ++ newline)].

Definition labelCountMessage (o : Options) : Output :=
  [Str "Number of matching indices: ";
   Num (N.of_nat (length (expectedMatchingLabels o)));
   Str " doesn't match the number of files: ";
   Num (N.of_nat (length (inputImageFilenames o)));
   Str newline].

(** All workers of a run, each on its range. *)
Fixpoint runWorkers (o : Options) (e : Environment) (streamMode : bool)
  (ranges : list (N * N)) : option (list Worker) :=
  match ranges with
  | [] => Some []
  | (startIndex, endIndex) :: rest =>
      match processImageRange o e streamMode startIndex endIndex with
      | None => None
      | Some w =>
          match runWorkers o e streamMode rest with
          | None => None
          | Some ws => Some (w :: ws)
          end
      end
  end.

Definition totalErrors (workers : list Worker) : Z :=
  fold_right (fun w n => (numErrors w + n)%Z) 0%Z workers.

(** [main] from the check of the expected labels on; [o] holds the
    filenames after the image list file has been read. *)
Definition mainLoaded (o : Options) (e : Environment) : Result :=
  if match expectedMatchingLabels o with [] => false | _ :: _ => true end
     && negb (length (expectedMatchingLabels o)
              =? length (inputImageFilenames o))%nat
  then Returned 1 [Stderr (labelCountMessage o)] []
  else
    let streamMode := streamInputFilenamesMode (inputImageFilenames o) in
    if streamMode && emittingBundle e then
      AssertionFailed "Cannot emit a bundle and also stream inputs."
    else if miniBatchMode o && streamMode then
      AssertionFailed
        "The minibatch option is not compatible with the stream input image mode."
    else if miniBatchMode o
            && negb (numImages o mod miniBatch o =? 0) then
      AssertionFailed
        "The number of input images must be a multiple of the mini-batch."
    else
      match threadRanges o e with
      | None => Undefined
      | Some ranges =>
          let events :=
            [Stdout [Str "Model: "; Str (modelOptPath e); Str newline]]
            ++ (if (1 <? miniBatchThreads o)
                   && negb (multiThreadingAllowed o e)
                then [Stdout [Str ("WARNING: multi-threaded execution is not "
                        ++ "possible. Make sure that minibatch size is "
                        ++ "specified and you are not trying to dump profile "
                        ++ "or emit bundle." ++ newline)]]
                else [])
            ++ [Stdout [Str "Running "; Num (numThreads o e);
                        Str (" thread(s)." ++ newline)]] in
          match runWorkers o e streamMode ranges with
          | None => Undefined
          | Some workers => Returned (totalErrors workers) events workers
          end
      end.

(** [main], after [parseCommandLine]. *)
Definition main (o : Options) (e : Environment) : Result :=
  if String.eqb (inputImageListFile o) ""
     && (length (inputImageFilenames o) =? 0)%nat
  then Exited 1 [Stderr noInputMessage]
  else if negb (String.eqb (inputImageListFile o) "") then
    if (length (inputImageFilenames o) =? 0)%nat
    then match parseInputImageList o e with
         | Some o' => mainLoaded o' e
         | None => NeverReturns
         end
    else AssertionFailed
           ("When using -input-image-list-file all Input images must be "
            ++ "specified using -input-image-list-file option.")
  else mainLoaded o e.

(** The options when the expected labels are checked: with an image list
    file, the filenames read from it have been appended. *)
Definition loadedOptions (o : Options) (e : Environment) : Options :=
  if String.eqb (inputImageListFile o) "" then o
  else readImageList o e.

(** Loading images, building or compiling a model, running inference. *)
Definition isModelEvent (ev : Event) : bool :=
  match ev with
  | LoadImagesAndPreprocess _ | BuildAndCompile _ | RunInference _
  | SerializeQuantizationInfos => true
  | Stdout _ | Stderr _ => false
  end.





Definition options_two_images_one_label : Options :=
  {| inputImageFilenames := ["cat.png"; "dog.png"]%string;
     inputImageListFile := ""%string;
     miniBatch := 0;
     miniBatchThreads := 1;
     labelOffset := 0;
     computeSoftmax := false;
     topKCount := 1;
     expectedMatchingLabels := [1] |}.

Definition options_two_images_two_labels : Options :=
  {| inputImageFilenames := ["cat.png"; "dog.png"]%string;
     inputImageListFile := ""%string;
     miniBatch := 0;
     miniBatchThreads := 1;
     labelOffset := 0;
     computeSoftmax := false;
     topKCount := 1;
     expectedMatchingLabels := [1; 0] |}.

Definition options_4_images_minibatch_2 : Options :=
  {| inputImageFilenames := ["a"; "b"; "c"; "d"]%string;
     inputImageListFile := ""%string;
     miniBatch := 2;
     miniBatchThreads := 1;
     labelOffset := 0;
     computeSoftmax := false;
     topKCount := 1;
     expectedMatchingLabels := [] |}.

(** The batches a worker ran inference on, in order. *)
Definition inferenceBatches (w : Worker) : list (list string) :=
  flat_map (fun ev => match ev with RunInference fs => [fs] | _ => [] end)
    (trace w).

(** The number of times a model was built and compiled in a trace. *)
Definition compileCount (events : list Event) : nat :=
  length (filter (fun ev => match ev with BuildAndCompile _ => true
                                     | _ => false end) events).

(** The batches of a trace on which inference was run, in order. *)
Definition inferenceBatchesOf (events : list Event) : list (list string) :=
  flat_map (fun ev => match ev with RunInference fs => [fs] | _ => [] end)
    events.

(** The number of image files a worker ran inference on. *)
Definition inferredImages (w : Worker) : Z :=
  Z.of_nat (length (concat (inferenceBatchesOf (trace w)))).

Definition totalInferredImages (workers : list Worker) : Z :=
  fold_right (fun w n => (inferredImages w + n)%Z) 0%Z workers.

Definition bundle_run : Environment :=
  {| emittingBundle := true;
     profilingGraph := false;
     modelOptPath := "model.onnx"%string;
     imageListFileOpens := true;
     imageListFileLines := [];
     stdinLines := [];
     imageDims := fun filenames => [N.of_nat (length filenames); 3; 224; 224];
     inference := fun filenames => map (fun _ => [f0_1; f0_9; f0_4]) filenames;
     applySoftmax := fun row => row |}.

(** The lines of standard input up to the first empty one. *)
Fixpoint linesBeforeEmpty (stdin : list (list string)) : list (list string) :=
  match stdin with
  | [] => []
  | [] :: _ => []
  | filenames :: rest => filenames :: linesBeforeEmpty rest
  end.

Definition stream_options : Options :=
  {| inputImageFilenames := ["-"%string];
     inputImageListFile := EmptyString;
     miniBatch := 0;
     miniBatchThreads := 1;
     labelOffset := 0;
     computeSoftmax := false;
     topKCount := 1;
     expectedMatchingLabels := [] |}.

Definition stream_run : Environment :=
  {| emittingBundle := false;
     profilingGraph := false;
     modelOptPath := "model.onnx"%string;
     imageListFileOpens := true;
     imageListFileLines := [];
     stdinLines := [["a.png"]; ["b.png"]; []; ["c.png"]]%string;
     imageDims := fun filenames => [N.of_nat (length filenames); 3; 224; 224];
     inference := fun filenames => map (fun _ => [f0_1; f0_9; f0_4]) filenames;
     applySoftmax := fun row => row |}.

(** The options with another list of expected labels. *)
Definition withExpectedLabels (o : Options) (labels : list N) : Options :=
  {| inputImageFilenames := inputImageFilenames o;
     inputImageListFile := inputImageListFile o;
     miniBatch := miniBatch o;
     miniBatchThreads := miniBatchThreads o;
     labelOffset := labelOffset o;
     computeSoftmax := computeSoftmax o;
     topKCount := topKCount o;
     expectedMatchingLabels := labels |}.

(** The scores [getTopKPairs] is called on for a row of [SMT]. *)
Definition scores (o : Options) (e : Environment) (row : list float)
  : list float :=
  if computeSoftmax o then applySoftmax e row else row.

(** A row on which [getTopKPairs] has a result: its scores hold no NaN,
    its assertion is met and it never calls [top()] on an empty queue. *)
Definition rowOK (o : Options) (e : Environment) (row : list float) : Prop :=
  nan_free (scores o e row) /\
  topKCount o <= N.of_nat (length (scores o e row)) /\
  (1 <= topKCount o \/ scores o e row = []).

(** A batch for every image of which there is an expected label to read,
    when labels are given. *)
Definition batchOK (o : Options) (batch : list string) : Prop :=
  expectedMatchingLabels o = [] \/
  (length batch <= length (expectedMatchingLabels o))%nat.

(** The model gives one row of scores per image of a batch, each fit for
    [getTopKPairs]. *)
Definition wellShaped (o : Options) (e : Environment) : Prop :=
  forall batch : list string,
    length (inference e batch) = length batch /\
    Forall (rowOK o e) (inference e batch).

(** All images have one shape: the dimensions of the tensor loaded for a
    batch depend on the number of its images only. *)
Definition uniformShapes (e : Environment) : Prop :=
  forall b b' : list string,
    length b = length b' -> imageDims e b = imageDims e b'.

(** What a worker outside stream mode needs of its state when the loop
    condition is evaluated, for that evaluation and the run of the body
    to go through: labels for the batch at hand, a whole number of
    minibatches up to the limit, and, once the model is built, a
    placeholder of the dimensions of the last batch, which was a full
    minibatch if another one is to come. *)
Definition workerOK (o : Options) (e : Environment) (endIndex : N)
  (w : Worker) : Prop :=
  batchOK o (inputImageBatchFilenames w) /\
  (0 < miniBatch o -> miniBatchIndex w < endIndex ->
   (endIndex - miniBatchIndex w) mod miniBatch o = 0) /\
  (isFirstRun w = false ->
   inputImagePH w = Some (imageDims e (inputImageBatchFilenames w)) /\
   (0 < miniBatch o -> miniBatchIndex w < endIndex ->
    N.of_nat (length (inputImageBatchFilenames w)) = miniBatch o)).

(** The same when the body is entered. *)
Definition workerReady (o : Options) (e : Environment) (endIndex : N)
  (w : Worker) : Prop :=
  batchOK o (inputImageBatchFilenames w) /\
  (0 < miniBatch o -> miniBatchIndex w < endIndex ->
   (endIndex - miniBatchIndex w) mod miniBatch o = 0) /\
  (isFirstRun w = false ->
   inputImagePH w = Some (imageDims e (inputImageBatchFilenames w))) /\
  (0 < miniBatch o -> miniBatchIndex w < endIndex ->
   N.of_nat (length (inputImageBatchFilenames w)) = miniBatch o).

Definition profile_run : Environment :=
  {| emittingBundle := false;
     profilingGraph := true;
     modelOptPath := "model.onnx"%string;
     imageListFileOpens := true;
     imageListFileLines := [];
     stdinLines := [];
     imageDims := fun filenames => [N.of_nat (length filenames); 3; 224; 224];
     inference := fun filenames => map (fun _ => [f0_1; f0_9; f0_4]) filenames;
     applySoftmax := fun row => row |}.

Definition options_4_images_2_threads : Options :=
  {| inputImageFilenames := ["a"; "b"; "c"; "d"]%string;
     inputImageListFile := EmptyString;
     miniBatch := 2;
     miniBatchThreads := 2;
     labelOffset := 0;
     computeSoftmax := false;
     topKCount := 1;
     expectedMatchingLabels := [] |}.

(** A run whose images are named in a list file, and a list file whose
    only line is a dash. *)
Definition options_list_file : Options :=
  {| inputImageFilenames := [];
     inputImageListFile := "images.txt"%string;
     miniBatch := 0;
     miniBatchThreads := 1;
     labelOffset := 0;
     computeSoftmax := false;
     topKCount := 1;
     expectedMatchingLabels := [] |}.

Definition dash_list_run : Environment :=
  {| emittingBundle := false;
     profilingGraph := false;
     modelOptPath := "model.onnx"%string;
     imageListFileOpens := true;
     imageListFileLines := ["-"%string];
     stdinLines := [["a.png"]; []]%string;
     imageDims := fun filenames => [N.of_nat (length filenames); 3; 224; 224];
     inference := fun filenames => map (fun _ => [f0_1; f0_9; f0_4]) filenames;
     applySoftmax := fun row => row |}.

Definition options_dash_and_file : Options :=
  {| inputImageFilenames := ["-"; "cat.png"]%string;
     inputImageListFile := EmptyString;
     miniBatch := 0;
     miniBatchThreads := 1;
     labelOffset := 0;
     computeSoftmax := false;
     topKCount := 1;
     expectedMatchingLabels := [] |}.

(** ** Properties of [getNextMiniBatch] *)

Lemma skipn_nth_cons (A : Type) (l : list A) :
  forall (i : nat) (x : A),
    nth_error l i = Some x -> skipn i l = x :: skipn (S i) l.
Proof.
  induction l as [|y l IH]; intros [|i] x Hnth; simpl in *;
    try discriminate.
  - congruence.
  - now apply IH.
Qed.

Lemma copyImages_slice (totalImageList : list string) (count : nat) :
  forall (index : N) (imageList : list string),
    (N.to_nat index + count <= length totalImageList)%nat ->
    copyImages totalImageList index count imageList
    = Some (imageList ++ firstn count (skipn (N.to_nat index) totalImageList)).
Proof.
  induction count as [|count IH]; intros index imageList Hle; simpl.
  - now rewrite app_nil_r.
  - destruct (nth_error totalImageList (N.to_nat index)) as [f|] eqn:Hnth.
    + rewrite IH by (rewrite Nnat.N2Nat.inj_succ; lia).
      rewrite Nnat.N2Nat.inj_succ.
      rewrite (skipn_nth_cons _ _ Hnth). simpl.
      rewrite <- app_assoc. reflexivity.
    + apply nth_error_None in Hnth. lia.
Qed.

(** C9.  [getNextMiniBatch] returns false and leaves [imageList] and
    [miniBatchIndex] as they were when [miniBatchIndex >= miniBatchLimit].
    Otherwise, when the positions [miniBatchIndex .. miniBatchIndex +
    miniBatchSize) exist in [totalImageList] (a vector, so of a size
    below [2^64]), it returns true, [imageList] becomes exactly the
    filenames at those positions in order, and [miniBatchIndex] grows by
    [miniBatchSize]. *)
Theorem getNextMiniBatch_spec (imageList totalImageList : list string)
  (miniBatchIndex miniBatchSize miniBatchLimit : N) :
  (miniBatchLimit <= miniBatchIndex ->
   getNextMiniBatch imageList totalImageList miniBatchIndex miniBatchSize
     miniBatchLimit
   = Some (false, imageList, miniBatchIndex)) /\
  (miniBatchIndex < miniBatchLimit ->
   miniBatchIndex + miniBatchSize <= N.of_nat (length totalImageList) ->
   in_range (N.of_nat (length totalImageList)) ->
   getNextMiniBatch imageList totalImageList miniBatchIndex miniBatchSize
     miniBatchLimit
   = Some (true,
           firstn (N.to_nat miniBatchSize)
             (skipn (N.to_nat miniBatchIndex) totalImageList),
           miniBatchIndex + miniBatchSize)).
Proof.
  unfold getNextMiniBatch. split.
  - intros Hge. apply N.leb_le in Hge. now rewrite Hge.
  - intros Hlt Hfit Hsize. unfold in_range in Hsize.
    apply N.leb_gt in Hlt. rewrite Hlt.
    assert (Hadd : add64 miniBatchIndex miniBatchSize
                   = miniBatchIndex + miniBatchSize).
    { unfold add64, wrap64. apply N.mod_small. lia. }
    rewrite Hadd.
    replace (N.to_nat (miniBatchIndex + miniBatchSize - miniBatchIndex))
      with (N.to_nat miniBatchSize) by lia.
    rewrite copyImages_slice by lia. reflexivity.
Qed.

Lemma getNextMiniBatch_spec_witness :
  getNextMiniBatch ["old"%string] ["a"; "b"; "c"; "d"]%string 4 2 4
  = Some (false, ["old"%string], 4) /\
  getNextMiniBatch ["old"%string] ["a"; "b"; "c"; "d"]%string 2 2 4
  = Some (true, ["c"; "d"]%string, 4).
Proof.
  split.
  - apply (proj1 (getNextMiniBatch_spec ["old"%string]
                    ["a"; "b"; "c"; "d"]%string 4 2 4)).
    lia.
  - apply (proj2 (getNextMiniBatch_spec ["old"%string]
                    ["a"; "b"; "c"; "d"]%string 2 2 4)).
    + lia.
    + simpl. lia.
    + unfold in_range, modulus. simpl. lia.
Defined.

(** ** The loop of a worker ends within its bound *)

Lemma copyImages_Some_bound (totalImageList : list string) (count : nat) :
  forall (index : N) (imageList l : list string),
    (0 < count)%nat ->
    copyImages totalImageList index count imageList = Some l ->
    (N.to_nat index + count <= length totalImageList)%nat.
Proof.
  induction count as [|count IH]; intros index imageList l Hpos Hc; [lia|].
  simpl in Hc.
  destruct (nth_error totalImageList (N.to_nat index)) as [f|] eqn:Hnth;
    [|discriminate].
  assert (N.to_nat index < length totalImageList)%nat
    by (apply nth_error_Some; congruence).
  destruct count as [|count]; [lia|].
  apply IH in Hc; [|lia]. rewrite Nnat.N2Nat.inj_succ in Hc. lia.
Qed.

Lemma getNextMiniBatch_true (imageList totalImageList l : list string)
  (miniBatchIndex miniBatchSize miniBatchLimit index' : N) :
  0 < miniBatchSize -> miniBatchIndex + miniBatchSize < modulus ->
  getNextMiniBatch imageList totalImageList miniBatchIndex miniBatchSize
    miniBatchLimit = Some (true, l, index') ->
  index' = miniBatchIndex + miniBatchSize /\
  miniBatchIndex + miniBatchSize <= N.of_nat (length totalImageList).
Proof.
  intros Hpos Hfit. unfold getNextMiniBatch.
  destruct (miniBatchLimit <=? miniBatchIndex); [discriminate|].
  assert (Hadd : add64 miniBatchIndex miniBatchSize
                 = miniBatchIndex + miniBatchSize).
  { unfold add64, wrap64. now apply N.mod_small. }
  rewrite Hadd.
  destruct (copyImages _ _ _ _) as [l'|] eqn:Hc; [|discriminate].
  intros E. inversion E; subst. split; [reflexivity|].
  apply copyImages_Some_bound in Hc; lia.
Qed.

Lemma getNextMiniBatch_false (imageList totalImageList l : list string)
  (miniBatchIndex miniBatchSize miniBatchLimit index' : N) :
  getNextMiniBatch imageList totalImageList miniBatchIndex miniBatchSize
    miniBatchLimit = Some (false, l, index') ->
  l = imageList /\ index' = miniBatchIndex.
Proof.
  unfold getNextMiniBatch.
  destruct (miniBatchLimit <=? miniBatchIndex).
  - intros E. inversion E. now split.
  - destruct (copyImages _ _ _ _); discriminate.
Qed.

Lemma loopBody_next (o : Options) (e : Environment) (w1 w2 : Worker) :
  loopBody o e w1 = Some (NextIteration w2) ->
  isFirstRun w2 = false /\ miniBatchIndex w2 = miniBatchIndex w1 /\
  stdin w2 = stdin w1.
Proof.
  unfold loopBody.
  destruct (isFirstRun w1 && emittingBundle e); [discriminate|].
  destruct (shapeMatches _ _); [|discriminate].
  destruct (processAndPrintResults _ _ _ _) as [[mismatches out]|];
    [|discriminate].
  intros E. inversion E. simpl. repeat split.
Qed.

(** An iteration of the loop uses up some of the measure.  [bound] is
    above the number of images and every minibatch index; the indices do
    not wrap. *)
Lemma iteration_progress (o : Options) (e : Environment) (streamMode : bool)
  (endIndex bound : N) (w w1 w2 : Worker) :
  numImages o <= bound -> bound + miniBatch o < modulus ->
  miniBatchIndex w <= bound ->
  loopCondition o streamMode endIndex w = Some (true, w1) ->
  loopBody o e w1 = Some (NextIteration w2) ->
  (loopMeasure o streamMode w2 < loopMeasure o streamMode w)%nat /\
  miniBatchIndex w2 <= bound.
Proof.
  intros HT Hfit Hidx Hcond Hbody.
  destruct (loopBody_next _ _ _ Hbody) as (Hf & Hi & Hs).
  unfold loopMeasure. rewrite Hf, Hi, Hs. clear Hbody Hf Hi Hs w2.
  unfold loopCondition in Hcond.
  unfold numImages in *.
  assert (Hbatch : forall (w0 : Worker) b,
            miniBatchIndex w0 = miniBatchIndex w ->
            isFirstRun w0 = isFirstRun w ->
            (if 0 <? miniBatch o
             then
               match getNextMiniBatch (inputImageBatchFilenames w0)
                       (inputImageFilenames o) (miniBatchIndex w0)
                       (miniBatch o) endIndex with
               | None => None
               | Some (got, imageList, index) =>
                   Some (got || isFirstRun w0,
                         {| isFirstRun := isFirstRun w0;
                            miniBatchIndex := index;
                            inputImageBatchFilenames := imageList;
                            stdin := stdin w0;
                            numErrors := numErrors w0;
                            trace := trace w0;
                            inputImagePH := inputImagePH w0 |})
               end
             else Some (isFirstRun w0, w0)) = Some (b, w1) ->
            b = true ->
            stdin w1 = stdin w0 /\
            ((if (0 <? miniBatch o)%N
              then N.to_nat (N.of_nat (length (inputImageFilenames o))
                             - miniBatchIndex w1)%N
              else 0)
             < (if (0 <? miniBatch o)%N
                then N.to_nat (N.of_nat (length (inputImageFilenames o))
                               - miniBatchIndex w)%N
                else 0)
               + (if isFirstRun w then 1 else 0))%nat /\
            miniBatchIndex w1 <= bound).
  { intros w0 b Hi0 Hf0 Hc Hb. rewrite Hi0, Hf0 in Hc.
    destruct (0 <? miniBatch o) eqn:Hmb.
    - destruct (getNextMiniBatch _ _ _ _ _) as [[[got l] index]|] eqn:Hg;
        [|discriminate].
      injection Hc as Hgot Hw. subst w1 b. simpl.
      destruct got.
      + apply N.ltb_lt in Hmb.
        apply getNextMiniBatch_true in Hg; [|exact Hmb|lia].
        destruct Hg as [-> Hle]. split; [reflexivity|]. split; [|lia].
        destruct (isFirstRun w); lia.
      + apply getNextMiniBatch_false in Hg. destruct Hg as [_ ->].
        simpl in Hb. rewrite Hb. split; [reflexivity|]. split; [lia|exact Hidx].
    - injection Hc as Hgot Hw. subst w1. rewrite Hgot, Hb, Hi0.
      split; [reflexivity|]. split; [lia|exact Hidx]. }
  destruct streamMode.
  - unfold getNextImageFilenames in Hcond.
    destruct (stdin w) as [|filenames rest] eqn:Hin.
    + apply Hbatch in Hcond; try reflexivity.
      destruct Hcond as (Hs & Hm & Hb). rewrite Hs. simpl. split; [lia|exact Hb].
    + destruct filenames as [|f fs].
      * apply Hbatch in Hcond; try reflexivity.
        destruct Hcond as (Hs & Hm & Hb). rewrite Hs. simpl.
        split; [lia|exact Hb].
      * injection Hcond as Hw. subst w1. simpl. split; [|exact Hidx].
        destruct (0 <? miniBatch o), (isFirstRun w); lia.
  - apply Hbatch in Hcond; try reflexivity.
    destruct Hcond as (Hs & Hm & Hb). split; [lia|exact Hb].
Qed.

Lemma workerLoop_loopRuns (o : Options) (e : Environment)
  (streamMode : bool) (endIndex : N) (fuel : nat) :
  forall w w' : Worker,
    workerLoop fuel o e streamMode endIndex w = Some w' ->
    loopRuns o e streamMode endIndex w w'.
Proof.
  induction fuel as [|fuel IH]; intros w w' Hw; simpl in Hw; [discriminate|].
  destruct (loopCondition o streamMode endIndex w) as [[[|] w1]|] eqn:Hc;
    [| |discriminate].
  - destruct (loopBody o e w1) as [[w2|w2]|] eqn:Hb; [| |discriminate].
    + eapply loopRuns_next; eauto.
    + inversion Hw; subst. eapply loopRuns_return; eauto.
  - inversion Hw; subst. now apply loopRuns_exit.
Qed.

Lemma loopRuns_workerLoop (o : Options) (e : Environment)
  (streamMode : bool) (endIndex bound : N) (w w' : Worker) :
  numImages o <= bound -> bound + miniBatch o < modulus ->
  loopRuns o e streamMode endIndex w w' ->
  miniBatchIndex w <= bound ->
  forall fuel : nat,
    (loopMeasure o streamMode w < fuel)%nat ->
    workerLoop fuel o e streamMode endIndex w = Some w'.
Proof.
  intros HT Hfit Hruns.
  induction Hruns as [w w1 Hc|w w1 w2 Hc Hb|w w1 w2 w3 Hc Hb Hruns IH];
    intros Hidx fuel Hfuel;
    (destruct fuel as [|fuel]; [lia|]); simpl; rewrite Hc.
  - reflexivity.
  - now rewrite Hb.
  - rewrite Hb.
    destruct (@iteration_progress o e streamMode endIndex bound w w1 w2
                HT Hfit Hidx Hc Hb) as [Hm Hi].
    apply IH; [exact Hi|lia].
Qed.

Lemma iterations_measure (o : Options) (e : Environment)
  (streamMode : bool) (endIndex bound : N) (n : nat) (w w' : Worker) :
  numImages o <= bound -> bound + miniBatch o < modulus ->
  iterations o e streamMode endIndex n w w' ->
  miniBatchIndex w <= bound ->
  (n + loopMeasure o streamMode w' <= loopMeasure o streamMode w)%nat /\
  miniBatchIndex w' <= bound.
Proof.
  intros HT Hfit Hit.
  induction Hit as [w|n w w1 w2 w3 Hc Hb Hit IH]; intros Hidx.
  - split; [lia|exact Hidx].
  - destruct (@iteration_progress o e streamMode endIndex bound w w1 w2
                HT Hfit Hidx Hc Hb) as [Hm Hi].
    destruct (IH Hi) as [IHm IHi]. split; [lia|exact IHi].
Qed.

(** X5.  The loop of a worker terminates.  When the indices fit
    [size_t], the condition of the [while] cannot hold, with the body run
    to its closing brace, more often than there are lines of standard
    input and input images, plus one: every iteration uses up a line, a
    minibatch or the first run.  So the bound of [processImageRange] is
    never what ends the loop, and the bounded loop yields a final state
    exactly when the loop reaches it. *)
Theorem processImageRange_loopRuns (o : Options) (e : Environment)
  (streamMode : bool) (startIndex endIndex : N) :
  N.max startIndex (numImages o) + miniBatch o < modulus ->
  (forall (n : nat) (w : Worker),
     iterations o e streamMode endIndex n
       (startWorker o e streamMode startIndex) w ->
     (n <= length (stdinLines e) + length (inputImageFilenames o) + 1)%nat /\
     (n < loopBound o e)%nat) /\
  (forall w' : Worker,
     processImageRange o e streamMode startIndex endIndex = Some w' <->
     loopRuns o e streamMode endIndex
       (startWorker o e streamMode startIndex) w').
Proof.
  intros Hfit.
  assert (Hstart : (loopMeasure o streamMode
                      (startWorker o e streamMode startIndex)
                    <= length (stdinLines e)
                       + length (inputImageFilenames o) + 1)%nat).
  { unfold loopMeasure, numImages. simpl.
    destruct streamMode, (0 <? miniBatch o); lia. }
  split.
  - intros n w Hit.
    destruct (@iterations_measure o e streamMode endIndex
                (N.max startIndex (numImages o)) n _ _
                ltac:(lia) Hfit Hit) as [Hm _]; [simpl; lia|].
    unfold loopBound. lia.
  - intros w'. unfold processImageRange. split.
    + apply workerLoop_loopRuns.
    + intros Hruns.
      apply loopRuns_workerLoop with (N.max startIndex (numImages o)); auto.
      * lia.
      * simpl. lia.
      * unfold loopBound. lia.
Qed.

Lemma processImageRange_loopRuns_witness :
  (forall (n : nat) (w : Worker),
     iterations options_4_images_minibatch_2 plain_run false 4 n
       (startWorker options_4_images_minibatch_2 plain_run false 0) w ->
     (n <= 5)%nat) /\
  exists w',
    loopRuns options_4_images_minibatch_2 plain_run false 4
      (startWorker options_4_images_minibatch_2 plain_run false 0) w'.
Proof.
  destruct (@processImageRange_loopRuns options_4_images_minibatch_2
              plain_run false 0 4 ltac:(reflexivity)) as [Hbound Hruns].
  split.
  - intros n w Hit. apply (Hbound n w Hit).
  - eexists. apply (proj1 (Hruns _)). vm_compute. reflexivity.
Defined.

(** ** What one evaluation of the condition and one run of the body do *)

Lemma loopCondition_facts (o : Options) (streamMode : bool) (endIndex : N)
  (w w1 : Worker) (b : bool) :
  loopCondition o streamMode endIndex w = Some (b, w1) ->
  isFirstRun w1 = isFirstRun w /\
  numErrors w1 = numErrors w /\
  trace w1 = trace w ++ (if streamMode then [Stdout prompt] else []) /\
  (b = false -> isFirstRun w = false).
Proof.
  unfold loopCondition. intros Hc.
  assert (Hrest : forall w0 : Worker,
            (if 0 <? miniBatch o
             then
               match getNextMiniBatch (inputImageBatchFilenames w0)
                       (inputImageFilenames o) (miniBatchIndex w0)
                       (miniBatch o) endIndex with
               | None => None
               | Some (got, imageList, index) =>
                   Some (got || isFirstRun w0,
                         {| isFirstRun := isFirstRun w0;
                            miniBatchIndex := index;
                            inputImageBatchFilenames := imageList;
                            stdin := stdin w0;
                            numErrors := numErrors w0;
                            trace := trace w0;
                            inputImagePH := inputImagePH w0 |})
               end
             else Some (isFirstRun w0, w0)) = Some (b, w1) ->
            isFirstRun w1 = isFirstRun w0 /\ numErrors w1 = numErrors w0 /\
            trace w1 = trace w0 /\ (b = false -> isFirstRun w0 = false)).
  { intros w0 H0. destruct (0 <? miniBatch o).
    - destruct (getNextMiniBatch _ _ _ _ _) as [[[got l] index]|];
        [|discriminate].
      injection H0 as Hb Hw. subst w1 b. simpl. repeat split.
      intros Hf. now apply orb_false_iff in Hf.
    - injection H0 as Hb Hw. subst w1 b. repeat split. auto. }
  destruct streamMode.
  - destruct (getNextImageFilenames (stdin w)) as [[got filenames] rest].
    destruct got.
    + injection Hc as Hb Hw. subst w1 b. simpl. repeat split. discriminate.
    + apply Hrest in Hc. simpl in Hc. exact Hc.
  - apply Hrest in Hc. destruct Hc as (H1 & H2 & H3 & H4).
    rewrite app_nil_r. repeat split; assumption.
Qed.

Lemma loopBody_NextIteration (o : Options) (e : Environment) (w w2 : Worker) :
  loopBody o e w = Some (NextIteration w2) ->
  isFirstRun w && emittingBundle e = false /\
  exists mismatches out,
    processAndPrintResults o e (inference e (inputImageBatchFilenames w))
      (inputImageBatchFilenames w) = Some (mismatches, out) /\
    w2 = {| isFirstRun := false;
            miniBatchIndex := miniBatchIndex w;
            inputImageBatchFilenames := inputImageBatchFilenames w;
            stdin := stdin w;
            numErrors := (numErrors w + mismatches)%Z;
            trace :=
              (if isFirstRun w
               then (trace w
                     ++ [LoadImagesAndPreprocess (inputImageBatchFilenames w)])
                    ++ [BuildAndCompile (inputImageBatchFilenames w)]
               else trace w
                    ++ [LoadImagesAndPreprocess (inputImageBatchFilenames w)])
              ++ [RunInference (inputImageBatchFilenames w); Stdout out];
            inputImagePH :=
              if isFirstRun w
              then Some (imageDims e (inputImageBatchFilenames w))
              else inputImagePH w |}.
Proof.
  unfold loopBody.
  destruct (isFirstRun w && emittingBundle e); [discriminate|].
  destruct (shapeMatches _ _); [|discriminate].
  destruct (processAndPrintResults _ _ _ _) as [[mismatches out]|];
    [|discriminate].
  intros E. injection E as <-. split; [reflexivity|].
  exists mismatches, out. split; reflexivity.
Qed.

Lemma dims_eqb_eq (a b : list N) : dims_eqb a b = true <-> a = b.
Proof.
  revert b. induction a as [|x a IH]; intros [|y b]; simpl;
    try (split; [discriminate|discriminate]); [tauto|].
  rewrite andb_true_iff, N.eqb_eq, IH. split.
  - intros [-> ->]. reflexivity.
  - intros E. injection E as -> ->. now split.
Qed.

(** The assertion on the placeholder held when the body went on. *)
Lemma loopBody_shape (o : Options) (e : Environment) (w w2 : Worker) :
  loopBody o e w = Some (NextIteration w2) ->
  isFirstRun w = false ->
  inputImagePH w = Some (imageDims e (inputImageBatchFilenames w)).
Proof.
  unfold loopBody. intros H Hf. rewrite Hf in H. cbn [andb] in H.
  unfold shapeMatches in H.
  destruct (inputImagePH w) as [d|]; [|discriminate].
  destruct (dims_eqb d _) eqn:E; [|discriminate].
  apply dims_eqb_eq in E. now rewrite E.
Qed.

Lemma loopCondition_placeholder (o : Options) (streamMode : bool)
  (endIndex : N) (w w1 : Worker) (b : bool) :
  loopCondition o streamMode endIndex w = Some (b, w1) ->
  inputImagePH w1 = inputImagePH w.
Proof.
  unfold loopCondition.
  destruct streamMode.
  - destruct (getNextImageFilenames (stdin w)) as [[got filenames] rest].
    destruct got.
    + intros E. injection E as _ <-. reflexivity.
    + destruct (0 <? miniBatch o).
      * destruct (getNextMiniBatch _ _ _ _ _) as [[[got l] index]|];
          [|discriminate].
        intros E. injection E as _ <-. reflexivity.
      * intros E. injection E as _ <-. reflexivity.
  - destruct (0 <? miniBatch o).
    + destruct (getNextMiniBatch _ _ _ _ _) as [[[got l] index]|];
        [|discriminate].
      intros E. injection E as _ <-. reflexivity.
    + intros E. injection E as _ <-. reflexivity.
Qed.

Lemma loopBody_Return (o : Options) (e : Environment) (w w2 : Worker) :
  loopBody o e w = Some (Return w2) ->
  isFirstRun w = true /\ emittingBundle e = true /\
  w2 = {| isFirstRun := false;
          miniBatchIndex := miniBatchIndex w;
          inputImageBatchFilenames := inputImageBatchFilenames w;
          stdin := stdin w;
          numErrors := numErrors w;
          trace :=
            (trace w
             ++ [LoadImagesAndPreprocess (inputImageBatchFilenames w)])
            ++ [BuildAndCompile (inputImageBatchFilenames w)];
          inputImagePH := inputImagePH w |}.
Proof.
  unfold loopBody.
  destruct (isFirstRun w) eqn:Hf; cbn [andb].
  - destruct (emittingBundle e) eqn:He.
    + intros E. injection E as <-. repeat split.
    + destruct (shapeMatches _ _); [|discriminate].
      destruct (processAndPrintResults _ _ _ _) as [[mismatches out]|];
        discriminate.
  - destruct (shapeMatches _ _); [|discriminate].
    destruct (processAndPrintResults _ _ _ _) as [[mismatches out]|];
      discriminate.
Qed.

Lemma compileCount_app (l1 l2 : list Event) :
  compileCount (l1 ++ l2) = (compileCount l1 + compileCount l2)%nat.
Proof. unfold compileCount. now rewrite filter_app, length_app. Qed.

Lemma compileCount_single (ev : Event) :
  compileCount [ev]
  = match ev with BuildAndCompile _ => 1%nat | _ => 0%nat end.
Proof. destruct ev; reflexivity. Qed.

Lemma compileCount_cons (ev : Event) (l : list Event) :
  compileCount (ev :: l) = (compileCount [ev] + compileCount l)%nat.
Proof. apply (compileCount_app [ev] l). Qed.

Lemma inferenceBatchesOf_app (l1 l2 : list Event) :
  inferenceBatchesOf (l1 ++ l2) = inferenceBatchesOf l1 ++ inferenceBatchesOf l2.
Proof. unfold inferenceBatchesOf. apply flat_map_app. Qed.

Lemma afterLoop_trace (e : Environment) (w : Worker) :
  compileCount (trace (afterLoop e w)) = compileCount (trace w) /\
  inferenceBatchesOf (trace (afterLoop e w)) = inferenceBatchesOf (trace w) /\
  numErrors (afterLoop e w) = numErrors w.
Proof.
  unfold afterLoop. simpl. destruct (profilingGraph e).
  - rewrite compileCount_app, inferenceBatchesOf_app.
    change (compileCount [SerializeQuantizationInfos]) with 0%nat.
    change (inferenceBatchesOf [SerializeQuantizationInfos])
      with (@nil (list string)).
    rewrite app_nil_r, Nat.add_0_r. repeat split.
  - repeat split.
Qed.

(** ** The model is compiled once *)

Lemma loopRuns_compileCount (o : Options) (e : Environment)
  (streamMode : bool) (endIndex : N) (w w' : Worker) :
  loopRuns o e streamMode endIndex w w' ->
  compileCount (trace w')
  = (compileCount (trace w) + if isFirstRun w then 1 else 0)%nat.
Proof.
  assert (Hprompt : forall l, compileCount
            (l ++ (if streamMode then [Stdout prompt] else []))
            = compileCount l).
  { intros l. rewrite compileCount_app.
    destruct streamMode;
      [change (compileCount [Stdout prompt]) with 0%nat
      |change (compileCount []) with 0%nat]; lia. }
  induction 1 as [w w1 Hc|w w1 w2 Hc Hb|w w1 w2 w3 Hc Hb Hruns IH].
  - destruct (loopCondition_facts _ _ _ _ Hc) as (Hf & _ & Ht & Hfalse).
    destruct (afterLoop_trace e w1) as (-> & _ & _).
    rewrite Ht, Hprompt, Hfalse by reflexivity. lia.
  - destruct (loopCondition_facts _ _ _ _ Hc) as (Hf & _ & Ht & _).
    destruct (loopBody_Return _ _ _ Hb) as (Hfirst & _ & ->). simpl.
    rewrite !compileCount_app, Ht, Hprompt, <- Hf, Hfirst.
    rewrite !compileCount_single. lia.
  - destruct (loopCondition_facts _ _ _ _ Hc) as (Hf & _ & Ht & _).
    destruct (loopBody_NextIteration _ _ _ Hb) as (_ & m & out & _ & Hw2).
    rewrite IH. subst w2. simpl. rewrite <- Hf.
    destruct (isFirstRun w1);
      rewrite !compileCount_app, Ht, Hprompt,
        (compileCount_cons (RunInference _)), !compileCount_single; lia.
Qed.

(** X6.  A worker that runs to its end builds and compiles the model
    exactly once, whatever its mode, its range and the number of batches
    it processes. *)
Theorem processImageRange_compiles_once (o : Options) (e : Environment)
  (streamMode : bool) (startIndex endIndex : N) (w' : Worker) :
  processImageRange o e streamMode startIndex endIndex = Some w' ->
  compileCount (trace w') = 1%nat.
Proof.
  intros Hrun. apply workerLoop_loopRuns in Hrun.
  apply loopRuns_compileCount in Hrun. rewrite Hrun. reflexivity.
Qed.

Lemma processImageRange_compiles_once_witness :
  exists w',
    processImageRange options_4_images_minibatch_2 plain_run false 0 4
    = Some w' /\
    compileCount (trace w') = 1%nat.
Proof.
  eexists. split; [vm_compute; reflexivity|].
  eapply (@processImageRange_compiles_once options_4_images_minibatch_2
            plain_run false 0 4).
  vm_compute. reflexivity.
Defined.

(** ** Emitting a bundle *)

(** X7.  When a bundle is emitted, a worker loads its first batch, builds
    and compiles the model for it and returns: it runs no inference,
    prints no result, counts no mismatch and serializes no profile. *)
Theorem processImageRange_bundle (o : Options) (e : Environment)
  (streamMode : bool) (startIndex endIndex : N) (w' : Worker) :
  emittingBundle e = true ->
  processImageRange o e streamMode startIndex endIndex = Some w' ->
  trace w'
  = (if streamMode then [Stdout prompt] else [])
    ++ [LoadImagesAndPreprocess (inputImageBatchFilenames w');
        BuildAndCompile (inputImageBatchFilenames w')] /\
  inferenceBatches w' = [] /\
  numErrors w' = 0%Z.
Proof.
  intros He Hrun. apply workerLoop_loopRuns in Hrun.
  assert (Htrace : trace w'
            = (if streamMode then [Stdout prompt] else [])
              ++ [LoadImagesAndPreprocess (inputImageBatchFilenames w');
                  BuildAndCompile (inputImageBatchFilenames w')] /\
            numErrors w' = 0%Z).
  { inversion Hrun as [w w1 Hc|w w1 w2 Hc Hb|w w1 w2 w3 Hc Hb Hruns]; subst.
    - destruct (loopCondition_facts _ _ _ _ Hc) as (_ & _ & _ & Hfalse).
      specialize (Hfalse eq_refl). discriminate.
    - destruct (loopCondition_facts _ _ _ _ Hc) as (_ & Hn & Ht & _).
      destruct (loopBody_Return _ _ _ Hb) as (_ & _ & ->). simpl in *.
      rewrite Ht, Hn. simpl. rewrite <- app_assoc. split; reflexivity.
    - destruct (loopCondition_facts _ _ _ _ Hc) as (Hf & _ & _ & _).
      destruct (loopBody_NextIteration _ _ _ Hb) as (Hno & _).
      simpl in Hf. rewrite Hf, He in Hno. discriminate. }
  destruct Htrace as [Ht Hn]. repeat split; [exact Ht| |exact Hn].
  unfold inferenceBatches. rewrite Ht. now destruct streamMode.
Qed.

Lemma processImageRange_bundle_witness :
  exists w',
    processImageRange options_two_images_two_labels bundle_run false 0 2
    = Some w' /\
    inferenceBatches w' = [] /\ numErrors w' = 0%Z.
Proof.
  eexists. split; [vm_compute; reflexivity|].
  eapply (fun H1 H2 => proj2 (@processImageRange_bundle
            options_two_images_two_labels bundle_run false 0 2 _ H1 H2)).
  - reflexivity.
  - vm_compute. reflexivity.
Defined.

(** ** The count of mismatches *)

Lemma checkExpectedLabel_range (labelOffset : N)
  (topKPairs : list FloatIndexPair) (fileName : string) (expected : N) :
  (0 <= fst (checkExpectedLabel labelOffset topKPairs fileName expected) <= 1)%Z.
Proof.
  unfold checkExpectedLabel.
  destruct (findMatchingLabel labelOffset topKPairs expected); simpl; lia.
Qed.

Lemma processSample_bounds (o : Options) (e : Environment)
  (SMT : list (list float)) (i : N) (fileName : string) (retVal retVal' : Z)
  (out : Output) :
  processSample o e SMT i fileName retVal = Some (retVal', out) ->
  (retVal <= retVal' <= retVal + 1)%Z /\
  (expectedMatchingLabels o = [] -> retVal' = retVal).
Proof.
  unfold processSample.
  destruct (nth_error SMT (N.to_nat i)) as [slice|]; [|discriminate].
  destruct (getTopKPairs _ _) as [topKPairs|]; [|discriminate].
  destruct (expectedMatchingLabels o) as [|l ls] eqn:El.
  - intros E. injection E as <- _. split; [lia|reflexivity].
  - destruct (nth_error (l :: ls) (N.to_nat i)) as [expected|];
      [|discriminate].
    pose proof (checkExpectedLabel_range (labelOffset o) topKPairs fileName
                  expected) as Hr.
    destruct (checkExpectedLabel _ _ _ _) as [r diagnostic]. simpl in Hr.
    intros E. injection E as <- _. split; [lia|discriminate].
Qed.

Lemma processSamples_bounds (o : Options) (e : Environment)
  (SMT : list (list float)) (imageList : list string) :
  forall (i : N) (retVal retVal' : Z) (out : Output),
    processSamples o e SMT i imageList retVal = Some (retVal', out) ->
    (retVal <= retVal' <= retVal + Z.of_nat (length imageList))%Z /\
    (expectedMatchingLabels o = [] -> retVal' = retVal).
Proof.
  induction imageList as [|fileName rest IH]; intros i retVal retVal' out.
  - simpl. intros E. injection E as <- _. split; [lia|reflexivity].
  - simpl processSamples.
    destruct (processSample o e SMT i fileName retVal) as [[r1 out1]|] eqn:H1;
      [|discriminate].
    destruct (processSamples o e SMT (N.succ i) rest r1) as [[r2 out2]|] eqn:H2;
      [|discriminate].
    intros E. injection E as <- _.
    apply processSample_bounds in H1. apply IH in H2.
    destruct H1 as [B1 E1], H2 as [B2 E2]. split.
    + simpl length. lia.
    + intros Hl. rewrite (E2 Hl), (E1 Hl). reflexivity.
Qed.

Lemma processAndPrintResults_bounds (o : Options) (e : Environment)
  (SMT : list (list float)) (imageList : list string) (mismatches : Z)
  (out : Output) :
  processAndPrintResults o e SMT imageList = Some (mismatches, out) ->
  (0 <= mismatches <= Z.of_nat (length imageList))%Z /\
  (expectedMatchingLabels o = [] -> mismatches = 0%Z).
Proof.
  unfold processAndPrintResults, processAndPrintResultsImpl.
  destruct (length SMT =? length imageList)%nat; [|discriminate].
  intros H. apply processSamples_bounds in H. exact H.
Qed.

Lemma loopRuns_numErrors (o : Options) (e : Environment)
  (streamMode : bool) (endIndex : N) (w w' : Worker) :
  loopRuns o e streamMode endIndex w w' ->
  (0 <= numErrors w' - numErrors w
   <= inferredImages w' - inferredImages w)%Z /\
  (expectedMatchingLabels o = [] -> numErrors w' = numErrors w).
Proof.
  assert (Hprompt : forall l, inferenceBatchesOf
            (l ++ (if streamMode then [Stdout prompt] else []))
            = inferenceBatchesOf l).
  { intros l. rewrite inferenceBatchesOf_app.
    destruct streamMode; simpl; apply app_nil_r. }
  unfold inferredImages.
  induction 1 as [w w1 Hc|w w1 w2 Hc Hb|w w1 w2 w3 Hc Hb Hruns IH].
  - destruct (loopCondition_facts _ _ _ _ Hc) as (_ & Hn & Ht & _).
    destruct (afterLoop_trace e w1) as (_ & -> & ->).
    rewrite Ht, Hprompt, Hn. split; [lia|reflexivity].
  - destruct (loopCondition_facts _ _ _ _ Hc) as (_ & Hn & Ht & _).
    destruct (loopBody_Return _ _ _ Hb) as (_ & _ & ->). simpl.
    rewrite !inferenceBatchesOf_app, Ht, Hprompt, Hn. simpl.
    rewrite !app_nil_r. split; [lia|reflexivity].
  - destruct (loopCondition_facts _ _ _ _ Hc) as (_ & Hn & Ht & _).
    destruct (loopBody_NextIteration _ _ _ Hb) as (_ & m & out & Hp & Hw2).
    apply processAndPrintResults_bounds in Hp. destruct Hp as [Hm Hz].
    assert (H2 : numErrors w2 = (numErrors w + m)%Z)
      by (subst w2; simpl; now rewrite Hn).
    assert (H3 : inferenceBatchesOf (trace w2)
                 = inferenceBatchesOf (trace w)
                   ++ [inputImageBatchFilenames w1]).
    { subst w2. simpl. destruct (isFirstRun w1);
        rewrite !inferenceBatchesOf_app, Ht, Hprompt; simpl;
        rewrite ?app_nil_r; reflexivity. }
    rewrite H2, H3 in IH. destruct IH as [IH1 IH2].
    rewrite concat_app, length_app in IH1. simpl in IH1.
    rewrite app_nil_r in IH1. split; [lia|].
    intros Hl. rewrite (IH2 Hl), (Hz Hl). lia.
Qed.

Lemma runWorkers_each (o : Options) (e : Environment) (streamMode : bool)
  (ranges : list (N * N)) :
  forall workers,
    runWorkers o e streamMode ranges = Some workers ->
    Forall2 (fun r w =>
               processImageRange o e streamMode (fst r) (snd r) = Some w)
      ranges workers.
Proof.
  induction ranges as [|[a b] ranges IH]; intros workers; simpl.
  - intros E. injection E as <-. constructor.
  - destruct (processImageRange o e streamMode a b) as [w|] eqn:Hw;
      [|discriminate].
    destruct (runWorkers o e streamMode ranges) as [ws|]; [|discriminate].
    intros E. injection E as <-. constructor; [exact Hw|now apply IH].
Qed.

Lemma mainLoaded_workers (o : Options) (e : Environment) (status : Z)
  (events : list Event) (workers : list Worker) :
  mainLoaded o e = Returned status events workers ->
  filter isModelEvent events = [] /\
  ((workers = [] /\ status = 1%Z /\ expectedMatchingLabels o <> []) \/
   exists ranges,
     threadRanges o e = Some ranges /\
     runWorkers o e (streamInputFilenamesMode (inputImageFilenames o)) ranges
     = Some workers /\
     status = totalErrors workers /\
     (expectedMatchingLabels o = [] \/
      length (expectedMatchingLabels o) = length (inputImageFilenames o)) /\
     streamInputFilenamesMode (inputImageFilenames o) && emittingBundle e
     = false /\
     miniBatchMode o && streamInputFilenamesMode (inputImageFilenames o)
     = false /\
     miniBatchMode o && negb (numImages o mod miniBatch o =? 0) = false).
Proof.
  unfold mainLoaded. intros H.
  destruct (_ && negb (length (expectedMatchingLabels o) =? _)%nat) eqn:Hg.
  - injection H as <- <- <-. split; [reflexivity|]. left. repeat split.
    intros C. rewrite C in Hg. discriminate.
  - assert (Hlabels : expectedMatchingLabels o = [] \/
                      length (expectedMatchingLabels o)
                      = length (inputImageFilenames o)).
    { destruct (expectedMatchingLabels o) as [|l ls]; [now left|right].
      rewrite andb_true_l in Hg.
      apply negb_false_iff, Nat.eqb_eq in Hg. exact Hg. }
    destruct (streamInputFilenamesMode (inputImageFilenames o)
              && emittingBundle e) eqn:Hsb; [discriminate|].
    destruct (miniBatchMode o
              && streamInputFilenamesMode (inputImageFilenames o)) eqn:Hms;
      [discriminate|].
    destruct (miniBatchMode o && negb (numImages o mod miniBatch o =? 0))
      eqn:Hmm; [discriminate|].
    destruct (threadRanges o e) as [ranges|]; [|discriminate].
    destruct (runWorkers _ _ _ _) as [ws|] eqn:Hws; [|discriminate].
    injection H as <- <- <-. split.
    + destruct ((1 <? miniBatchThreads o) && negb (multiThreadingAllowed o e));
        reflexivity.
    + right. exists ranges. now repeat split.
Qed.

Lemma main_loaded (o : Options) (e : Environment) (status : Z)
  (events : list Event) (workers : list Worker) :
  main o e = Returned status events workers ->
  mainLoaded (loadedOptions o e) e = Returned status events workers.
Proof.
  unfold main, loadedOptions, parseInputImageList.
  destruct (String.eqb (inputImageListFile o) ""); simpl.
  - destruct (length (inputImageFilenames o) =? 0)%nat; [discriminate|auto].
  - destruct (length (inputImageFilenames o) =? 0)%nat; [|discriminate].
    destruct (imageListFileOpens e); [auto|discriminate].
Qed.

(** When the label count passes its check, a run of [main] that returns
    has run its workers: one on each range, in the mode [main] found. *)
Lemma mainLoaded_run (o : Options) (e : Environment) (status : Z)
  (events : list Event) (workers : list Worker) :
  expectedMatchingLabels o = [] \/
  length (expectedMatchingLabels o) = length (inputImageFilenames o) ->
  mainLoaded o e = Returned status events workers ->
  exists ranges,
    threadRanges o e = Some ranges /\
    runWorkers o e (streamInputFilenamesMode (inputImageFilenames o)) ranges
    = Some workers /\
    status = totalErrors workers.
Proof.
  intros Hlabels Hmain. unfold mainLoaded in Hmain.
  destruct (_ && negb (length (expectedMatchingLabels o) =? _)%nat) eqn:Hg.
  { exfalso. destruct Hlabels as [Hl|Hl].
    - rewrite Hl in Hg. discriminate.
    - rewrite Hl, Nat.eqb_refl, andb_false_r in Hg. discriminate. }
  destruct (streamInputFilenamesMode (inputImageFilenames o)
            && emittingBundle e); [discriminate|].
  destruct (miniBatchMode o
            && streamInputFilenamesMode (inputImageFilenames o));
    [discriminate|].
  destruct (miniBatchMode o && negb (numImages o mod miniBatch o =? 0));
    [discriminate|].
  destruct (threadRanges o e) as [ranges|]; [|discriminate].
  destruct (runWorkers _ _ _ _) as [ws|] eqn:Hws; [|discriminate].
  injection Hmain as <- _ <-. exists ranges. now repeat split.
Qed.

(** X8.  When [main] returns after its workers ran, its exit status is
    the sum of the mismatches the workers counted: it is never negative,
    never more than the number of image files inference was run on, and
    it is 0 when no expected labels were given. *)
Theorem main_exit_status (o : Options) (e : Environment) (status : Z)
  (events : list Event) (workers : list Worker) :
  main o e = Returned status events workers ->
  (expectedMatchingLabels o = [] -> status = 0%Z) /\
  (workers <> [] ->
   status = totalErrors workers /\
   (0 <= status <= totalInferredImages workers)%Z).
Proof.
  intros Hmain. apply main_loaded in Hmain.
  assert (El : expectedMatchingLabels (loadedOptions o e)
               = expectedMatchingLabels o).
  { unfold loadedOptions. now destruct (String.eqb _ _). }
  set (o' := loadedOptions o e) in *.
  assert (Hall : forall ranges ws,
            runWorkers o' e (streamInputFilenamesMode (inputImageFilenames o'))
              ranges = Some ws ->
            (0 <= totalErrors ws <= totalInferredImages ws)%Z /\
            (expectedMatchingLabels o = [] -> totalErrors ws = 0%Z)).
  { intros ranges ws Hws. apply runWorkers_each in Hws.
    induction Hws as [|r w ranges ws Hw Hrest IH]; simpl.
    - split; [lia|reflexivity].
    - apply workerLoop_loopRuns, loopRuns_numErrors in Hw.
      rewrite El in Hw. simpl in Hw. destruct Hw as [Hb Hz], IH as [IHb IHz].
      unfold inferredImages at 2 in Hb. simpl in Hb. split; [lia|].
      intros Hl. rewrite (IHz Hl), (Hz Hl). reflexivity. }
  destruct (mainLoaded_workers _ _ Hmain)
    as [_ [(-> & -> & Hne)|(ranges & _ & Hws & -> & _)]].
  - split; [|intros C; now contradiction C].
    intros Hl. rewrite El in Hne. contradiction.
  - destruct (Hall _ _ Hws) as [Hb Hz]. split; [exact Hz|].
    intros _. split; [reflexivity|exact Hb].
Qed.

Lemma main_exit_status_witness :
  exists status events workers,
    main options_two_images_two_labels plain_run
    = Returned status events workers /\
    status = totalErrors workers /\
    (0 <= status <= totalInferredImages workers)%Z.
Proof.
  do 3 eexists. split; [vm_compute; reflexivity|].
  eapply (fun Hm Hw => proj2 (@main_exit_status options_two_images_two_labels
                                plain_run _ _ _ Hm) Hw).
  - vm_compute. reflexivity.
  - discriminate.
Defined.

(** ** The minibatches of a worker *)

Lemma getNextMiniBatch_cases (imageList totalImageList l : list string)
  (miniBatchIndex miniBatchSize miniBatchLimit index' : N) (got : bool) :
  0 < miniBatchSize ->
  (miniBatchIndex < miniBatchLimit ->
   miniBatchIndex + miniBatchSize < modulus) ->
  getNextMiniBatch imageList totalImageList miniBatchIndex miniBatchSize
    miniBatchLimit = Some (got, l, index') ->
  (got = false /\ miniBatchLimit <= miniBatchIndex /\ l = imageList /\
   index' = miniBatchIndex) \/
  (got = true /\ miniBatchIndex < miniBatchLimit /\
   index' = miniBatchIndex + miniBatchSize /\
   miniBatchIndex + miniBatchSize <= N.of_nat (length totalImageList) /\
   l = firstn (N.to_nat miniBatchSize)
         (skipn (N.to_nat miniBatchIndex) totalImageList)).
Proof.
  intros Hpos Hfit Hg.
  destruct (miniBatchLimit <=? miniBatchIndex) eqn:Hl.
  - left. unfold getNextMiniBatch in Hg. rewrite Hl in Hg.
    inversion Hg; subst. apply N.leb_le in Hl. now repeat split.
  - right. apply N.leb_gt in Hl. specialize (Hfit Hl).
    assert (Hgot : got = true).
    { unfold getNextMiniBatch in Hg. apply N.leb_gt in Hl. rewrite Hl in Hg.
      destruct (copyImages _ _ _ _); [|discriminate]. now injection Hg. }
    subst got.
    destruct (getNextMiniBatch_true _ _ _ _ Hpos Hfit Hg) as [-> Hle].
    repeat split; [exact Hl|exact Hle|].
    unfold getNextMiniBatch in Hg. apply N.leb_gt in Hl. rewrite Hl in Hg.
    assert (Hadd : add64 miniBatchIndex miniBatchSize
                   = miniBatchIndex + miniBatchSize).
    { unfold add64, wrap64. now apply N.mod_small. }
    rewrite Hadd in Hg.
    replace (N.to_nat (miniBatchIndex + miniBatchSize - miniBatchIndex))
      with (N.to_nat miniBatchSize) in Hg by lia.
    rewrite copyImages_slice in Hg by lia.
    injection Hg as Hg. now rewrite <- Hg.
Qed.

Lemma loopCondition_minibatch (o : Options) (endIndex : N) (w w1 : Worker)
  (b : bool) :
  0 < miniBatch o ->
  loopCondition o false endIndex w = Some (b, w1) ->
  exists got l index,
    getNextMiniBatch (inputImageBatchFilenames w) (inputImageFilenames o)
      (miniBatchIndex w) (miniBatch o) endIndex = Some (got, l, index) /\
    b = got || isFirstRun w /\
    inputImageBatchFilenames w1 = l /\ miniBatchIndex w1 = index.
Proof.
  intros Hmb. unfold loopCondition. apply N.ltb_lt in Hmb. rewrite Hmb.
  destruct (getNextMiniBatch _ _ _ _ _) as [[[got l] index]|]; [|discriminate].
  intros E. injection E as <- <-. exists got, l, index. now repeat split.
Qed.

Lemma firstn_skipn_next (A : Type) (a b : nat) :
  forall (i : nat) (l : list A),
    firstn a (skipn i l) ++ firstn b (skipn (i + a) l)
    = firstn (a + b) (skipn i l).
Proof.
  intros i l. rewrite (Nat.add_comm i a), <- skipn_skipn.
  generalize (skipn i l) as m. clear i l.
  induction a as [|a IH]; intros m; [reflexivity|].
  destruct m as [|x m]; simpl.
  - now rewrite firstn_nil.
  - f_equal. apply IH.
Qed.

(** The batches that are left to a worker after its first run. *)
Lemma loopRuns_minibatches (o : Options) (e : Environment) (endIndex : N)
  (w w' : Worker) :
  0 < miniBatch o -> endIndex + miniBatch o < modulus ->
  loopRuns o e false endIndex w w' ->
  isFirstRun w = false ->
  (endIndex - miniBatchIndex w) mod miniBatch o = 0 ->
  exists batches,
    inferenceBatchesOf (trace w') = inferenceBatchesOf (trace w) ++ batches /\
    concat batches
    = firstn (N.to_nat (endIndex - miniBatchIndex w))
        (skipn (N.to_nat (miniBatchIndex w)) (inputImageFilenames o)) /\
    Forall (fun batch => N.of_nat (length batch) = miniBatch o) batches.
Proof.
  intros Hmb Hfit.
  induction 1 as [w w1 Hc|w w1 w2 Hc Hb|w w1 w2 w3 Hc Hb Hruns IH];
    intros Hfirst Hmod.
  - destruct (loopCondition_facts _ _ _ _ Hc) as (_ & _ & Ht & _).
    destruct (loopCondition_minibatch _ _ _ Hmb Hc)
      as (got & l & index & Hg & Hgot & _ & _).
    rewrite Hfirst, orb_false_r in Hgot. subst got.
    apply getNextMiniBatch_cases in Hg; [|exact Hmb|lia].
    destruct Hg as [(_ & Hle & _)|(C & _)]; [|discriminate].
    exists []. destruct (afterLoop_trace e w1) as (_ & -> & _).
    rewrite Ht, !app_nil_r.
    replace (endIndex - miniBatchIndex w) with 0 by lia.
    repeat split. constructor.
  - destruct (loopCondition_facts _ _ _ _ Hc) as (Hf & _).
    destruct (loopBody_Return _ _ _ Hb) as (C & _). congruence.
  - destruct (loopCondition_facts _ _ _ _ Hc) as (Hf & _ & Ht & _).
    destruct (loopCondition_minibatch _ _ _ Hmb Hc)
      as (got & l & index & Hg & Hgot & Hl & Hi).
    rewrite Hfirst, orb_false_r in Hgot. subst got.
    apply getNextMiniBatch_cases in Hg; [|exact Hmb|lia].
    destruct Hg as [(C & _)|(_ & Hlt & Hindex & Hle & Hslice)];
      [discriminate|].
    destruct (loopBody_NextIteration _ _ _ Hb) as (_ & m & out & _ & Hw2).
    assert (Hstep : miniBatch o <= endIndex - miniBatchIndex w /\
                    (endIndex - (miniBatchIndex w + miniBatch o))
                      mod miniBatch o = 0).
    { apply N.Div0.mod_divides in Hmod. destruct Hmod as [c Hmod].
      destruct (N.eq_dec c 0) as [->|Hc0]; [lia|]. split; [nia|].
      apply N.Div0.mod_divides. exists (c - 1). nia. }
    destruct Hstep as [Hroom Hmod'].
    assert (H2 : isFirstRun w2 = false /\
                 miniBatchIndex w2 = miniBatchIndex w + miniBatch o /\
                 inferenceBatchesOf (trace w2)
                 = inferenceBatchesOf (trace w) ++ [l]).
    { subst w2. simpl. rewrite Hi, Hindex, Hl, Hf, Hfirst, Ht.
      rewrite !inferenceBatchesOf_app. simpl. rewrite !app_nil_r.
      repeat split. }
    destruct H2 as (Hf2 & Hi2 & Ht2).
    rewrite Hi2 in IH. destruct (IH Hf2 Hmod') as (batches & Hb1 & Hb2 & Hb3).
    exists (l :: batches). repeat split.
    + rewrite Hb1, Ht2, <- app_assoc. reflexivity.
    + simpl. rewrite Hb2, Hslice.
      replace (N.to_nat (miniBatchIndex w + miniBatch o))
        with (N.to_nat (miniBatchIndex w) + N.to_nat (miniBatch o))%nat by lia.
      rewrite firstn_skipn_next. f_equal. lia.
    + constructor; [|exact Hb3].
      rewrite Hslice, length_firstn, length_skipn. lia.
Qed.

Lemma worker_minibatches (o : Options) (e : Environment)
  (startIndex endIndex : N) (w' : Worker) :
  0 < miniBatch o -> emittingBundle e = false ->
  (endIndex - startIndex) mod miniBatch o = 0 ->
  endIndex + miniBatch o < modulus ->
  loopRuns o e false endIndex (startWorker o e false startIndex) w' ->
  concat (inferenceBatches w')
  = firstn (N.to_nat (endIndex - startIndex))
      (skipn (N.to_nat startIndex) (inputImageFilenames o)) /\
  (startIndex < endIndex ->
   Forall (fun batch => N.of_nat (length batch) = miniBatch o)
     (inferenceBatches w')) /\
  (endIndex <= startIndex -> inferenceBatches w' = [[]]).
Proof.
  intros Hmb He Hmod Hfit Hrun.
  change (inferenceBatches w') with (inferenceBatchesOf (trace w')).
  inversion Hrun as [w w1 Hc|w w1 w2 Hc Hb|w w1 w2 w3 Hc Hb Hruns]; subst.
  - destruct (loopCondition_facts _ _ _ _ Hc) as (_ & _ & _ & Hfalse).
    specialize (Hfalse eq_refl). discriminate.
  - destruct (loopBody_Return _ _ _ Hb) as (_ & C & _). congruence.
  - destruct (loopCondition_facts _ _ _ _ Hc) as (Hf & _ & Ht & _).
    destruct (loopCondition_minibatch _ _ _ Hmb Hc)
      as (got & l & index & Hg & _ & Hl & Hi).
    simpl in Hf, Ht, Hg.
    destruct (loopBody_NextIteration _ _ _ Hb) as (_ & m & out & _ & Hw2).
    assert (H2 : isFirstRun w2 = false /\ miniBatchIndex w2 = index /\
                 inferenceBatchesOf (trace w2) = [l]).
    { subst w2. simpl. rewrite Hi, Hl, Hf, Ht. repeat split. }
    destruct H2 as (Hf2 & Hi2 & Ht2).
    apply getNextMiniBatch_cases in Hg; [|exact Hmb|lia].
    destruct Hg as [(_ & Hle & Hl0 & Hindex)|(_ & Hlt & Hindex & Hle & Hslice)].
    + assert (Hempty : l = []).
      { rewrite Hl0. unfold initialBatchFilenames, miniBatchMode.
        apply N.ltb_lt in Hmb. now rewrite Hmb. }
      destruct (@loopRuns_minibatches o e endIndex w2 w' Hmb Hfit Hruns Hf2)
        as (batches & Hb1 & Hb2 & Hb3).
      { rewrite Hi2, Hindex.
        replace (endIndex - startIndex) with 0 by lia.
        apply N.Div0.mod_0_l. }
      rewrite Hi2, Hindex in Hb2.
      replace (endIndex - startIndex) with 0 in * by lia.
      simpl in Hb2.
      assert (Hnone : batches = []).
      { destruct batches as [|batch batches]; [reflexivity|].
        inversion Hb3 as [|? ? Hlen _]; subst.
        destruct batch; [simpl in Hlen; lia|discriminate]. }
      rewrite Hb1, Ht2, Hnone, Hempty. simpl.
      split; [reflexivity|]. split; [intros C; lia|reflexivity].
    + assert (Hstep : miniBatch o <= endIndex - startIndex /\
                      (endIndex - (startIndex + miniBatch o))
                        mod miniBatch o = 0).
      { apply N.Div0.mod_divides in Hmod. destruct Hmod as [c Hmod].
        destruct (N.eq_dec c 0) as [->|Hc0]; [lia|]. split; [nia|].
        apply N.Div0.mod_divides. exists (c - 1). nia. }
      destruct Hstep as [Hroom Hmod'].
      destruct (@loopRuns_minibatches o e endIndex w2 w' Hmb Hfit Hruns Hf2)
        as (batches & Hb1 & Hb2 & Hb3).
      { now rewrite Hi2, Hindex. }
      rewrite Hi2, Hindex in Hb2.
      assert (Hlen : N.of_nat (length l) = miniBatch o).
      { rewrite Hslice, length_firstn, length_skipn. lia. }
      rewrite Hb1, Ht2. simpl. repeat split.
      * rewrite Hb2, Hslice.
        replace (N.to_nat (startIndex + miniBatch o))
          with (N.to_nat startIndex + N.to_nat (miniBatch o))%nat by lia.
        rewrite firstn_skipn_next. f_equal. lia.
      * intros _. constructor; assumption.
      * intros C. lia.
Qed.

(** X9.  A worker of a minibatch run whose range [startIndex, endIndex)
    spans a multiple of the minibatch size runs inference on the
    filenames of its range and on no others, in input order, in batches of
    the minibatch size.  A worker whose range is empty still runs once, on
    an empty batch. *)
Theorem processImageRange_minibatches (o : Options) (e : Environment)
  (startIndex endIndex : N) (w' : Worker) :
  0 < miniBatch o -> emittingBundle e = false ->
  (endIndex - startIndex) mod miniBatch o = 0 ->
  endIndex + miniBatch o < modulus ->
  processImageRange o e false startIndex endIndex = Some w' ->
  concat (inferenceBatches w')
  = firstn (N.to_nat (endIndex - startIndex))
      (skipn (N.to_nat startIndex) (inputImageFilenames o)) /\
  (startIndex < endIndex ->
   Forall (fun batch => N.of_nat (length batch) = miniBatch o)
     (inferenceBatches w')) /\
  (endIndex <= startIndex -> inferenceBatches w' = [[]]).
Proof.
  intros Hmb He Hmod Hfit Hrun. unfold processImageRange in Hrun.
  apply workerLoop_loopRuns in Hrun.
  apply (@worker_minibatches o e startIndex endIndex w' Hmb He Hmod Hfit Hrun).
Qed.

Lemma processImageRange_minibatches_witness :
  exists w',
    processImageRange options_4_images_minibatch_2 plain_run false 0 4
    = Some w' /\
    concat (inferenceBatches w') = ["a"; "b"; "c"; "d"]%string.
Proof.
  eexists. split; [vm_compute; reflexivity|].
  eapply (fun H1 H2 H3 H4 H5 =>
            proj1 (@processImageRange_minibatches
                     options_4_images_minibatch_2 plain_run 0 4 _
                     H1 H2 H3 H4 H5)).
  - reflexivity.
  - reflexivity.
  - reflexivity.
  - reflexivity.
  - vm_compute. reflexivity.
Defined.

(** ** One batch without minibatches *)

Lemma loopCondition_plain (o : Options) (endIndex : N) (w w1 : Worker)
  (b : bool) :
  miniBatch o = 0 ->
  loopCondition o false endIndex w = Some (b, w1) ->
  w1 = w /\ b = isFirstRun w.
Proof.
  intros Hmb. unfold loopCondition. rewrite Hmb. change (0 <? 0) with false.
  intros E. injection E as <- <-. now split.
Qed.

Lemma loopRuns_plain_rest (o : Options) (e : Environment) (endIndex : N)
  (w w' : Worker) :
  miniBatch o = 0 ->
  loopRuns o e false endIndex w w' ->
  isFirstRun w = false ->
  inferenceBatchesOf (trace w') = inferenceBatchesOf (trace w).
Proof.
  intros Hmb Hruns Hfirst.
  destruct Hruns as [w w1 Hc|w w1 w2 Hc Hb|w w1 w2 w3 Hc Hb Hruns].
  - destruct (@loopCondition_plain _ _ _ _ _ Hmb Hc) as [-> _].
    now destruct (afterLoop_trace e w) as (_ & -> & _).
  - destruct (@loopCondition_plain _ _ _ _ _ Hmb Hc) as [_ C]. congruence.
  - destruct (@loopCondition_plain _ _ _ _ _ Hmb Hc) as [_ C]. congruence.
Qed.

Lemma worker_plain (o : Options) (e : Environment)
  (startIndex endIndex : N) (w' : Worker) :
  miniBatch o = 0 -> emittingBundle e = false ->
  processImageRange o e false startIndex endIndex = Some w' ->
  inferenceBatches w' = [inputImageFilenames o].
Proof.
  intros Hmb He Hrun. apply workerLoop_loopRuns in Hrun.
  change (inferenceBatches w') with (inferenceBatchesOf (trace w')).
  inversion Hrun as [w w1 Hc|w w1 w2 Hc Hb|w w1 w2 w3 Hc Hb Hruns]; subst.
  - destruct (loopCondition_facts _ _ _ _ Hc) as (_ & _ & _ & Hfalse).
    specialize (Hfalse eq_refl). discriminate.
  - destruct (loopBody_Return _ _ _ Hb) as (_ & C & _). congruence.
  - destruct (@loopCondition_plain _ _ _ _ _ Hmb Hc) as [-> _].
    destruct (loopBody_NextIteration _ _ _ Hb) as (_ & m & out & _ & Hw2).
    assert (H2 : isFirstRun w2 = false /\
                 inferenceBatchesOf (trace w2) = [inputImageFilenames o]).
    { subst w2. cbn [startWorker isFirstRun inputImageBatchFilenames trace
                     app inferenceBatchesOf flat_map].
      unfold initialBatchFilenames, miniBatchMode. rewrite Hmb.
      now split. }
    destruct H2 as [Hf2 Ht2].
    now rewrite (loopRuns_plain_rest Hmb Hruns Hf2).
Qed.

(** ** The profile *)

Lemma loopRuns_profile (o : Options) (e : Environment) (streamMode : bool)
  (endIndex : N) (w w' : Worker) :
  loopRuns o e streamMode endIndex w w' ->
  exists events,
    ~ In SerializeQuantizationInfos events /\
    trace w'
    = trace w ++ events
      ++ (if profilingGraph e && negb (isFirstRun w && emittingBundle e)
          then [SerializeQuantizationInfos] else []).
Proof.
  assert (Hprompt : ~ In SerializeQuantizationInfos
                      (if streamMode then [Stdout prompt] else [])).
  { destruct streamMode; simpl; [intros [C|[]]; discriminate|tauto]. }
  induction 1 as [w w1 Hc|w w1 w2 Hc Hb|w w1 w2 w3 Hc Hb Hruns IH].
  - destruct (loopCondition_facts _ _ _ _ Hc) as (_ & _ & Ht & Hfalse).
    rewrite (Hfalse eq_refl). cbn [andb negb]. rewrite andb_true_r.
    exists (if streamMode then [Stdout prompt] else []).
    split; [exact Hprompt|].
    unfold afterLoop. cbn [trace]. rewrite Ht.
    destruct (profilingGraph e); [now rewrite <- app_assoc|].
    now rewrite app_nil_r.
  - destruct (loopCondition_facts _ _ _ _ Hc) as (Hf & _ & Ht & _).
    destruct (loopBody_Return _ _ _ Hb) as (Hfirst & He & ->).
    rewrite <- Hf, Hfirst, He. cbn [andb negb trace].
    rewrite andb_false_r, Ht.
    exists ((if streamMode then [Stdout prompt] else [])
            ++ [LoadImagesAndPreprocess (inputImageBatchFilenames w1);
                BuildAndCompile (inputImageBatchFilenames w1)]).
    split.
    + intros Hin. apply in_app_or in Hin. destruct Hin as [Hin|Hin];
        [now apply Hprompt|].
      destruct Hin as [C|[C|[]]]; discriminate.
    + rewrite app_nil_r, <- !app_assoc. reflexivity.
  - destruct (loopCondition_facts _ _ _ _ Hc) as (Hf & _ & Ht & _).
    destruct (loopBody_NextIteration _ _ _ Hb) as (Hno & m & out & _ & Hw2).
    destruct IH as (events & Hnone & IH). rewrite IH, <- Hf, Hno.
    subst w2. cbn [isFirstRun trace andb negb]. rewrite Ht.
    exists ((if streamMode then [Stdout prompt] else [])
            ++ [LoadImagesAndPreprocess (inputImageBatchFilenames w1)]
            ++ (if isFirstRun w1
                then [BuildAndCompile (inputImageBatchFilenames w1)] else [])
            ++ [RunInference (inputImageBatchFilenames w1); Stdout out]
            ++ events).
    split.
    + intros Hin. repeat (apply in_app_or in Hin; destruct Hin as [Hin|Hin]);
        try (now apply Hprompt); try (now apply Hnone).
      * destruct Hin as [C|[]]; discriminate.
      * destruct (isFirstRun w1); [destruct Hin as [C|[]]; discriminate|].
        destruct Hin.
      * destruct Hin as [C|[C|[]]]; discriminate.
    + destruct (isFirstRun w1); rewrite <- ?app_assoc; reflexivity.
Qed.

(** X10.  A worker serializes the quantization profile exactly when a
    profile is collected and no bundle is emitted; it does so once, as
    the last thing it does, after all its inference runs. *)
Theorem processImageRange_profile (o : Options) (e : Environment)
  (streamMode : bool) (startIndex endIndex : N) (w' : Worker) :
  processImageRange o e streamMode startIndex endIndex = Some w' ->
  exists events,
    ~ In SerializeQuantizationInfos events /\
    trace w'
    = events ++ (if profilingGraph e && negb (emittingBundle e)
                 then [SerializeQuantizationInfos] else []).
Proof.
  intros Hrun. apply workerLoop_loopRuns, loopRuns_profile in Hrun.
  exact Hrun.
Qed.

Lemma processImageRange_profile_witness :
  exists w' events,
    processImageRange options_4_images_minibatch_2 profile_run false 0 4
    = Some w' /\
    ~ In SerializeQuantizationInfos events /\
    trace w' = events ++ [SerializeQuantizationInfos].
Proof.
  destruct (processImageRange options_4_images_minibatch_2 profile_run
              false 0 4) as [w'|] eqn:Hrun; [|vm_compute in Hrun; discriminate].
  destruct (processImageRange_profile _ _ _ _ _ Hrun) as (events & Hn & Ht).
  exists w', events. split; [reflexivity|]. split; [exact Hn|exact Ht].
Defined.

(** ** The batches read from standard input *)

Lemma loopCondition_stream (o : Options) (endIndex : N) (w w1 : Worker)
  (b : bool) :
  miniBatch o = 0 ->
  loopCondition o true endIndex w = Some (b, w1) ->
  inputImageBatchFilenames w1 = hd [] (stdin w) /\
  stdin w1 = tl (stdin w) /\
  b = match hd [] (stdin w) with
      | [] => isFirstRun w
      | _ :: _ => true
      end.
Proof.
  intros Hmb. unfold loopCondition, getNextImageFilenames. rewrite Hmb.
  change (0 <? 0) with false.
  destruct (stdin w) as [|[|f fs] rest]; cbn [hd tl];
    intros E; injection E as <- <-; repeat split.
Qed.

Lemma loopRuns_stream (o : Options) (e : Environment) (endIndex : N)
  (w w' : Worker) :
  miniBatch o = 0 ->
  loopRuns o e true endIndex w w' ->
  isFirstRun w = false ->
  inferenceBatchesOf (trace w')
  = inferenceBatchesOf (trace w) ++ linesBeforeEmpty (stdin w).
Proof.
  intros Hmb.
  induction 1 as [w w1 Hc|w w1 w2 Hc Hb|w w1 w2 w3 Hc Hb Hruns IH];
    intros Hfirst.
  - destruct (loopCondition_facts _ _ _ _ Hc) as (_ & _ & Ht & _).
    destruct (@loopCondition_stream _ _ _ _ _ Hmb Hc) as (_ & _ & Hcond).
    destruct (afterLoop_trace e w1) as (_ & -> & _).
    rewrite Ht, inferenceBatchesOf_app. cbn [inferenceBatchesOf flat_map].
    destruct (stdin w) as [|[|f fs] rest]; cbn [hd] in Hcond;
      [reflexivity|reflexivity|discriminate].
  - destruct (loopCondition_facts _ _ _ _ Hc) as (Hf & _).
    destruct (loopBody_Return _ _ _ Hb) as (C & _). congruence.
  - destruct (loopCondition_facts _ _ _ _ Hc) as (Hf & _ & Ht & _).
    destruct (@loopCondition_stream _ _ _ _ _ Hmb Hc) as (Hbatch & Hin & Hcond).
    destruct (loopBody_NextIteration _ _ _ Hb) as (_ & m & out & _ & Hw2).
    rewrite Hfirst in Hcond.
    assert (H2 : isFirstRun w2 = false /\ stdin w2 = tl (stdin w) /\
                 inferenceBatchesOf (trace w2)
                 = inferenceBatchesOf (trace w) ++ [hd [] (stdin w)]).
    { subst w2. cbn [isFirstRun stdin trace]. rewrite Hf, Hfirst, Ht, Hbatch.
      rewrite !inferenceBatchesOf_app. cbn [inferenceBatchesOf flat_map].
      rewrite !app_nil_r. now repeat split. }
    destruct H2 as (Hf2 & Hin2 & Ht2).
    rewrite (IH Hf2), Ht2, Hin2, <- app_assoc.
    destruct (stdin w) as [|[|f fs] rest]; cbn [hd] in Hcond;
      [discriminate|discriminate|reflexivity].
Qed.

(** X11.  In stream mode a worker that runs to its end has run inference
    on the first line of standard input whatever it holds, even no
    filename at all, and then on every following line up to the first
    empty line or the end of the input; what follows that line is not
    read.  (The body asserts that a batch has the shape the model was
    compiled for; the loaded tensors are outside this embedding, and a
    run in which that assertion fails does not reach its end.) *)
Theorem processImageRange_stream (o : Options) (e : Environment)
  (startIndex endIndex : N) (w' : Worker) :
  miniBatch o = 0 -> emittingBundle e = false ->
  processImageRange o e true startIndex endIndex = Some w' ->
  inferenceBatches w'
  = hd [] (stdinLines e) :: linesBeforeEmpty (tl (stdinLines e)).
Proof.
  intros Hmb He Hrun. apply workerLoop_loopRuns in Hrun.
  change (inferenceBatches w') with (inferenceBatchesOf (trace w')).
  inversion Hrun as [w w1 Hc|w w1 w2 Hc Hb|w w1 w2 w3 Hc Hb Hruns]; subst.
  - destruct (loopCondition_facts _ _ _ _ Hc) as (_ & _ & _ & Hfalse).
    specialize (Hfalse eq_refl). discriminate.
  - destruct (loopBody_Return _ _ _ Hb) as (_ & C & _). congruence.
  - destruct (loopCondition_facts _ _ _ _ Hc) as (Hf & _ & Ht & _).
    destruct (@loopCondition_stream _ _ _ _ _ Hmb Hc) as (Hbatch & Hin & _).
    destruct (loopBody_NextIteration _ _ _ Hb) as (_ & m & out & _ & Hw2).
    cbn [startWorker isFirstRun stdin trace] in Hf, Ht, Hbatch, Hin.
    assert (H2 : isFirstRun w2 = false /\ stdin w2 = tl (stdinLines e) /\
                 inferenceBatchesOf (trace w2) = [hd [] (stdinLines e)]).
    { subst w2. cbn [isFirstRun stdin trace]. rewrite Hf, Ht, Hbatch.
      rewrite !inferenceBatchesOf_app. cbn [inferenceBatchesOf flat_map app].
      now repeat split. }
    destruct H2 as (Hf2 & Hin2 & Ht2).
    rewrite (loopRuns_stream Hmb Hruns Hf2), Ht2, Hin2. reflexivity.
Qed.

Lemma processImageRange_stream_witness :
  exists w',
    processImageRange stream_options stream_run true 0 1 = Some w' /\
    inferenceBatches w' = [["a.png"]; ["b.png"]]%string.
Proof.
  eexists. split; [vm_compute; reflexivity|].
  eapply (@processImageRange_stream stream_options stream_run 0 1).
  - reflexivity.
  - reflexivity.
  - vm_compute. reflexivity.
Defined.

(** ** The streaming flag *)

Lemma streamInputFilenamesMode_true_iff (inputImageFilenames : list string) :
  streamInputFilenamesMode inputImageFilenames = true
  <-> inputImageFilenames = ["-"%string].
Proof.
  unfold streamInputFilenamesMode.
  destruct inputImageFilenames as [|f [|g l]].
  - simpl. split; discriminate.
  - simpl. rewrite String.eqb_eq. split; congruence.
  - assert (E : (N.of_nat (length (f :: g :: l)) =? 1) = false).
    { apply N.eqb_neq. simpl length. lia. }
    rewrite E. simpl. split; discriminate.
Qed.

(** ** The ranges of the worker threads *)

Lemma slice_cover (c T nt x : N) :
  0 < c -> T <= nt * c -> x < T ->
  x / c < nt /\ member (slice c T (x / c)) x.
Proof.
  intros Hc HT Hx. unfold member, slice. simpl.
  pose proof (N.div_mod x c ltac:(lia)) as Hdm.
  pose proof (N.mod_lt x c ltac:(lia)) as Hm.
  set (d := x / c) in *. set (r := x mod c) in *.
  assert (Hd : d < nt).
  { destruct (N.lt_ge_cases d nt) as [?|Hge]; [assumption|].
    assert (nt * c <= d * c) by (apply N.mul_le_mono_r; exact Hge). lia. }
  split; [exact Hd|]. split; [lia|].
  apply N.min_glb_lt; lia.
Qed.

Lemma slice_unique (c T i j x : N) :
  member (slice c T i) x -> member (slice c T j) x -> i = j.
Proof.
  unfold member, slice. simpl. intros [Hi1 Hi2] [Hj1 Hj2].
  destruct (N.lt_trichotomy i j) as [Hlt|[Heq|Hgt]]; [nia|exact Heq|nia].
Qed.

Section Ranges.

Variable o : Options.
Variable e : Environment.

Let T : N := numImages o.
Let mb : N := miniBatch o.
Let nb : N := numBatches o.
Let nt : N := numThreads o e.

Hypothesis Hmb : 0 < mb.
Hypothesis Hmultiple : T mod mb = 0.
Hypothesis Hbatch : mb <= T.
Hypothesis Hthreads : 1 <= miniBatchThreads o.
Hypothesis Hsize : T < 2 ^ 63.

Lemma numBatches_exact : T = nb * mb /\ 1 <= nb.
Proof.
  subst nb. unfold numBatches, miniBatchMode. fold mb T.
  apply N.ltb_lt in Hmb. rewrite Hmb. apply N.ltb_lt in Hmb.
  pose proof (N.div_mod T mb ltac:(lia)) as Hdm.
  rewrite Hmultiple in Hdm. split; [lia|].
  destruct (N.eq_dec (T / mb) 0) as [E|E]; [|lia].
  rewrite E in Hdm. lia.
Qed.

Lemma numThreads_bounds : 1 <= nt /\ nt <= nb.
Proof.
  destruct numBatches_exact as [_ Hnb].
  subst nt. unfold numThreads. fold nb.
  destruct (multiThreadingAllowed o e); lia.
Qed.

(** Images per thread. *)
Let per : N := (nb + nt - 1) / nt.

Lemma miniBatchesPerThread_value : miniBatchesPerThread o e = Some per.
Proof.
  destruct numThreads_bounds as [H1 H2]. destruct numBatches_exact as [HT _].
  unfold miniBatchesPerThread. fold nt nb.
  destruct (nt =? 0) eqn:E; [apply N.eqb_eq in E; lia|].
  f_equal. subst per. f_equal.
  unfold sub64, add64, wrap64, modulus.
  assert (Hnb : nb <= T) by nia.
  rewrite (N.mod_small (nb + nt)) by lia.
  rewrite (N.mod_small 1) by lia.
  replace (nb + nt + (2 ^ 64 - 1)) with ((nb + nt - 1) + 1 * 2 ^ 64) by lia.
  rewrite N.Div0.mod_add. apply N.mod_small. lia.
Qed.

Lemma per_bounds : 1 <= per /\ nb <= nt * per /\ nt * per <= nb + nt - 1.
Proof.
  destruct numThreads_bounds as [H1 H2]. subst per.
  pose proof (N.div_mod (nb + nt - 1) nt ltac:(lia)) as Hdm.
  pose proof (N.mod_lt (nb + nt - 1) nt ltac:(lia)) as Hm.
  set (q := (nb + nt - 1) / nt) in *. set (r := (nb + nt - 1) mod nt) in *.
  clearbody q r.
  repeat split; [nia|nia|lia].
Qed.

Lemma threadRange_slice (i : N) :
  1 < nt -> i < nt ->
  threadRange o e per i = slice (per * mb) T i.
Proof.
  intros Hnt Hi.
  destruct numThreads_bounds as [H1 H2]. destruct numBatches_exact as [HT Hnb].
  destruct per_bounds as (Hp1 & Hp2 & Hp3).
  unfold threadRange, slice. fold nt mb T.
  apply N.ltb_lt in Hnt. rewrite Hnt. apply N.ltb_lt in Hnt.
  assert (Hbound : (i + 1) * per * mb < 2 ^ 64) by nia.
  assert (Hinner : (i + 1) * per < 2 ^ 64) by nia.
  unfold mul64, add64, wrap64, modulus.
  rewrite (N.mod_small (i + 1)) by lia.
  rewrite (N.mod_small (i * per)) by nia.
  rewrite (N.mod_small ((i + 1) * per)) by lia.
  rewrite (N.mod_small (i * per * mb)) by nia.
  rewrite (N.mod_small ((i + 1) * per * mb)) by lia.
  f_equal; [lia|f_equal; lia].
Qed.

Lemma threadRange_single : nt = 1 -> threadRange o e per 0 = slice (per * mb) T 0.
Proof.
  intros Hnt. destruct numBatches_exact as [HT Hnb].
  unfold threadRange, slice. fold nt mb T. rewrite Hnt, N.ltb_irrefl.
  assert (Hper : per = nb).
  { subst per. rewrite Hnt. replace (nb + 1 - 1) with nb by lia.
    apply N.div_1_r. }
  rewrite Hper, <- HT. f_equal; lia.
Qed.

Lemma threadRange_any (i : N) :
  i < nt -> threadRange o e per i = slice (per * mb) T i.
Proof.
  intros Hi. destruct numThreads_bounds as [H1 _].
  destruct (N.eq_dec nt 1) as [E|E].
  - assert (i = 0) by lia. subst i. now apply threadRange_single.
  - apply threadRange_slice; lia.
Qed.

Lemma threadRanges_nth (ranges : list (N * N)) (i : nat) (r : N * N) :
  threadRanges o e = Some ranges ->
  nth_error ranges i = Some r ->
  N.of_nat i < nt /\ r = slice (per * mb) T (N.of_nat i).
Proof.
  unfold threadRanges. rewrite miniBatchesPerThread_value. fold nt.
  intros E Hnth. inversion E; subst ranges; clear E.
  assert (Hi : (i < N.to_nat nt)%nat).
  { assert (Hl : (i < length (map (fun k => threadRange o e per (N.of_nat k))
                               (seq 0 (N.to_nat nt))))%nat)
      by (apply nth_error_Some; congruence).
    now rewrite length_map, length_seq in Hl. }
  rewrite nth_error_map, nth_error_seq in Hnth.
  apply Nat.ltb_lt in Hi. rewrite Hi in Hnth. apply Nat.ltb_lt in Hi.
  simpl in Hnth. inversion Hnth; subst r; clear Hnth.
  split; [lia|]. apply threadRange_any. lia.
Qed.

Lemma threadRanges_defined :
  exists ranges, threadRanges o e = Some ranges /\
                 N.of_nat (length ranges) = nt /\
                 forall i, N.of_nat i < nt ->
                   nth_error ranges i = Some (slice (per * mb) T (N.of_nat i)).
Proof.
  unfold threadRanges. rewrite miniBatchesPerThread_value. fold nt.
  eexists. split; [reflexivity|]. split.
  - rewrite length_map, length_seq. lia.
  - intros i Hi. rewrite nth_error_map, nth_error_seq.
    assert (Hlt : (i < N.to_nat nt)%nat) by lia.
    apply Nat.ltb_lt in Hlt. rewrite Hlt. simpl.
    f_equal. apply threadRange_any. exact Hi.
Qed.

Lemma slice_facts :
  0 < per * mb /\ T <= nt * (per * mb).
Proof.
  destruct numBatches_exact as [HT Hnb].
  destruct per_bounds as (Hp1 & Hp2 & Hp3).
  split; nia.
Qed.

Lemma slice_multiple (i : N) :
  fst (slice (per * mb) T i) mod mb = 0 /\
  snd (slice (per * mb) T i) mod mb = 0.
Proof.
  unfold slice. simpl. split.
  - rewrite N.mul_assoc. apply N.Div0.mod_mul.
  - destruct (N.min_spec ((i + 1) * (per * mb)) T) as [[_ ->]|[_ ->]].
    + rewrite N.mul_assoc. apply N.Div0.mod_mul.
    + exact Hmultiple.
Qed.

Lemma slice_nonempty (i : N) :
  fst (slice (per * mb) T i) < snd (slice (per * mb) T i) <-> i * per < nb.
Proof.
  destruct numBatches_exact as [HT _]. destruct slice_facts as [Hc _].
  unfold slice. cbn [fst snd]. split.
  - intros H. apply N.min_glb_lt_iff in H. destruct H as [_ H]. nia.
  - intros H. apply N.min_glb_lt; nia.
Qed.

Lemma threadRanges_slices :
  threadRanges o e
  = Some (map (fun i => slice (per * mb) T (N.of_nat i))
            (seq 0 (N.to_nat nt))).
Proof.
  unfold threadRanges. rewrite miniBatchesPerThread_value. fold nt.
  f_equal. apply map_ext_in. intros i Hi. apply in_seq in Hi.
  apply threadRange_any. lia.
Qed.

End Ranges.

(** C5 (as stated, fails).  Five images, minibatch size 1 and four threads
    give two minibatches per thread: the fourth thread gets
    [startIndex = 6] and [endIndex = 5], so it does not start where the
    third one ends and its start is beyond its end. *)
Lemma threadRanges_counterexample :
  threadRanges options_5_images_4_threads plain_run
  = Some [(0, 2); (2, 4); (4, 5); (6, 5)] /\
  ~ contiguous_partition 1 5 [(0, 2); (2, 4); (4, 5); (6, 5)].
Proof.
  split; [reflexivity|].
  unfold contiguous_partition. simpl. intros [C _]. lia.
Qed.

(** C5 (amended).  In minibatch mode, for a positive image count [T] that
    is a multiple of the minibatch size, at least one configured thread,
    and sizes that fit [size_t] ([T < 2^63]), [main] computes one range
    per worker thread such that: every image index below [T] lies in the
    half-open index set [startIndex, endIndex) of some range and no index
    of a range is outside [0, T); an index lies in the range of one thread
    only; both ends of every range, and so the number of its indices, are
    multiples of the minibatch size; and each range ends where the next
    one starts or at [T], whichever is less.  (A trailing thread can get
    [startIndex > endIndex], an empty index set.) *)
Theorem threadRanges_partition (o : Options) (e : Environment) :
  0 < miniBatch o ->
  numImages o mod miniBatch o = 0 ->
  miniBatch o <= numImages o ->
  1 <= miniBatchThreads o ->
  numImages o < 2 ^ 63 ->
  exists ranges,
    threadRanges o e = Some ranges /\
    N.of_nat (length ranges) = numThreads o e /\
    (forall x, x < numImages o <-> exists r, In r ranges /\ member r x) /\
    (forall i j ri rj x,
       nth_error ranges i = Some ri -> nth_error ranges j = Some rj ->
       member ri x -> member rj x -> i = j) /\
    (forall r, In r ranges ->
       fst r mod miniBatch o = 0 /\ snd r mod miniBatch o = 0 /\
       (snd r - fst r) mod miniBatch o = 0) /\
    (forall i ri rj,
       nth_error ranges i = Some ri -> nth_error ranges (S i) = Some rj ->
       snd ri = N.min (fst rj) (numImages o)).
Proof.
  intros Hmb Hmul Hbatch Hthreads Hsize.
  destruct (threadRanges_defined o e Hmb Hmul Hbatch Hthreads Hsize)
    as (ranges & Hr & Hlen & Hnth).
  pose proof (slice_facts o e Hmb Hmul Hbatch Hthreads Hsize) as [Hc HT].
  assert (Hinv : forall i r, nth_error ranges i = Some r ->
            r = slice ((numBatches o + numThreads o e - 1) / numThreads o e
                       * miniBatch o) (numImages o) (N.of_nat i)).
  { intros i r Hi.
    apply (threadRanges_nth o e Hmb Hmul Hbatch Hthreads Hsize i Hr Hi). }
  set (c := (numBatches o + numThreads o e - 1) / numThreads o e * miniBatch o) in *.
  exists ranges. split; [exact Hr|]. split; [exact Hlen|].
  split; [|split; [|split]].
  - intros x. split.
    + intros Hx.
      destruct (@slice_cover c (numImages o) (numThreads o e) x Hc HT Hx)
        as [Hi Hm].
      exists (slice c (numImages o) (x / c)). split; [|exact Hm].
      apply nth_error_In with (N.to_nat (x / c)).
      rewrite Hnth by lia. now rewrite Nnat.N2Nat.id.
    + intros (r & Hin & [_ Hm]). apply In_nth_error in Hin.
      destruct Hin as [i Hi]. rewrite (Hinv i r Hi) in *.
      unfold slice in Hm. simpl in Hm. lia.
  - intros i j ri rj x Hi Hj Mi Mj.
    rewrite (Hinv i ri Hi) in *. rewrite (Hinv j rj Hj) in *.
    pose proof (@slice_unique c (numImages o) _ _ x Mi Mj). lia.
  - intros r Hin. apply In_nth_error in Hin. destruct Hin as [i Hi].
    rewrite (Hinv i r Hi) in *.
    destruct (slice_multiple o e Hmul (N.of_nat i)) as [H1 H2].
    fold c in H1, H2. repeat split; [exact H1|exact H2|].
    apply N.Div0.mod_divides in H1. apply N.Div0.mod_divides in H2.
    apply N.Div0.mod_divides.
    destruct H1 as [a Ha]. destruct H2 as [b Hb]. rewrite Ha, Hb.
    exists (b - a). nia.
  - intros i ri rj Hi Hj.
    rewrite (Hinv i ri Hi). rewrite (Hinv (S i) rj Hj).
    replace (N.of_nat (S i)) with (N.of_nat i + 1) by lia.
    reflexivity.
Qed.

Lemma threadRanges_partition_witness :
  exists ranges,
    threadRanges options_5_images_4_threads plain_run = Some ranges /\
    N.of_nat (length ranges)
    = numThreads options_5_images_4_threads plain_run.
Proof.
  destruct (@threadRanges_partition options_5_images_4_threads plain_run)
    as (ranges & Hr & Hlen & _).
  - reflexivity.
  - reflexivity.
  - vm_compute. discriminate.
  - vm_compute. discriminate.
  - reflexivity.
  - exists ranges. split; assumption.
Defined.

(** ** The number of worker threads *)

Lemma threadRanges_length (o : Options) (e : Environment)
  (ranges : list (N * N)) :
  threadRanges o e = Some ranges ->
  N.of_nat (length ranges) = numThreads o e.
Proof.
  unfold threadRanges. destruct (miniBatchesPerThread o e); [|discriminate].
  intros E. inversion E. rewrite length_map, length_seq. lia.
Qed.

Lemma threadRanges_single (o : Options) (e : Environment) :
  numThreads o e = 1 -> threadRanges o e = Some [(0, numImages o)].
Proof.
  intros Hnt. unfold threadRanges, miniBatchesPerThread, threadRange.
  rewrite Hnt. reflexivity.
Qed.

(** C6.  The number of worker threads is [min(miniBatchThreads,
    numBatches)] when minibatch mode is on and the run neither emits a
    bundle nor collects a profile; in every other case it is one, and
    that one worker gets the whole list.  [main] computes as many ranges
    as that number and, when it returns after the check of the label
    count has passed, it has run exactly one worker on each range, in
    the order of the ranges: the workers are as many as that number.
    [o] holds the filenames after the image list file has been read. *)
Theorem numThreads_spec (o : Options) (e : Environment) :
  (miniBatchMode o = true -> emittingBundle e = false ->
   profilingGraph e = false ->
   numThreads o e = N.min (miniBatchThreads o) (numBatches o)) /\
  (miniBatchMode o = false \/ emittingBundle e = true \/
   profilingGraph e = true ->
   numThreads o e = 1 /\ threadRanges o e = Some [(0, numImages o)]) /\
  (forall ranges, threadRanges o e = Some ranges ->
     N.of_nat (length ranges) = numThreads o e) /\
  (numThreads o e <> 0 -> exists ranges, threadRanges o e = Some ranges) /\
  (forall (o0 : Options) (status : Z) (events : list Event)
          (workers : list Worker),
     o = loadedOptions o0 e ->
     expectedMatchingLabels o = [] \/
     length (expectedMatchingLabels o) = length (inputImageFilenames o) ->
     main o0 e = Returned status events workers ->
     N.of_nat (length workers) = numThreads o e /\
     exists ranges,
       threadRanges o e = Some ranges /\
       Forall2 (fun r w =>
                  processImageRange o e
                    (streamInputFilenamesMode (inputImageFilenames o))
                    (fst r) (snd r) = Some w)
         ranges workers).
Proof.
  split; [|split; [|split; [|split]]].
  - intros Hm He Hp. unfold numThreads, multiThreadingAllowed.
    now rewrite Hm, He, Hp.
  - intros H. split.
    + unfold numThreads, multiThreadingAllowed.
      destruct H as [-> | [-> | ->]]; simpl; rewrite ?andb_false_r;
        reflexivity.
    + apply threadRanges_single. unfold numThreads, multiThreadingAllowed.
      destruct H as [-> | [-> | ->]]; simpl; rewrite ?andb_false_r;
        reflexivity.
  - apply threadRanges_length.
  - intros Hnt. unfold threadRanges, miniBatchesPerThread.
    apply N.eqb_neq in Hnt. rewrite Hnt. eexists. reflexivity.
  - intros o0 status events workers -> Hlabels Hmain.
    apply main_loaded in Hmain.
    destruct (@mainLoaded_run _ _ _ _ _ Hlabels Hmain)
      as (ranges & Hr & Hws & _).
    apply runWorkers_each in Hws. split.
    + rewrite <- (Forall2_length Hws). now apply threadRanges_length.
    + exists ranges. now split.
Qed.

Lemma numThreads_spec_witness :
  numThreads options_5_images_4_threads plain_run = 4 /\
  numThreads options_two_images_one_label plain_run = 1 /\
  exists status events workers,
    main options_4_images_2_threads plain_run
    = Returned status events workers /\
    N.of_nat (length workers) = 2.
Proof.
  split; [|split].
  - rewrite (proj1 (numThreads_spec options_5_images_4_threads plain_run));
      reflexivity.
  - apply (proj1 (proj2 (numThreads_spec options_two_images_one_label
                           plain_run))).
    left. reflexivity.
  - destruct (main options_4_images_2_threads plain_run)
      as [status events workers|status events|message| |] eqn:Hmain;
      try (vm_compute in Hmain; discriminate).
    exists status, events, workers. split; [reflexivity|].
    apply (proj1 (proj2 (proj2 (proj2 (proj2
             (numThreads_spec options_4_images_2_threads plain_run))))
             options_4_images_2_threads status events workers eq_refl
             (or_introl eq_refl) Hmain)).
Defined.

(** ** The expected-label check *)

Lemma findMatchingLabel_spec (labelOffset : N)
  (topKPairs : list FloatIndexPair) (expectedCategoryIndex : N) :
  findMatchingLabel labelOffset topKPairs expectedCategoryIndex = true <->
  exists p, In p topKPairs /\
            sub64 (snd p) labelOffset = expectedCategoryIndex.
Proof.
  induction topKPairs as [|p rest IH]; simpl.
  - split; [discriminate|]. intros (p & [] & _).
  - destruct (sub64 (snd p) labelOffset =? expectedCategoryIndex) eqn:E.
    + apply N.eqb_eq in E. split; [|reflexivity].
      intros _. exists p. split; [now left|exact E].
    + apply N.eqb_neq in E. rewrite IH. split.
      * intros (q & Hq & Eq). exists q. split; [now right|exact Eq].
      * intros (q & [<-|Hq] & Eq); [contradiction|].
        exists q. now split.
Qed.

Lemma processSample_check (o : Options) (e : Environment)
  (SMT : list (list float)) (i : N) (fileName : string) (retVal retVal' : Z)
  (out : Output) :
  expectedMatchingLabels o <> [] ->
  processSample o e SMT i fileName retVal = Some (retVal', out) ->
  exists slice topKPairs expected,
    nth_error SMT (N.to_nat i) = Some slice /\
    getTopKPairs (topKCount o)
      (if computeSoftmax o then applySoftmax e slice else slice)
    = Some topKPairs /\
    nth_error (expectedMatchingLabels o) (N.to_nat i) = Some expected /\
    retVal' = (retVal + fst (checkExpectedLabel (labelOffset o) topKPairs
                               fileName expected))%Z /\
    incl (snd (checkExpectedLabel (labelOffset o) topKPairs fileName
                 expected)) out.
Proof.
  intros Hlabels. unfold processSample.
  destruct (nth_error SMT (N.to_nat i)) as [slice|]; [|discriminate].
  destruct (getTopKPairs _ _) as [topKPairs|] eqn:Htop; [|discriminate].
  destruct (expectedMatchingLabels o) as [|l ls] eqn:El; [contradiction|].
  destruct (nth_error (l :: ls) (N.to_nat i)) as [expected|] eqn:Hexp;
    [|discriminate].
  destruct (checkExpectedLabel _ _ _ _) as [r diagnostic] eqn:Hc.
  intros E. injection E as <- <-.
  exists slice, topKPairs, expected. rewrite Hc. cbn [fst snd].
  repeat split; auto.
  intros c Hin. simpl. right. right. apply in_or_app. now right.
Qed.

Lemma processSamples_checks (o : Options) (e : Environment)
  (SMT : list (list float)) (imageList : list string) :
  expectedMatchingLabels o <> [] ->
  forall (i : N) (retVal retVal' : Z) (out : Output),
    processSamples o e SMT i imageList retVal = Some (retVal', out) ->
    exists checks : list (Z * Output),
      length checks = length imageList /\
      (forall k fileName,
         nth_error imageList k = Some fileName ->
         exists slice topKPairs expected,
           nth_error SMT (N.to_nat i + k) = Some slice /\
           getTopKPairs (topKCount o)
             (if computeSoftmax o then applySoftmax e slice else slice)
           = Some topKPairs /\
           nth_error (expectedMatchingLabels o) (N.to_nat i + k)
           = Some expected /\
           nth_error checks k
           = Some (checkExpectedLabel (labelOffset o) topKPairs fileName
                     expected)) /\
      retVal' = (retVal + fold_right Z.add 0 (map fst checks))%Z /\
      (forall c, In c checks -> incl (snd c) out).
Proof.
  intros Hlabels.
  induction imageList as [|fileName rest IH]; intros i retVal retVal' out.
  - simpl. intros E. injection E as <- <-. exists []. simpl.
    repeat split; [|lia|contradiction].
    intros [|k] f C; discriminate.
  - cbn [processSamples].
    destruct (processSample o e SMT i fileName retVal) as [[r1 out1]|] eqn:H1;
      [|discriminate].
    destruct (processSamples o e SMT (N.succ i) rest r1) as [[r2 out2]|]
      eqn:H2; [|discriminate].
    intros E. injection E as <- <-.
    destruct (@processSample_check _ _ _ _ _ _ _ _ Hlabels H1)
      as (slice & topKPairs & expected & Hs & Ht & He & Hr & Hout).
    destruct (IH _ _ _ _ H2) as (checks & Hlen & Hnth & Hsum & Hincl).
    exists (checkExpectedLabel (labelOffset o) topKPairs fileName expected
            :: checks).
    split; [simpl; now rewrite Hlen|]. split; [|split].
    + intros [|k] f Hf.
      * simpl in Hf. injection Hf as <-. rewrite Nat.add_0_r.
        exists slice, topKPairs, expected. now repeat split.
      * simpl in Hf. destruct (Hnth k f Hf) as (s' & t' & x' & A & B & C & D).
        replace (N.to_nat i + S k)%nat with (N.to_nat (N.succ i) + k)%nat
          by lia.
        exists s', t', x'. now repeat split.
    + simpl. lia.
    + intros c [<-|Hin].
      * now apply incl_appl.
      * apply incl_appr. now apply Hincl.
Qed.

Lemma totalErrors_sum (workers : list Worker) :
  totalErrors workers = fold_right Z.add 0%Z (map numErrors workers).
Proof.
  unfold totalErrors. induction workers as [|w ws IH]; simpl; [reflexivity|].
  now rewrite IH.
Qed.

(** Every batch the loop runs inference on has its results processed, and
    what [processAndPrintResults] returns for it is added to
    [numErrors]. *)
Lemma loopRuns_mismatches (o : Options) (e : Environment)
  (streamMode : bool) (endIndex : N) (w w' : Worker) :
  loopRuns o e streamMode endIndex w w' ->
  forall counts0 : list Z,
    Forall2 (fun batch mismatches =>
               exists out,
                 processAndPrintResults o e (inference e batch) batch
                 = Some (mismatches, out))
      (inferenceBatchesOf (trace w)) counts0 ->
    exists counts : list Z,
      Forall2 (fun batch mismatches =>
                 exists out,
                   processAndPrintResults o e (inference e batch) batch
                   = Some (mismatches, out))
        (inferenceBatchesOf (trace w')) (counts0 ++ counts) /\
      numErrors w' = (numErrors w + fold_right Z.add 0 counts)%Z.
Proof.
  assert (Hprompt : forall l, inferenceBatchesOf
            (l ++ (if streamMode then [Stdout prompt] else []))
            = inferenceBatchesOf l).
  { intros l. rewrite inferenceBatchesOf_app.
    destruct streamMode; simpl; apply app_nil_r. }
  induction 1 as [w w1 Hc|w w1 w2 Hc Hb|w w1 w2 w3 Hc Hb Hruns IH];
    intros counts0 Hall;
    destruct (loopCondition_facts _ _ _ _ Hc) as (_ & Hn & Ht & _).
  - destruct (afterLoop_trace e w1) as (_ & Et & En).
    exists []. rewrite app_nil_r, Et, En, Ht, Hprompt, Hn. simpl.
    split; [exact Hall|lia].
  - destruct (loopBody_Return _ _ _ Hb) as (_ & _ & ->).
    exists []. cbn [trace numErrors].
    rewrite app_nil_r, !inferenceBatchesOf_app, Ht, Hprompt, Hn.
    cbn [inferenceBatchesOf flat_map app]. rewrite !app_nil_r. simpl.
    split; [exact Hall|lia].
  - destruct (loopBody_NextIteration _ _ _ Hb) as (_ & m & out & Hp & Hw2).
    assert (H2 : numErrors w2 = (numErrors w + m)%Z)
      by (subst w2; simpl; now rewrite Hn).
    assert (H3 : inferenceBatchesOf (trace w2)
                 = inferenceBatchesOf (trace w)
                   ++ [inputImageBatchFilenames w1]).
    { subst w2. simpl. destruct (isFirstRun w1);
        rewrite !inferenceBatchesOf_app, Ht, Hprompt; simpl;
        rewrite ?app_nil_r; reflexivity. }
    destruct (IH (counts0 ++ [m])) as (counts & Hcounts & Hsum).
    { rewrite H3. apply Forall2_app; [exact Hall|].
      constructor; [|constructor]. now exists out. }
    exists (m :: counts). rewrite <- app_assoc in Hcounts.
    split; [exact Hcounts|]. rewrite Hsum, H2. simpl. lia.
Qed.

(** C7.  [checkExpectedLabel] returns 0 exactly when some returned pair
    [p] has [p.second - labelOffset == expectedCategoryIndex] (in
    [size_t] arithmetic); then it prints nothing.  Otherwise it returns 1
    and prints one diagnostic that names the file and the expected
    index.  When expected labels are given, [processAndPrintResultsImpl]
    calls it once for every sample of the batch, with the top-K pairs,
    the file name and the expected label of that sample; what
    [processAndPrintResults] returns is the sum of the values returned
    by these calls, and what it prints holds their diagnostics.  The
    loop body adds that sum to [numErrors]: a worker that has run to its
    end has processed the results of every batch it ran inference on and
    counted the sum of what [processAndPrintResults] returned for them,
    and [main] returns the sum of the counts of its workers. *)
Theorem checkExpectedLabel_spec (o : Options) (e : Environment) :
  (forall topKPairs fileName expectedCategoryIndex,
     (fst (checkExpectedLabel (labelOffset o) topKPairs fileName
             expectedCategoryIndex) = 0%Z <->
      exists p, In p topKPairs /\
                sub64 (snd p) (labelOffset o) = expectedCategoryIndex) /\
     (checkExpectedLabel (labelOffset o) topKPairs fileName
        expectedCategoryIndex = (0%Z, []) \/
      checkExpectedLabel (labelOffset o) topKPairs fileName
        expectedCategoryIndex
      = (1%Z, mismatchDiagnostic topKPairs fileName expectedCategoryIndex)) /\
     In (Str fileName)
       (mismatchDiagnostic topKPairs fileName expectedCategoryIndex) /\
     In (Num expectedCategoryIndex)
       (mismatchDiagnostic topKPairs fileName expectedCategoryIndex)) /\
  (forall SMT i fileName retVal retVal' out,
     expectedMatchingLabels o <> [] ->
     processSample o e SMT i fileName retVal = Some (retVal', out) ->
     exists slice topKPairs expected,
       nth_error SMT (N.to_nat i) = Some slice /\
       getTopKPairs (topKCount o)
         (if computeSoftmax o then applySoftmax e slice else slice)
       = Some topKPairs /\
       nth_error (expectedMatchingLabels o) (N.to_nat i) = Some expected /\
       retVal' = (retVal + fst (checkExpectedLabel (labelOffset o) topKPairs
                                  fileName expected))%Z) /\
  (forall w w',
     loopBody o e w = Some (NextIteration w') ->
     exists mismatches out,
       processAndPrintResults o e
         (inference e (inputImageBatchFilenames w))
         (inputImageBatchFilenames w) = Some (mismatches, out) /\
       numErrors w' = (numErrors w + mismatches)%Z) /\
  (forall SMT imageList mismatches out,
     expectedMatchingLabels o <> [] ->
     processAndPrintResults o e SMT imageList = Some (mismatches, out) ->
     exists checks : list (Z * Output),
       length checks = length imageList /\
       (forall i fileName,
          nth_error imageList i = Some fileName ->
          exists slice topKPairs expected,
            nth_error SMT i = Some slice /\
            getTopKPairs (topKCount o)
              (if computeSoftmax o then applySoftmax e slice else slice)
            = Some topKPairs /\
            nth_error (expectedMatchingLabels o) i = Some expected /\
            nth_error checks i
            = Some (checkExpectedLabel (labelOffset o) topKPairs fileName
                      expected)) /\
       mismatches = fold_right Z.add 0%Z (map fst checks) /\
       (forall c, In c checks -> incl (snd c) out)) /\
  (forall streamMode startIndex endIndex w',
     processImageRange o e streamMode startIndex endIndex = Some w' ->
     exists counts : list Z,
       Forall2 (fun batch mismatches =>
                  exists out,
                    processAndPrintResults o e (inference e batch) batch
                    = Some (mismatches, out))
         (inferenceBatches w') counts /\
       numErrors w' = fold_right Z.add 0%Z counts) /\
  (forall (o0 : Options) (status : Z) (events : list Event)
          (workers : list Worker),
     o = loadedOptions o0 e ->
     expectedMatchingLabels o = [] \/
     length (expectedMatchingLabels o) = length (inputImageFilenames o) ->
     main o0 e = Returned status events workers ->
     status = fold_right Z.add 0%Z (map numErrors workers)).
Proof.
  split; [|split; [|split; [|split; [|split]]]].
  - intros topKPairs fileName expected. unfold checkExpectedLabel.
    rewrite <- findMatchingLabel_spec.
    assert (Hfile : In (Str fileName)
                      (mismatchDiagnostic topKPairs fileName expected))
      by (simpl; tauto).
    assert (Hindex : In (Num expected)
                       (mismatchDiagnostic topKPairs fileName expected))
      by (simpl; tauto).
    destruct (findMatchingLabel (labelOffset o) topKPairs expected); simpl.
    + split; [tauto|]. split; [now left|]. now split.
    + split; [split; discriminate|]. split; [now right|]. now split.
  - intros SMT i fileName retVal retVal' out Hlabels Hs.
    destruct (@processSample_check _ _ _ _ _ _ _ _ Hlabels Hs)
      as (slice & topKPairs & expected & A & B & C & D & _).
    exists slice, topKPairs, expected. now repeat split.
  - intros w w' Hb.
    destruct (loopBody_NextIteration _ _ _ Hb) as (_ & m & out & Hp & ->).
    exists m, out. split; [exact Hp|reflexivity].
  - intros SMT imageList mismatches out Hlabels.
    unfold processAndPrintResults, processAndPrintResultsImpl.
    destruct (length SMT =? length imageList)%nat; [|discriminate].
    intros Hs.
    destruct (@processSamples_checks _ _ _ _ Hlabels _ _ _ _ Hs)
      as (checks & Hlen & Hnth & Hsum & Hincl).
    exists checks. split; [exact Hlen|]. split; [exact Hnth|].
    split; [lia|exact Hincl].
  - intros streamMode startIndex endIndex w' Hrun.
    apply workerLoop_loopRuns in Hrun.
    destruct (loopRuns_mismatches Hrun (counts0 := []))
      as (counts & Hcounts & Hsum); [constructor|].
    exists counts. split; [exact Hcounts|exact Hsum].
  - intros o0 status events workers -> Hlabels Hmain.
    apply main_loaded in Hmain.
    destruct (@mainLoaded_run _ _ _ _ _ Hlabels Hmain) as (_ & _ & _ & Hs).
    rewrite Hs. apply totalErrors_sum.
Qed.

Lemma checkExpectedLabel_spec_witness :
  fst (checkExpectedLabel 0 [(f0_9, 1)] "cat.png" 1) = 0%Z /\
  (exists slice topKPairs expected,
     nth_error [[f0_1; f0_9; f0_4]] (N.to_nat 0) = Some slice /\
     getTopKPairs 1 slice = Some topKPairs /\
     nth_error [1; 0] (N.to_nat 0) = Some expected /\
     0%Z = (0 + fst (checkExpectedLabel 0 topKPairs "cat.png" expected))%Z) /\
  (exists w',
     loopBody options_two_images_two_labels plain_run
       (startWorker options_two_images_two_labels plain_run false 0)
     = Some (NextIteration w') /\
     exists mismatches out,
       processAndPrintResults options_two_images_two_labels plain_run
         (inference plain_run
            (inputImageBatchFilenames
               (startWorker options_two_images_two_labels plain_run false 0)))
         (inputImageBatchFilenames
            (startWorker options_two_images_two_labels plain_run false 0))
       = Some (mismatches, out) /\
       numErrors w'
       = (numErrors
            (startWorker options_two_images_two_labels plain_run false 0)
          + mismatches)%Z) /\
  (exists status events workers,
     main options_two_images_two_labels plain_run
     = Returned status events workers /\
     status = fold_right Z.add 0%Z (map numErrors workers) /\
     status = 1%Z).
Proof.
  pose proof (checkExpectedLabel_spec options_two_images_two_labels plain_run)
    as (Hcheck & Hsample & Hbody & _ & _ & Hmain).
  split; [|split; [|split]].
  - apply (proj1 (Hcheck [(f0_9, 1)] "cat.png"%string 1)).
    exists (f0_9, 1). split; [now left|reflexivity].
  - apply (Hsample [[f0_1; f0_9; f0_4]] 0 "cat.png"%string 0%Z 0%Z
             ([Str " File: "; Str "cat.png"]
              ++ printTopKPairs 0 [(f0_9, 1)])).
    + discriminate.
    + reflexivity.
  - eexists. split; [vm_compute; reflexivity|].
    apply (Hbody (startWorker options_two_images_two_labels plain_run false 0)).
    vm_compute. reflexivity.
  - destruct (main options_two_images_two_labels plain_run)
      as [status events workers|status events|message| |] eqn:Hm;
      try (vm_compute in Hm; discriminate).
    exists status, events, workers. split; [reflexivity|].
    split.
    + apply (Hmain options_two_images_two_labels status events workers
               eq_refl (or_intror eq_refl) Hm).
    + vm_compute in Hm. now injection Hm as <- _ _.
Defined.

(** ** The check of the number of expected labels *)




(** ** Workers without a minibatch *)

(** X12.  In a minibatch run on more than one batch per thread the
    trailing threads can be left without work: the range of thread [i] holds
    an image exactly when [i * miniBatchesPerThread] is less than the
    number of batches.  The first thread always has work. *)
Theorem threadRanges_idle (o : Options) (e : Environment) :
  0 < miniBatch o ->
  numImages o mod miniBatch o = 0 ->
  miniBatch o <= numImages o ->
  1 <= miniBatchThreads o ->
  numImages o < 2 ^ 63 ->
  forall ranges i r,
    threadRanges o e = Some ranges ->
    nth_error ranges i = Some r ->
    (fst r < snd r <->
     N.of_nat i * ((numBatches o + numThreads o e - 1) / numThreads o e)
     < numBatches o) /\
    (i = 0%nat -> fst r < snd r).
Proof.
  intros Hmb Hmul Hbatch Hthreads Hsize ranges i r Hr Hi.
  destruct (threadRanges_nth o e Hmb Hmul Hbatch Hthreads Hsize i Hr Hi)
    as [_ ->].
  pose proof (slice_nonempty o e Hmb Hmul Hbatch Hthreads Hsize (N.of_nat i))
    as Hiff.
  split; [exact Hiff|].
  intros ->. apply Hiff.
  destruct (numBatches_exact o e Hmb Hmul Hbatch Hthreads Hsize) as [_ Hnb].
  cbn [N.of_nat]. lia.
Qed.

Lemma threadRanges_idle_witness :
  ~ (fst (6, 5) < snd (6, 5)).
Proof.
  intros C.
  apply (proj1 (@threadRanges_idle options_5_images_4_threads plain_run
                  ltac:(reflexivity) ltac:(reflexivity)
                  ltac:(vm_compute; discriminate)
                  ltac:(vm_compute; discriminate) ltac:(reflexivity)
                  [(0, 2); (2, 4); (4, 5); (6, 5)] 3%nat (6, 5)
                  ltac:(reflexivity) ltac:(reflexivity))) in C.
  vm_compute in C. discriminate.
Defined.

(** ** When the results of a batch can be printed *)

Lemma processSample_Some_iff (o : Options) (e : Environment)
  (SMT : list (list float)) (i : N) (fileName : string) (retVal : Z) :
  (exists res, processSample o e SMT i fileName retVal = Some res) <->
  exists row,
    nth_error SMT (N.to_nat i) = Some row /\ rowOK o e row /\
    (expectedMatchingLabels o = [] \/
     (N.to_nat i < length (expectedMatchingLabels o))%nat).
Proof.
  unfold processSample, rowOK, scores.
  destruct (nth_error SMT (N.to_nat i)) as [row|];
    [|split; [intros [res C]|intros (row & C & _)]; discriminate].
  set (SH := if computeSoftmax o then applySoftmax e row else row).
  pose proof (getTopKPairs_Some_iff (topKCount o) SH) as Htop.
  destruct (getTopKPairs (topKCount o) SH) as [topKPairs|].
  - assert (Hrow : nan_free SH /\
                   topKCount o <= N.of_nat (length SH) /\
                   (1 <= topKCount o \/ SH = []))
      by (apply Htop; now exists topKPairs).
    destruct (expectedMatchingLabels o) as [|l ls] eqn:El.
    + split.
      * intros _. exists row. split; [reflexivity|].
        split; [exact Hrow|now left].
      * intros _. eexists. reflexivity.
    + destruct (nth_error (l :: ls) (N.to_nat i)) as [expected|] eqn:Hexp.
      * assert (Hlt : (N.to_nat i < length (l :: ls))%nat)
          by (apply nth_error_Some; congruence).
        split.
        -- intros _. exists row. split; [reflexivity|].
           split; [exact Hrow|now right].
        -- intros _. destruct (checkExpectedLabel _ _ _ _). eexists.
           reflexivity.
      * apply nth_error_None in Hexp. split.
        -- intros [res C]. discriminate.
        -- intros (row' & _ & _ & [C|C]); [discriminate|lia].
  - split; [intros [res C]; discriminate|].
    intros (row' & E & Hrow & _). injection E as <-.
    apply Htop in Hrow. destruct Hrow as [res C]. discriminate.
Qed.

Lemma processSamples_Some_iff (o : Options) (e : Environment)
  (SMT : list (list float)) (imageList : list string) :
  forall (i : N) (retVal : Z),
    (exists res, processSamples o e SMT i imageList retVal = Some res) <->
    forall k, (k < length imageList)%nat ->
      exists row,
        nth_error SMT (N.to_nat i + k) = Some row /\ rowOK o e row /\
        (expectedMatchingLabels o = [] \/
         (N.to_nat i + k < length (expectedMatchingLabels o))%nat).
Proof.
  induction imageList as [|fileName rest IH]; intros i retVal.
  - split; [intros _ k Hk; simpl in Hk; lia|].
    intros _. eexists. reflexivity.
  - cbn [processSamples length]. split.
    + intros [res Hres] k Hk.
      destruct (processSample o e SMT i fileName retVal) as [[r1 out1]|] eqn:H1;
        [|discriminate].
      destruct (processSamples o e SMT (N.succ i) rest r1) as [res2|] eqn:H2;
        [|discriminate].
      destruct k as [|k].
      * rewrite Nat.add_0_r.
        apply (proj1 (processSample_Some_iff o e SMT i fileName retVal)).
        eexists. exact H1.
      * replace (N.to_nat i + S k)%nat with (N.to_nat (N.succ i) + k)%nat
          by lia.
        apply (proj1 (IH (N.succ i) r1)); [eexists; exact H2|lia].
    + intros Hall.
      destruct (proj2 (processSample_Some_iff o e SMT i fileName retVal))
        as [[r1 out1] H1].
      { specialize (Hall 0%nat ltac:(lia)). now rewrite Nat.add_0_r in Hall. }
      rewrite H1.
      destruct (proj2 (IH (N.succ i) r1)) as [[r2 out2] H2].
      { intros k Hk. specialize (Hall (S k) ltac:(lia)).
        replace (N.to_nat (N.succ i) + k)%nat with (N.to_nat i + S k)%nat
          by lia.
        exact Hall. }
      rewrite H2. eexists. reflexivity.
Qed.

Lemma results_Some_iff (o : Options) (e : Environment)
  (SMT : list (list float)) (imageList : list string) :
  (exists res, processAndPrintResults o e SMT imageList = Some res) <->
  length SMT = length imageList /\ Forall (rowOK o e) SMT /\
  batchOK o imageList.
Proof.
  unfold processAndPrintResults, processAndPrintResultsImpl, batchOK.
  destruct (length SMT =? length imageList)%nat eqn:Hlen.
  - apply Nat.eqb_eq in Hlen. rewrite processSamples_Some_iff.
    cbn [N.to_nat Nat.add]. split.
    + intros Hall. split; [exact Hlen|]. split.
      * apply Forall_forall. intros row Hin.
        apply In_nth_error in Hin. destruct Hin as [k Hk].
        assert (Hlt : (k < length SMT)%nat)
          by (apply nth_error_Some; congruence).
        destruct (Hall k ltac:(lia)) as (row' & E & Hrow & _). congruence.
      * destruct (expectedMatchingLabels o) as [|l ls] eqn:El; [now left|].
        right. destruct imageList as [|f fs]; [simpl; lia|].
        destruct (Nat.le_gt_cases (length (f :: fs)) (length (l :: ls)))
          as [Hle|Hgt]; [exact Hle|].
        destruct (Hall (length (l :: ls)) Hgt) as (_ & _ & _ & [C|C]);
          [discriminate|lia].
    + intros (_ & Hrows & Hlabels) k Hk.
      destruct (nth_error SMT k) as [row|] eqn:Hrow.
      * exists row. split; [reflexivity|]. split.
        -- rewrite Forall_forall in Hrows. apply Hrows.
           eapply nth_error_In. exact Hrow.
        -- destruct Hlabels as [Hl|Hl]; [now left|right; lia].
      * apply nth_error_None in Hrow. lia.
  - apply Nat.eqb_neq in Hlen. split; [intros [res C]; discriminate|].
    intros (C & _). contradiction.
Qed.



(** ** A worker runs to its end *)

Lemma batchOK_nil (o : Options) : batchOK o [].
Proof. right. simpl. lia. Qed.

Section Completion.

Variable o : Options.
Variable e : Environment.
Variable endIndex : N.

Hypothesis Hshape : wellShaped o e.
Hypothesis Huniform : uniformShapes e.
Hypothesis Hlimit : 0 < miniBatch o -> endIndex <= numImages o.
Hypothesis Hlabels :
  0 < miniBatch o ->
  expectedMatchingLabels o = [] \/
  miniBatch o <= N.of_nat (length (expectedMatchingLabels o)).
Hypothesis Hfit : numImages o + miniBatch o < modulus.

Lemma condition_preserves (w : Worker) :
  workerOK o e endIndex w ->
  exists b w1,
    loopCondition o false endIndex w = Some (b, w1) /\
    workerReady o e endIndex w1.
Proof.
  intros (Hbatch & Hmod & Hph).
  destruct (N.eq_dec (miniBatch o) 0) as [Hmb|Hmb].
  - exists (isFirstRun w), w. split.
    + unfold loopCondition. rewrite Hmb. reflexivity.
    + split; [exact Hbatch|]. split; [exact Hmod|].
      split; [intros Hf; apply (Hph Hf)|]. intros C. lia.
  - assert (Hpos : 0 < miniBatch o) by lia.
    specialize (Hmod Hpos). specialize (Hlimit Hpos).
    specialize (Hlabels Hpos).
    assert (Hroom : miniBatchIndex w < endIndex ->
              miniBatchIndex w + miniBatch o <= endIndex /\
              (miniBatchIndex w + miniBatch o < endIndex ->
               (endIndex - (miniBatchIndex w + miniBatch o))
                 mod miniBatch o = 0)).
    { intros Hlt. specialize (Hmod Hlt).
      apply N.Div0.mod_divides in Hmod. destruct Hmod as [c Hc].
      destruct (N.eq_dec c 0) as [->|Hc0]; [lia|]. split; [nia|].
      intros _. apply N.Div0.mod_divides. exists (c - 1). nia. }
    assert (Hdef : exists got l index,
              getNextMiniBatch (inputImageBatchFilenames w)
                (inputImageFilenames o) (miniBatchIndex w) (miniBatch o)
                endIndex = Some (got, l, index)).
    { unfold getNextMiniBatch.
      destruct (endIndex <=? miniBatchIndex w) eqn:Hle;
        [do 3 eexists; reflexivity|].
      apply N.leb_gt in Hle. destruct (Hroom Hle) as [Hin _].
      assert (Hadd : add64 (miniBatchIndex w) (miniBatch o)
                     = miniBatchIndex w + miniBatch o).
      { unfold add64, wrap64. apply N.mod_small. lia. }
      rewrite Hadd. rewrite copyImages_slice; [do 3 eexists; reflexivity|].
      unfold numImages in Hlimit. lia. }
    destruct Hdef as (got & l & index & Hg).
    exists (got || isFirstRun w),
      {| isFirstRun := isFirstRun w;
         miniBatchIndex := index;
         inputImageBatchFilenames := l;
         stdin := stdin w;
         numErrors := numErrors w;
         trace := trace w;
         inputImagePH := inputImagePH w |}.
    split.
    + unfold loopCondition. apply N.ltb_lt in Hpos. rewrite Hpos, Hg.
      reflexivity.
    + apply getNextMiniBatch_cases in Hg; [|exact Hpos|].
      2: { intros Hlt. destruct (Hroom Hlt) as [Hin _]. lia. }
      unfold workerReady.
      cbn [inputImageBatchFilenames isFirstRun miniBatchIndex inputImagePH].
      destruct Hg as [(_ & Hle & -> & ->)|(_ & Hlt & -> & Hin & ->)].
      * split; [exact Hbatch|]. split; [intros _ C; lia|].
        split; [intros Hf; apply (Hph Hf)|]. intros _ C. lia.
      * assert (Hlen : N.of_nat (length
                         (firstn (N.to_nat (miniBatch o))
                            (skipn (N.to_nat (miniBatchIndex w))
                               (inputImageFilenames o))))
                       = miniBatch o).
        { rewrite length_firstn, length_skipn. unfold numImages in Hlimit.
          lia. }
        split; [|split; [|split]].
        -- destruct Hlabels as [Hl|Hl]; [now left|right]. lia.
        -- intros _. apply (Hroom Hlt).
        -- intros Hf. destruct (Hph Hf) as [Hp Hfull]. rewrite Hp.
           f_equal. apply Huniform.
           specialize (Hfull Hpos Hlt). lia.
        -- intros _ _. exact Hlen.
Qed.

Lemma dims_eqb_refl (d : list N) : dims_eqb d d = true.
Proof. now apply dims_eqb_eq. Qed.

Lemma body_preserves (w1 : Worker) :
  workerReady o e endIndex w1 ->
  exists end2,
    loopBody o e w1 = Some end2 /\
    forall w2, end2 = NextIteration w2 -> workerOK o e endIndex w2.
Proof.
  intros (Hbatch & Hmod & Hph & Hfull). unfold loopBody.
  destruct (isFirstRun w1 && emittingBundle e).
  - eexists. split; [reflexivity|]. discriminate.
  - assert (Hplace : (if isFirstRun w1
                      then Some (imageDims e (inputImageBatchFilenames w1))
                      else inputImagePH w1)
                     = Some (imageDims e (inputImageBatchFilenames w1))).
    { destruct (isFirstRun w1); [reflexivity|now apply Hph]. }
    rewrite Hplace. cbn [shapeMatches]. rewrite dims_eqb_refl.
    destruct (Hshape (inputImageBatchFilenames w1)) as [Hlen Hrows].
    destruct (proj2 (results_Some_iff o e
                       (inference e (inputImageBatchFilenames w1))
                       (inputImageBatchFilenames w1)))
      as [[m out] Hres]; [now repeat split|].
    rewrite Hres. eexists. split; [reflexivity|].
    intros w2 E. injection E as <-. unfold workerOK.
    cbn [inputImageBatchFilenames isFirstRun miniBatchIndex inputImagePH].
    split; [exact Hbatch|]. split; [exact Hmod|].
    intros _. split; [reflexivity|exact Hfull].
Qed.

Lemma workerLoop_completes (bound : N) :
  numImages o <= bound -> bound + miniBatch o < modulus ->
  forall (fuel : nat) (w : Worker),
    (loopMeasure o false w < fuel)%nat ->
    miniBatchIndex w <= bound ->
    workerOK o e endIndex w ->
    exists w', workerLoop fuel o e false endIndex w = Some w'.
Proof.
  intros HT Hbound.
  induction fuel as [|fuel IH]; intros w Hfuel Hidx Hok; [lia|].
  cbn [workerLoop].
  destruct (condition_preserves Hok) as (b & w1 & Hc & Hok1). rewrite Hc.
  destruct b; [|eexists; reflexivity].
  destruct (body_preserves Hok1) as (end2 & Hb & Hok2). rewrite Hb.
  destruct end2 as [w2|w2]; [|eexists; reflexivity].
  destruct (@iteration_progress o e false endIndex bound w w1 w2
              HT Hbound Hidx Hc Hb) as [Hm Hi].
  apply IH; [lia|exact Hi|now apply Hok2].
Qed.

End Completion.

(** ** [main] returns *)

Lemma processImageRange_completes (o : Options) (e : Environment)
  (startIndex endIndex : N) :
  wellShaped o e -> uniformShapes e ->
  (0 < miniBatch o ->
   endIndex <= numImages o /\
   (expectedMatchingLabels o = [] \/
    miniBatch o <= N.of_nat (length (expectedMatchingLabels o))) /\
   (startIndex < endIndex ->
    (endIndex - startIndex) mod miniBatch o = 0)) ->
  (miniBatch o = 0 -> batchOK o (inputImageFilenames o)) ->
  N.max startIndex (numImages o) + miniBatch o < modulus ->
  exists w', processImageRange o e false startIndex endIndex = Some w'.
Proof.
  intros Hshape Huniform Hmini Hplain Hfit. unfold processImageRange.
  apply workerLoop_completes with (bound := N.max startIndex (numImages o)).
  - exact Hshape.
  - exact Huniform.
  - intros Hmb. apply (Hmini Hmb).
  - intros Hmb. apply (Hmini Hmb).
  - lia.
  - lia.
  - exact Hfit.
  - unfold loopMeasure, loopBound, numImages. simpl.
    destruct (0 <? miniBatch o); lia.
  - simpl. lia.
  - unfold workerOK. cbn [startWorker inputImageBatchFilenames isFirstRun
                            miniBatchIndex inputImagePH].
    split; [|split; [|discriminate]].
    + unfold initialBatchFilenames, miniBatchMode.
      destruct (0 <? miniBatch o) eqn:Hmb; cbn [negb andb];
        [apply batchOK_nil|].
      apply N.ltb_ge in Hmb. apply Hplain. lia.
    + intros Hmb. apply (Hmini Hmb).
Qed.

Lemma runWorkers_completes (o : Options) (e : Environment)
  (streamMode : bool) (ranges : list (N * N)) :
  Forall (fun r => exists w,
            processImageRange o e streamMode (fst r) (snd r) = Some w)
    ranges ->
  exists workers,
    runWorkers o e streamMode ranges = Some workers /\
    length workers = length ranges.
Proof.
  induction 1 as [|[a b] ranges [w Hw] Hrest (ws & IH & Hlen)].
  - exists []. now split.
  - exists (w :: ws). cbn [fst snd] in Hw. cbn [runWorkers].
    rewrite Hw, IH. split; [reflexivity|]. simpl. now rewrite Hlen.
Qed.

Lemma slice_aligned (mb c T i : N) :
  c mod mb = 0 -> T mod mb = 0 ->
  (snd (slice c T i) - fst (slice c T i)) mod mb = 0.
Proof.
  intros Hc HT. unfold slice. cbn [fst snd].
  destruct (N.min_spec ((i + 1) * c) T) as [[_ ->]|[_ ->]].
  - replace ((i + 1) * c - i * c) with c by lia. exact Hc.
  - destruct (N.le_gt_cases T (i * c)) as [Hle|Hgt].
    + replace (T - i * c) with 0 by lia. apply N.Div0.mod_0_l.
    + apply N.Div0.mod_divides in HT, Hc.
      destruct HT as [t Ht], Hc as [k Hk].
      apply N.Div0.mod_divides. exists (t - i * k). nia.
Qed.

Lemma main_is_mainLoaded (o : Options) (e : Environment) :
  (inputImageListFile o = EmptyString /\ inputImageFilenames o <> []) \/
  (inputImageListFile o <> EmptyString /\ inputImageFilenames o = [] /\
   imageListFileOpens e = true) ->
  main o e = mainLoaded (loadedOptions o e) e.
Proof.
  unfold main, loadedOptions, parseInputImageList.
  intros [[Hf Hn]|(Hf & Hn & Hopen)].
  - rewrite Hf. cbn [String.eqb andb negb].
    destruct (inputImageFilenames o); [contradiction|reflexivity].
  - apply String.eqb_neq in Hf. rewrite Hf, Hn, Hopen. reflexivity.
Qed.

Lemma mainLoaded_returns (o : Options) (e : Environment) :
  expectedMatchingLabels o = [] \/
  length (expectedMatchingLabels o) = length (inputImageFilenames o) ->
  streamInputFilenamesMode (inputImageFilenames o) = false ->
  (0 < miniBatch o -> numImages o mod miniBatch o = 0) ->
  numThreads o e <> 0 ->
  numImages o < 2 ^ 63 -> miniBatch o < 2 ^ 32 ->
  wellShaped o e -> uniformShapes e ->
  exists status events workers,
    mainLoaded o e = Returned status events workers /\
    N.of_nat (length workers) = numThreads o e /\
    status = totalErrors workers.
Proof.
  intros Hlabels Hstream Hmul Hnt Hsize Hmb32 Hshape Huniform.
  assert (Hworker : forall a b,
            b <= numImages o ->
            (0 < miniBatch o -> a < b -> (b - a) mod miniBatch o = 0) ->
            a + miniBatch o < modulus ->
            exists w, processImageRange o e false a b = Some w).
  { intros a b Hb Hmod Ha. apply processImageRange_completes.
    - exact Hshape.
    - exact Huniform.
    - intros Hmb. split; [exact Hb|]. split; [|now apply Hmod].
      destruct (expectedMatchingLabels o) as [|l ls] eqn:El; [now left|].
      right. destruct Hlabels as [C|Hlen]; [discriminate|].
      specialize (Hmul Hmb). apply N.Div0.mod_divides in Hmul.
      destruct Hmul as [c Hc]. unfold numImages in Hc.
      rewrite <- Hlen in Hc. simpl length in *.
      destruct (N.eq_dec c 0) as [->|Hc0]; [lia|nia].
    - intros _. destruct Hlabels as [Hl|Hl]; [now left|right; lia].
    - unfold modulus in *. lia. }
  assert (Hranges : exists ranges,
            threadRanges o e = Some ranges /\
            Forall (fun r => exists w,
                      processImageRange o e false (fst r) (snd r) = Some w)
              ranges).
  { destruct (N.eq_dec (numThreads o e) 1) as [Hone|Hmany].
    - exists [(0, numImages o)]. split; [now apply threadRanges_single|].
      constructor; [|constructor]. cbn [fst snd]. apply Hworker.
      + lia.
      + intros Hmb _. rewrite N.sub_0_r. now apply Hmul.
      + unfold modulus. lia.
    - assert (Hcfg : 0 < miniBatch o /\ 1 <= miniBatchThreads o /\
                     miniBatch o <= numImages o).
      { unfold numThreads in Hmany, Hnt.
        destruct (multiThreadingAllowed o e) eqn:Hallowed; [|contradiction].
        unfold multiThreadingAllowed in Hallowed.
        destruct (miniBatchMode o) eqn:Hmode; [|discriminate].
        unfold numBatches in Hmany, Hnt. rewrite Hmode in Hmany, Hnt.
        apply N.ltb_lt in Hmode. split; [exact Hmode|].
        remember (numImages o / miniBatch o) as q eqn:Hq.
        split; [lia|].
        destruct (N.lt_ge_cases (numImages o) (miniBatch o)) as [Hlt|Hge];
          [|exact Hge].
        rewrite (N.div_small _ _ Hlt) in Hq. lia. }
      destruct Hcfg as (Hmb & Hthreads & Hbatch). specialize (Hmul Hmb).
      eexists. split;
        [apply (threadRanges_slices o e Hmb Hmul Hbatch Hthreads Hsize)|].
      destruct (numBatches_exact o e Hmb Hmul Hbatch Hthreads Hsize)
        as [HT Hnb].
      destruct (numThreads_bounds o e Hmb Hmul Hbatch Hthreads Hsize)
        as [Hnt1 Hnt2].
      destruct (per_bounds o e Hmb Hmul Hbatch Hthreads Hsize)
        as (Hp1 & Hp2 & Hp3).
      set (per := (numBatches o + numThreads o e - 1) / numThreads o e) in *.
      set (nt := numThreads o e) in *. set (nb := numBatches o) in *.
      apply Forall_forall. intros r Hin. apply in_map_iff in Hin.
      destruct Hin as (i & <- & Hi). apply in_seq in Hi.
      apply Hworker.
      + unfold slice. cbn [snd]. lia.
      + intros _ _. apply slice_aligned; [apply N.Div0.mod_mul|exact Hmul].
      + unfold slice. cbn [fst].
        assert (Hip : N.of_nat i * per + per <= nt * per) by nia.
        assert (Hub : N.of_nat i * per + 2 <= 2 * nb) by lia.
        assert (Hm : N.of_nat i * (per * miniBatch o) + 2 * miniBatch o
                     <= 2 * numImages o) by nia.
        unfold modulus. lia. }
  destruct Hranges as (ranges & Hr & Hall).
  destruct (@runWorkers_completes o e false ranges Hall)
    as (workers & Hws & Hlen).
  unfold mainLoaded. rewrite Hstream.
  destruct (_ && negb (length (expectedMatchingLabels o) =? _)%nat) eqn:Hg.
  { exfalso. destruct Hlabels as [Hl|Hl].
    - rewrite Hl in Hg. discriminate.
    - rewrite Hl, Nat.eqb_refl, andb_false_r in Hg. discriminate. }
  cbn [andb]. rewrite andb_false_r.
  destruct (miniBatchMode o && negb (numImages o mod miniBatch o =? 0))
    eqn:Hmm.
  { exfalso. apply andb_true_iff in Hmm. destruct Hmm as [Hm Hn].
    apply N.ltb_lt in Hm. apply negb_true_iff, N.eqb_neq in Hn.
    apply Hn, Hmul, Hm. }
  rewrite Hr, Hws. do 3 eexists. split; [reflexivity|].
  split; [|reflexivity].
  rewrite Hlen. now apply threadRanges_length.
Qed.

(** X14.  Outside stream mode [main] returns, with one worker per thread
    run to its end and the sum of their counts of mismatches as its
    status, when: the images are given on the command line, or in a list
    file that can be opened, and not in both; the expected labels are
    none or as many as the images; the number of images is a multiple of
    the minibatch size; there is at least one thread; the sizes fit their
    types; all images have one shape, so that the tensors of two batches
    of the same number of images have the same dimensions; and every
    batch gets one row of scores per image, each without a NaN and with
    room for [topKCount] pairs.  [o'] is [o] with the filenames of the
    list file.  The calls that leave the driver (loading the images,
    building the model, running it) are taken to return. *)
Theorem main_returns (o o' : Options) (e : Environment) :
  o' = loadedOptions o e ->
  (inputImageListFile o = EmptyString /\ inputImageFilenames o <> []) \/
  (inputImageListFile o <> EmptyString /\ inputImageFilenames o = [] /\
   imageListFileOpens e = true) ->
  expectedMatchingLabels o' = [] \/
  length (expectedMatchingLabels o') = length (inputImageFilenames o') ->
  streamInputFilenamesMode (inputImageFilenames o') = false ->
  (0 < miniBatch o' -> numImages o' mod miniBatch o' = 0) ->
  numThreads o' e <> 0 ->
  numImages o' < 2 ^ 63 -> miniBatch o' < 2 ^ 32 ->
  wellShaped o' e -> uniformShapes e ->
  exists status events workers,
    main o e = Returned status events workers /\
    N.of_nat (length workers) = numThreads o' e /\
    status = totalErrors workers.
Proof.
  intros -> Hsource Hlabels Hstream Hmul Hnt Hsize Hmb32 Hshape Huniform.
  rewrite (@main_is_mainLoaded o e Hsource).
  apply mainLoaded_returns; assumption.
Qed.

Lemma main_returns_witness :
  exists status events workers,
    main options_4_images_2_threads plain_run
    = Returned status events workers /\
    N.of_nat (length workers) = 2 /\
    status = totalErrors workers.
Proof.
  apply (@main_returns options_4_images_2_threads
           options_4_images_2_threads plain_run).
  - reflexivity.
  - left. split; [reflexivity|discriminate].
  - now left.
  - reflexivity.
  - reflexivity.
  - vm_compute. discriminate.
  - reflexivity.
  - reflexivity.
  - intros batch. split.
    + apply length_map.
    + apply Forall_forall. intros row Hin. apply in_map_iff in Hin.
      destruct Hin as (f & <- & _).
      split; [apply nan_freeb_spec; reflexivity|].
      split; [vm_compute; discriminate|].
      left. vm_compute. discriminate.
  - intros b b' Hlen. cbn [plain_run imageDims]. now rewrite Hlen.
Defined.

(** ** When [main] touches the model *)

Lemma loadedOptions_fields (o : Options) (e : Environment) :
  miniBatch (loadedOptions o e) = miniBatch o /\
  miniBatchThreads (loadedOptions o e) = miniBatchThreads o /\
  expectedMatchingLabels (loadedOptions o e) = expectedMatchingLabels o.
Proof. unfold loadedOptions. now destruct (String.eqb _ _). Qed.



Lemma main_input_source (o : Options) (e : Environment) (status : Z)
  (events : list Event) (workers : list Worker) :
  main o e = Returned status events workers ->
  (inputImageListFile o = EmptyString /\ inputImageFilenames o <> []) \/
  (inputImageListFile o <> EmptyString /\ inputImageFilenames o = []).
Proof.
  unfold main.
  destruct (String.eqb (inputImageListFile o) "") eqn:Ef; simpl.
  - apply String.eqb_eq in Ef.
    destruct (inputImageFilenames o) as [|f l]; simpl; [discriminate|].
    intros _. left. split; [exact Ef|discriminate].
  - apply String.eqb_neq in Ef.
    destruct (inputImageFilenames o) as [|f l]; simpl; [|discriminate].
    intros _. right. now split.
Qed.

Lemma main_list_file_opened (o : Options) (e : Environment) (status : Z)
  (events : list Event) (workers : list Worker) :
  main o e = Returned status events workers ->
  inputImageListFile o <> EmptyString -> imageListFileOpens e = true.
Proof.
  unfold main, parseInputImageList. intros Hmain Hf.
  apply String.eqb_neq in Hf. rewrite Hf in Hmain. simpl in Hmain.
  destruct (length (inputImageFilenames o) =? 0)%nat; [|discriminate].
  destruct (imageListFileOpens e); [reflexivity|discriminate].
Qed.



(** ** The label offset and the position of a label *)

Lemma sub64_eq (index offset expected : N) :
  in_range index -> offset < 2 ^ 32 -> expected < 2 ^ 32 ->
  sub64 index offset = expected <-> index = expected + offset.
Proof.
  unfold in_range, sub64, wrap64, modulus. intros Hi Ho He.
  rewrite (N.mod_small offset) by lia.
  destruct (N.le_gt_cases offset index) as [Hle|Hgt].
  - replace (index + (2 ^ 64 - offset))
      with ((index - offset) + 1 * 2 ^ 64) by lia.
    rewrite N.Div0.mod_add, N.mod_small by lia. lia.
  - rewrite N.mod_small by lia. lia.
Qed.

(** X16.  With a label offset and an expected label that fit [unsigned]
    (32 bits), the wrap-around of [p.second - labelOffset] never makes a
    match: [checkExpectedLabel] returns 0 exactly when the index of some
    pair is the expected label plus the offset. *)
Theorem checkExpectedLabel_offset (labelOffset : N)
  (topKPairs : list FloatIndexPair) (fileName : string) (expected : N) :
  labelOffset < 2 ^ 32 -> expected < 2 ^ 32 ->
  Forall (fun p => in_range (snd p)) topKPairs ->
  fst (checkExpectedLabel labelOffset topKPairs fileName expected) = 0%Z <->
  exists p, In p topKPairs /\ snd p = expected + labelOffset.
Proof.
  intros Ho He Hall. rewrite Forall_forall in Hall.
  assert (Hfind : findMatchingLabel labelOffset topKPairs expected = true <->
                  exists p, In p topKPairs /\ snd p = expected + labelOffset).
  { rewrite findMatchingLabel_spec. split; intros (p & Hin & Hp);
      exists p; (split; [exact Hin|]);
      apply (sub64_eq (Hall p Hin) Ho He); exact Hp. }
  rewrite <- Hfind. unfold checkExpectedLabel.
  destruct (findMatchingLabel labelOffset topKPairs expected); simpl.
  - tauto.
  - split; discriminate.
Qed.

Lemma checkExpectedLabel_offset_witness :
  fst (checkExpectedLabel 1 [(f0_9, 3); (f0_4, 0)] "cat.png" 2) = 0%Z /\
  fst (checkExpectedLabel 1 [(f0_9, 3); (f0_4, 0)] "cat.png" 4294967295)
  <> 0%Z.
Proof.
  split.
  - apply (proj2 (@checkExpectedLabel_offset 1 [(f0_9, 3); (f0_4, 0)]
                    "cat.png" 2 ltac:(reflexivity) ltac:(reflexivity)
                    ltac:(repeat constructor))).
    exists (f0_9, 3). split; [now left|reflexivity].
  - intros C.
    apply (proj1 (@checkExpectedLabel_offset 1 [(f0_9, 3); (f0_4, 0)]
                    "cat.png" 4294967295 ltac:(reflexivity)
                    ltac:(reflexivity) ltac:(repeat constructor))) in C.
    destruct C as (p & [<-|[<-|[]]] & Hp); discriminate.
Defined.

Lemma processSamples_labels (o : Options) (e : Environment)
  (SMT : list (list float)) (labels labels' : list N)
  (imageList : list string) :
  labels <> [] -> labels' <> [] ->
  forall (i : N) (retVal : Z),
    (forall k, (k < length imageList)%nat ->
       nth_error labels (N.to_nat i + k) = nth_error labels' (N.to_nat i + k)) ->
    processSamples (withExpectedLabels o labels) e SMT i imageList retVal
    = processSamples (withExpectedLabels o labels') e SMT i imageList retVal.
Proof.
  intros Hl Hl'.
  induction imageList as [|fileName rest IH]; intros i retVal Hsame;
    [reflexivity|].
  cbn [processSamples].
  assert (Hone : processSample (withExpectedLabels o labels) e SMT i fileName
                   retVal
                 = processSample (withExpectedLabels o labels') e SMT i
                     fileName retVal).
  { unfold processSample. cbn [withExpectedLabels computeSoftmax topKCount
                               labelOffset expectedMatchingLabels].
    specialize (Hsame 0%nat ltac:(simpl; lia)).
    rewrite Nat.add_0_r in Hsame. rewrite Hsame.
    destruct labels; [contradiction|]. destruct labels'; [contradiction|].
    reflexivity. }
  rewrite Hone.
  destruct (processSample (withExpectedLabels o labels') e SMT i fileName
              retVal) as [[r out]|]; [|reflexivity].
  rewrite (IH (N.succ i) r); [reflexivity|].
  intros k Hk. specialize (Hsame (S k) ltac:(simpl; lia)).
  rewrite Nnat.N2Nat.inj_succ.
  replace (S (N.to_nat i) + k)%nat with (N.to_nat i + S k)%nat by lia.
  exact Hsame.
Qed.

(** X17.  The image at position [i] of a batch is compared with the
    expected label at position [i] of the command line, whichever batch
    it is: the labels from the size of the batch on are not read, and two
    lists of labels that agree on that prefix give the same count of
    mismatches and the same output. *)
Theorem processAndPrintResults_labels_by_position (o : Options)
  (e : Environment) (SMT : list (list float)) (imageList : list string)
  (labels labels' : list N) :
  labels <> [] -> labels' <> [] ->
  (forall i, (i < length imageList)%nat ->
     nth_error labels i = nth_error labels' i) ->
  processAndPrintResults (withExpectedLabels o labels) e SMT imageList
  = processAndPrintResults (withExpectedLabels o labels') e SMT imageList.
Proof.
  intros Hl Hl' Hsame.
  unfold processAndPrintResults, processAndPrintResultsImpl.
  destruct (length SMT =? length imageList)%nat; [|reflexivity].
  apply processSamples_labels; assumption.
Qed.

Lemma processAndPrintResults_labels_by_position_witness :
  processAndPrintResults (withExpectedLabels options_4_images_minibatch_2 [1; 0; 2; 2]) plain_run
    (inference plain_run ["c"; "d"]%string) ["c"; "d"]%string
  = processAndPrintResults (withExpectedLabels options_4_images_minibatch_2 [1; 0]) plain_run
      (inference plain_run ["c"; "d"]%string) ["c"; "d"]%string.
Proof.
  apply (@processAndPrintResults_labels_by_position options_4_images_minibatch_2 plain_run).
  - discriminate.
  - discriminate.
  - intros [|[|i]] Hi; [reflexivity|reflexivity|simpl in Hi; lia].
Defined.

(** ** The line printed with the default [topk] *)

(** X18.  With [topk = 1], the default, and no expected labels, what is
    printed for an image is its filename and one line [Label-K1] that
    names the first index of the greatest score, less the label offset,
    with that score; the count of mismatches is left as it was. *)
Theorem processSample_top1 (o : Options) (e : Environment)
  (SMT : list (list float)) (i : N) (fileName : string) (retVal : Z)
  (row : list float) :
  topKCount o = 1 -> expectedMatchingLabels o = [] ->
  nth_error SMT (N.to_nat i) = Some row ->
  nan_free (scores o e row) -> scores o e row <> [] ->
  exists s j,
    entry (scores o e row) j s /\
    (forall i' s', entry (scores o e row) i' s' ->
       flt s s' = false /\ (feq s s' = true -> j <= i')) /\
    processSample o e SMT i fileName retVal
    = Some (retVal,
            [Str " File: "; Str fileName]
            ++ printTopKPair (labelOffset o) 0 (s, j)).
Proof.
  intros HK Hl Hrow NF Hne.
  assert (HL : 1 <= N.of_nat (length (scores o e row))).
  { destruct (scores o e row); [contradiction|simpl; lia]. }
  destruct (@getTopKPairs_queue 1 (scores o e row) NF ltac:(lia) HL)
    as (q & I & Hsz & Htop).
  destruct q as [|[s j] [|p q]]; unfold pq_size in Hsz; simpl in Hsz; try lia.
  simpl in Htop. destruct (Inv_single I) as [Hentry Hmax].
  exists s, j. split; [exact Hentry|]. split; [exact Hmax|].
  unfold processSample. rewrite Hrow, HK. fold (scores o e row).
  rewrite Htop, Hl. unfold printTopKPairs. cbn [printTopKPairsFrom].
  now rewrite app_nil_r.
Qed.

Lemma processSample_top1_witness :
  exists s j,
    processSample options_4_images_minibatch_2 plain_run
      [[f0_1; f0_9; f0_4]] 0 "a" 0
    = Some (0%Z, [Str " File: "; Str "a"] ++ printTopKPair 0 0 (s, j)).
Proof.
  destruct (@processSample_top1 options_4_images_minibatch_2 plain_run
              [[f0_1; f0_9; f0_4]] 0 "a" 0%Z [f0_1; f0_9; f0_4])
    as (s & j & _ & _ & Hp).
  - reflexivity.
  - reflexivity.
  - reflexivity.
  - apply nan_freeb_spec. reflexivity.
  - discriminate.
  - exists s, j. exact Hp.
Defined.

(** ** Every image of a minibatch run is classified once *)

Lemma slices_cover (o : Options) (e : Environment) (c : N) (n : nat) :
  0 < miniBatch o -> emittingBundle e = false ->
  c mod miniBatch o = 0 -> numImages o mod miniBatch o = 0 ->
  numImages o + miniBatch o < modulus ->
  forall workers : list Worker,
    Forall2 (fun r w =>
               processImageRange o e false (fst r) (snd r) = Some w)
      (map (fun i => slice c (numImages o) (N.of_nat i)) (seq 0 n)) workers ->
    concat (map (fun w => concat (inferenceBatches w)) workers)
    = firstn (N.to_nat (N.min (N.of_nat n * c) (numImages o)))
        (inputImageFilenames o).
Proof.
  intros Hmb He Hc HT Hfit.
  induction n as [|n IH]; intros workers Hall.
  - simpl in Hall. inversion Hall.
    replace (N.min (N.of_nat 0 * c) (numImages o)) with 0 by lia.
    reflexivity.
  - rewrite seq_S, map_app in Hall. cbn [map Nat.add] in Hall.
    apply Forall2_app_inv_l in Hall.
    destruct Hall as (ws & wl & Hws & Hwl & ->).
    inversion Hwl as [|r w rs wl' Hw Hnil]; subst. inversion Hnil; subst.
    rewrite map_app, concat_app, (IH _ Hws). cbn [map concat].
    rewrite app_nil_r.
    unfold slice in Hw. cbn [fst snd] in Hw.
    set (T := numImages o) in *. set (a := N.of_nat n * c) in *.
    replace (N.of_nat (S n) * c) with (a + c) by (subst a; lia).
    replace ((N.of_nat n + 1) * c) with (a + c) in Hw by (subst a; lia).
    assert (Ha : a mod miniBatch o = 0).
    { subst a. apply N.Div0.mod_divides in Hc. destruct Hc as [k ->].
      apply N.Div0.mod_divides. exists (N.of_nat n * k). lia. }
    clearbody a.
    assert (Hmod : (N.min (a + c) T - a) mod miniBatch o = 0).
    { destruct (N.min_spec (a + c) T) as [[_ ->]|[_ ->]].
      - now replace (a + c - a) with c by lia.
      - destruct (N.le_gt_cases T a) as [Hle|Hgt].
        + replace (T - a) with 0 by lia. apply N.Div0.mod_0_l.
        + apply N.Div0.mod_divides in HT, Ha.
          destruct HT as [t Ht], Ha as [k Hk].
          apply N.Div0.mod_divides. exists (t - k). nia. }
    apply workerLoop_loopRuns in Hw.
    apply worker_minibatches in Hw; [|assumption|assumption|exact Hmod|lia].
    destruct Hw as [Hw _]. rewrite Hw. clear Hw.
    destruct (N.le_gt_cases a T) as [Hle|Hgt].
    + rewrite (N.min_l a T) by exact Hle.
      pose proof (firstn_skipn_next (N.to_nat a)
                    (N.to_nat (N.min (a + c) T - a)) 0
                    (inputImageFilenames o)) as E.
      cbn [skipn Nat.add] in E. rewrite E. f_equal. lia.
    + replace (N.min (a + c) T - a) with 0 by lia.
      cbn [N.to_nat firstn]. rewrite app_nil_r. f_equal. lia.
Qed.

Lemma ranges_cover (o' : Options) (e : Environment)
  (ranges : list (N * N)) (workers : list Worker) :
  threadRanges o' e = Some ranges ->
  Forall2 (fun r w => processImageRange o' e false (fst r) (snd r) = Some w)
    ranges workers ->
  miniBatchMode o' && negb (numImages o' mod miniBatch o' =? 0) = false ->
  emittingBundle e = false ->
  miniBatch o' < 2 ^ 32 -> numImages o' < 2 ^ 63 ->
  concat (map (fun w => concat (inferenceBatches w)) workers)
  = inputImageFilenames o'.
Proof.
  intros Hr Hws Hmm He Hmb32 Hsize.
  destruct (N.eq_dec (miniBatch o') 0) as [Hzero|Hpos].
  - assert (Hone : numThreads o' e = 1).
    { unfold numThreads, multiThreadingAllowed, miniBatchMode.
      now rewrite Hzero. }
    rewrite (threadRanges_single _ _ Hone) in Hr. injection Hr as <-.
    inversion Hws as [|r w rs ws Hw Hnil]; subst. inversion Hnil; subst.
    cbn [fst snd] in Hw. cbn [map concat].
    rewrite (@worker_plain _ _ _ _ _ Hzero He Hw). cbn [concat].
    now rewrite !app_nil_r.
  - assert (Hmb : 0 < miniBatch o') by lia.
    assert (Hmode : miniBatchMode o' = true) by now apply N.ltb_lt.
    rewrite Hmode in Hmm. cbn [andb] in Hmm.
    apply negb_false_iff, N.eqb_eq in Hmm.
    assert (Hfit : numImages o' + miniBatch o' < modulus)
      by (unfold modulus; lia).
    assert (Hall : firstn (N.to_nat (numImages o')) (inputImageFilenames o')
                   = inputImageFilenames o').
    { unfold numImages. rewrite Nnat.Nat2N.id. apply firstn_all. }
    destruct (N.eq_dec (numThreads o' e) 1) as [Hone|Hmany].
    + rewrite (threadRanges_single _ _ Hone) in Hr. injection Hr as <-.
      inversion Hws as [|r w rs ws Hw Hnil]; subst. inversion Hnil; subst.
      cbn [fst snd] in Hw. cbn [map concat]. rewrite app_nil_r.
      apply workerLoop_loopRuns in Hw.
      apply worker_minibatches in Hw;
        [|assumption|assumption|now rewrite N.sub_0_r|assumption].
      destruct Hw as [-> _]. rewrite N.sub_0_r. exact Hall.
    + assert (Hnt : numThreads o' e <> 0).
      { intros C. unfold threadRanges, miniBatchesPerThread in Hr.
        rewrite C in Hr. discriminate. }
      assert (Hcfg : 1 <= miniBatchThreads o' /\
                     miniBatch o' <= numImages o').
      { unfold numThreads in Hmany, Hnt.
        destruct (multiThreadingAllowed o' e); [|contradiction].
        unfold numBatches in Hmany, Hnt. rewrite Hmode in Hmany, Hnt.
        remember (numImages o' / miniBatch o') as q eqn:Hq.
        split; [lia|].
        destruct (N.lt_ge_cases (numImages o') (miniBatch o')) as [Hlt|Hge];
          [|exact Hge].
        rewrite (N.div_small _ _ Hlt) in Hq. lia. }
      destruct Hcfg as [Hthreads Hbatch].
      rewrite (threadRanges_slices o' e Hmb Hmm Hbatch Hthreads Hsize) in Hr.
      injection Hr as <-.
      apply slices_cover in Hws; try assumption.
      * rewrite Hws, Nnat.N2Nat.id.
        destruct (slice_facts o' e Hmb Hmm Hbatch Hthreads Hsize)
          as [_ Hcov].
        rewrite N.min_r by exact Hcov. exact Hall.
      * apply N.Div0.mod_mul.
Qed.

(** X19.  A run that neither streams its input nor emits a bundle
    classifies every input image exactly once: going through the workers
    in the order of their threads, and through each worker's batches in
    the order it ran them, the filenames inference was run on are the
    input filenames, in input order.  The number of images and the
    minibatch size are taken to fit their C++ types with room to spare. *)
Theorem main_classifies_every_image (o : Options) (e : Environment)
  (status : Z) (events : list Event) (workers : list Worker) :
  main o e = Returned status events workers -> workers <> [] ->
  streamInputFilenamesMode (inputImageFilenames (loadedOptions o e)) = false ->
  emittingBundle e = false ->
  miniBatch o < 2 ^ 32 -> numImages (loadedOptions o e) < 2 ^ 63 ->
  concat (map (fun w => concat (inferenceBatches w)) workers)
  = inputImageFilenames (loadedOptions o e).
Proof.
  intros Hmain Hne Hstream He Hmb32 Hsize. apply main_loaded in Hmain.
  destruct (loadedOptions_fields o e) as (Emb & Eth & _).
  set (o' := loadedOptions o e) in *. rewrite <- Emb in Hmb32.
  destruct (mainLoaded_workers _ _ Hmain)
    as [_ [(C & _)|(ranges & Hr & Hws & _ & _ & _ & _ & Hmm)]];
    [contradiction|].
  rewrite Hstream in Hws. apply runWorkers_each in Hws.
  exact (@ranges_cover _ _ _ _ Hr Hws Hmm He Hmb32 Hsize).
Qed.

Lemma main_classifies_every_image_witness :
  exists status events workers,
    main options_4_images_minibatch_2 plain_run
    = Returned status events workers /\
    concat (map (fun w => concat (inferenceBatches w)) workers)
    = ["a"; "b"; "c"; "d"]%string.
Proof.
  do 3 eexists. split; [vm_compute; reflexivity|].
  eapply (@main_classifies_every_image options_4_images_minibatch_2
            plain_run).
  - vm_compute. reflexivity.
  - discriminate.
  - reflexivity.
  - reflexivity.
  - reflexivity.
  - reflexivity.
Defined.

(** ** Streaming mode *)

Lemma processSamples_out (o : Options) (e : Environment)
  (SMT : list (list float)) (imageList : list string) (i : N)
  (retVal retVal' : Z) (out : Output) :
  processSamples o e SMT i imageList retVal = Some (retVal', out) ->
  out = [] \/ exists rest, out = Str " File: " :: rest.
Proof.
  destruct imageList as [|fileName rest]; cbn [processSamples].
  - intros E. injection E as _ <-. now left.
  - destruct (processSample o e SMT i fileName retVal) as [[r1 out1]|] eqn:H1;
      [|discriminate].
    destruct (processSamples o e SMT (N.succ i) rest r1) as [[r2 out2]|];
      [|discriminate].
    intros E. injection E as _ <-. right.
    unfold processSample in H1.
    destruct (nth_error SMT (N.to_nat i)) as [slice|]; [|discriminate].
    destruct (getTopKPairs _ _) as [topKPairs|]; [|discriminate].
    destruct (expectedMatchingLabels o) as [|l ls].
    + injection H1 as _ <-. eexists. reflexivity.
    + destruct (nth_error (l :: ls) (N.to_nat i)) as [expected|];
        [|discriminate].
      destruct (checkExpectedLabel _ _ _ _) as [r diagnostic].
      injection H1 as _ <-. eexists. reflexivity.
Qed.

(** The results of a batch are never the prompt of
    [getNextImageFilenames]. *)
Lemma results_not_prompt (o : Options) (e : Environment)
  (SMT : list (list float)) (imageList : list string) (mismatches : Z)
  (out : Output) :
  processAndPrintResults o e SMT imageList = Some (mismatches, out) ->
  out <> prompt.
Proof.
  unfold processAndPrintResults, processAndPrintResultsImpl.
  destruct (length SMT =? length imageList)%nat; [|discriminate].
  intros Hs. apply processSamples_out in Hs.
  destruct Hs as [->|[rest ->]]; discriminate.
Qed.

Lemma loopCondition_stdin (o : Options) (endIndex : N) (w w1 : Worker)
  (b : bool) :
  loopCondition o false endIndex w = Some (b, w1) -> stdin w1 = stdin w.
Proof.
  unfold loopCondition. destruct (0 <? miniBatch o).
  - destruct (getNextMiniBatch _ _ _ _ _) as [[[got l] index]|];
      [|discriminate].
    intros E. injection E as _ <-. reflexivity.
  - intros E. injection E as _ <-. reflexivity.
Qed.

(** A worker that does not stream never writes the prompt and leaves
    standard input as it found it. *)
Lemma loopRuns_no_prompt (o : Options) (e : Environment) (endIndex : N)
  (w w' : Worker) :
  loopRuns o e false endIndex w w' ->
  ~ In (Stdout prompt) (trace w) ->
  ~ In (Stdout prompt) (trace w') /\ stdin w' = stdin w.
Proof.
  induction 1 as [w w1 Hc|w w1 w2 Hc Hb|w w1 w2 w3 Hc Hb Hruns IH];
    intros Hno;
    destruct (loopCondition_facts _ _ _ _ Hc) as (_ & _ & Ht & _);
    pose proof (loopCondition_stdin _ _ _ Hc) as Hin;
    rewrite app_nil_r in Ht.
  - unfold afterLoop. cbn [trace stdin]. split; [|exact Hin].
    rewrite Ht. destruct (profilingGraph e); [|exact Hno].
    rewrite in_app_iff. intros [C|[C|[]]]; [now apply Hno|discriminate].
  - destruct (loopBody_Return _ _ _ Hb) as (_ & _ & ->).
    cbn [trace stdin]. split; [|exact Hin].
    rewrite Ht, !in_app_iff.
    intros [[C|[C|[]]]|[C|[]]]; [now apply Hno|discriminate|discriminate].
  - destruct (loopBody_NextIteration _ _ _ Hb) as (_ & m & out & Hp & Hw2).
    apply results_not_prompt in Hp.
    assert (H2 : ~ In (Stdout prompt) (trace w2) /\ stdin w2 = stdin w).
    { subst w2. cbn [trace stdin]. split; [|exact Hin].
      rewrite Ht. destruct (isFirstRun w1); rewrite !in_app_iff; simpl.
      - intros [[[C|[C|[]]]|[C|[]]]|[C|[C|[]]]];
          try discriminate; [now apply Hno|].
        injection C as C. now apply Hp.
      - intros [[C|[C|[]]]|[C|[C|[]]]];
          try discriminate; [now apply Hno|].
        injection C as C. now apply Hp. }
    destruct H2 as [Hno2 Hin2]. destruct (IH Hno2) as [IH1 IH2].
    split; [exact IH1|]. now rewrite IH2.
Qed.

(** A worker that streams writes the prompt. *)
Lemma loopRuns_prompt (o : Options) (e : Environment) (endIndex : N)
  (w w' : Worker) :
  loopRuns o e true endIndex w w' -> In (Stdout prompt) (trace w').
Proof.
  induction 1 as [w w1 Hc|w w1 w2 Hc Hb|w w1 w2 w3 Hc Hb Hruns IH].
  - destruct (loopCondition_facts _ _ _ _ Hc) as (_ & _ & Ht & _).
    unfold afterLoop. cbn [trace]. rewrite Ht.
    destruct (profilingGraph e); rewrite !in_app_iff; simpl; tauto.
  - destruct (loopCondition_facts _ _ _ _ Hc) as (_ & _ & Ht & _).
    destruct (loopBody_Return _ _ _ Hb) as (_ & _ & ->).
    cbn [trace]. rewrite Ht, !in_app_iff. simpl. tauto.
  - exact IH.
Qed.

Lemma Forall2_In_r (A B : Type) (P : A -> B -> Prop) (l : list A)
  (l' : list B) (y : B) :
  Forall2 P l l' -> In y l' -> exists x, In x l /\ P x y.
Proof.
  induction 1 as [|x y' l l' Hxy Hall IH]; [intros []|].
  intros [->|Hin].
  - exists x. split; [now left|exact Hxy].
  - destruct (IH Hin) as (x' & Hx' & HP). exists x'. split; [now right|auto].
Qed.

(** C10 (as stated, fails).  The names of an image list file are appended
    to [inputImageFilenames] before the streaming mode is decided.  With
    no positional filename and a list file whose only line is a dash,
    [main] streams: its worker prompts for filenames and classifies the
    file named on standard input. *)
Lemma main_stream_mode_counterexample :
  inputImageFilenames options_list_file = [] /\
  streamInputFilenamesMode
    (inputImageFilenames (loadedOptions options_list_file dash_list_run))
  = true /\
  exists status events w,
    main options_list_file dash_list_run = Returned status events [w] /\
    In (Stdout prompt) (trace w) /\
    inferenceBatches w = [["a.png"%string]].
Proof.
  split; [reflexivity|]. split; [reflexivity|].
  do 3 eexists. split; [vm_compute; reflexivity|].
  split; [|reflexivity].
  cbn [trace]. left. reflexivity.
Qed.

(** C10 (amended).  The list that decides the streaming mode is
    [inputImageFilenames] as it is after the image list file, if one is
    named, has been read: the positional filenames when there is no list
    file, and the lines of the list file that are not empty when there
    is one.  In a run of [main] that starts its workers, the mode is on
    exactly when that list is the one-element list ["-"], every worker
    is run in that mode, and a worker writes the prompt for filenames
    exactly when the mode is on; when it is off, the worker leaves
    standard input unread.  With two or more names in the list, a "-"
    among them or not, and no bundle emitted, the names inference is run
    on are the names of the list, each one once and in order, so a "-"
    is loaded as an image file like the others.  The number of images
    and the minibatch size are taken to fit their C++ types with room to
    spare. *)
Theorem main_stream_mode (o : Options) (e : Environment) (status : Z)
  (events : list Event) (workers : list Worker) :
  main o e = Returned status events workers -> workers <> [] ->
  (inputImageListFile o = EmptyString ->
   inputImageFilenames (loadedOptions o e) = inputImageFilenames o) /\
  (inputImageListFile o <> EmptyString ->
   inputImageFilenames o = [] /\
   inputImageFilenames (loadedOptions o e)
   = filter (fun img => negb (String.eqb img "")) (imageListFileLines e)) /\
  (streamInputFilenamesMode (inputImageFilenames (loadedOptions o e)) = true
   <-> inputImageFilenames (loadedOptions o e) = ["-"%string]) /\
  (exists ranges,
     threadRanges (loadedOptions o e) e = Some ranges /\
     Forall2 (fun r w =>
                processImageRange (loadedOptions o e) e
                  (streamInputFilenamesMode
                     (inputImageFilenames (loadedOptions o e)))
                  (fst r) (snd r) = Some w)
       ranges workers) /\
  (forall w, In w workers ->
     (In (Stdout prompt) (trace w)
      <-> inputImageFilenames (loadedOptions o e) = ["-"%string]) /\
     (inputImageFilenames (loadedOptions o e) <> ["-"%string] ->
      stdin w = stdinLines e)) /\
  ((2 <= length (inputImageFilenames (loadedOptions o e)))%nat ->
   emittingBundle e = false ->
   miniBatch o < 2 ^ 32 -> numImages (loadedOptions o e) < 2 ^ 63 ->
   concat (map (fun w => concat (inferenceBatches w)) workers)
   = inputImageFilenames (loadedOptions o e)).
Proof.
  intros Hmain Hne.
  pose proof (main_input_source _ _ Hmain) as Hsrc.
  apply main_loaded in Hmain.
  destruct (loadedOptions_fields o e) as (Emb & _ & _).
  assert (Hfile : inputImageListFile o <> EmptyString ->
                  inputImageFilenames o = [] /\
                  inputImageFilenames (loadedOptions o e)
                  = filter (fun img => negb (String.eqb img ""))
                      (imageListFileLines e)).
  { intros Hf. destruct Hsrc as [[C _]|[_ Hnil]]; [contradiction|].
    split; [exact Hnil|]. unfold loadedOptions.
    apply String.eqb_neq in Hf. rewrite Hf. cbn [readImageList
      inputImageFilenames]. now rewrite Hnil. }
  assert (Hpos : inputImageListFile o = EmptyString ->
                 inputImageFilenames (loadedOptions o e)
                 = inputImageFilenames o).
  { intros Hf. unfold loadedOptions. now rewrite Hf. }
  set (o' := loadedOptions o e) in *.
  pose proof (streamInputFilenamesMode_true_iff (inputImageFilenames o'))
    as Hiff.
  destruct (mainLoaded_workers _ _ Hmain)
    as [_ [(C & _)|(ranges & Hr & Hws & _ & _ & _ & _ & Hmm)]];
    [contradiction|].
  apply runWorkers_each in Hws.
  split; [exact Hpos|]. split; [exact Hfile|]. split; [exact Hiff|].
  split; [exists ranges; now split|]. split.
  - intros w Hw.
    destruct (Forall2_In_r _ Hws Hw) as (r & _ & Hrun).
    apply workerLoop_loopRuns in Hrun.
    destruct (streamInputFilenamesMode (inputImageFilenames o')) eqn:Hs.
    + pose proof (proj1 Hiff eq_refl) as Hdash. split.
      * split; [intros _; exact Hdash|intros _].
        exact (loopRuns_prompt Hrun).
      * intros C. contradiction.
    + assert (Hdash : inputImageFilenames o' <> ["-"%string]).
      { intros C. apply Hiff in C. discriminate. }
      destruct (loopRuns_no_prompt Hrun) as [Hno Hin]; [intros []|].
      split; [|intros _; exact Hin].
      split; [intros C; contradiction|intros C; contradiction].
  - intros Hlen He Hmb32 Hsize.
    assert (Hs : streamInputFilenamesMode (inputImageFilenames o') = false).
    { destruct (streamInputFilenamesMode (inputImageFilenames o')) eqn:Hs;
        [|reflexivity].
      rewrite (proj1 Hiff eq_refl) in Hlen. simpl in Hlen. lia. }
    rewrite Hs in Hws. rewrite <- Emb in Hmb32.
    exact (@ranges_cover _ _ _ _ Hr Hws Hmm He Hmb32 Hsize).
Qed.

Lemma main_stream_mode_witness :
  exists status events workers,
    main options_dash_and_file plain_run = Returned status events workers /\
    streamInputFilenamesMode ["-"; "cat.png"]%string = false /\
    (forall w, In w workers -> ~ In (Stdout prompt) (trace w)) /\
    concat (map (fun w => concat (inferenceBatches w)) workers)
    = ["-"; "cat.png"]%string.
Proof.
  destruct (main options_dash_and_file plain_run)
    as [status events workers|status events|message| |] eqn:Hm;
    try (vm_compute in Hm; discriminate).
  assert (Hne : workers <> []).
  { vm_compute in Hm. injection Hm as _ _ <-. discriminate. }
  destruct (main_stream_mode options_dash_and_file plain_run Hm Hne)
    as (_ & _ & Hiff & _ & Hw & Hall).
  exists status, events, workers. split; [reflexivity|].
  split; [reflexivity|]. split.
  - intros w Hin C. apply (Hw w Hin) in C. discriminate.
  - apply Hall; [simpl; lia|reflexivity|reflexivity|reflexivity].
Defined.

End Driver.

(* ===================================================================== *)
(** * The queue-backed device manager *)
(* ===================================================================== *)

Module DeviceManager.
Local Open Scope N_scope.

(** The closures handed to [workThread_], by the member function each
    calls and the values it captured.  Modules, callbacks and execution
    contexts are referred to by a number. *)
Inductive Task : Type :=
| addNetworkImpl (module : N) (functions : list string) (callback : N)
| evictNetworkImpl (functionName : string)
| runFunctionImpl (id : N) (functionName : string) (ctx : N) (callback : N).

(** The members of [QueueBackedDeviceManager] that its functions touch:
    the counter of run identifiers and the work queue of the thread
    pool. *)
Record Manager : Type := {
  nextIdentifier_ : N;
  workThread_ : list Task
}.

(** Modelled from the spec: [ThreadPool::submit] is not among the sources;
    the specification's task queue is an ordered sequence to which
    producers append. *)
Definition submit (queue : list Task) (task : Task) : list Task :=
  queue ++ [task].

Definition addNetwork (m : Manager) (module : N) (functions : list string)
  (callback : N) : Manager :=
  {| nextIdentifier_ := nextIdentifier_ m;
     workThread_ :=
       submit (workThread_ m) (addNetworkImpl module functions callback) |}.

Definition evictNetwork (m : Manager) (functionName : string) : Manager :=
  {| nextIdentifier_ := nextIdentifier_ m;
     workThread_ := submit (workThread_ m) (evictNetworkImpl functionName) |}.

(** [RunIdentifierTy] is declared outside the sources; [width] is its
    number of bits.  [id = nextIdentifier_++] yields the old value and
    stores its successor. *)
Definition runFunction (width : N) (m : Manager) (functionName : string)
  (ctx callback : N) : N * Manager :=
  let id := nextIdentifier_ m in
  (id,
   {| nextIdentifier_ := (id + 1) mod 2 ^ width;
      workThread_ :=
        submit (workThread_ m)
          (runFunctionImpl id functionName ctx callback) |}).

(** A call of one of the three functions, with its arguments. *)
Inductive Call : Type :=
| CallAddNetwork (module : N) (functions : list string) (callback : N)
| CallEvictNetwork (functionName : string)
| CallRunFunction (functionName : string) (ctx callback : N).

(** The call performed on the manager: the identifier returned, if the
    call is a [runFunction], and the manager afterwards. *)
Definition perform (width : N) (c : Call) (m : Manager) : option N * Manager :=
  match c with
  | CallAddNetwork module functions callback =>
      (None, addNetwork m module functions callback)
  | CallEvictNetwork functionName => (None, evictNetwork m functionName)
  | CallRunFunction functionName ctx callback =>
      let (id, m') := runFunction width m functionName ctx callback in
      (Some id, m')
  end.

(** A sequence of calls in the order in which they take effect: the
    identifiers returned, in that order, and the manager afterwards. *)
Fixpoint performAll (width : N) (calls : list Call) (m : Manager)
  : list N * Manager :=
  match calls with
  | [] => ([], m)
  | c :: rest =>
      let (r, m1) := perform width c m in
      let (ids, m2) := performAll width rest m1 in
      (match r with Some id => id :: ids | None => ids end, m2)
  end.

Definition isRun (c : Call) : bool :=
  match c with CallRunFunction _ _ _ => true | _ => false end.

(** The number of [runFunction] calls in a sequence. *)
Definition runCount (calls : list Call) : N :=
  N.of_nat (length (filter isRun calls)).

(** The call a task was made by. *)
Definition callOf (t : Task) : Call :=
  match t with
  | addNetworkImpl module functions callback =>
      CallAddNetwork module functions callback
  | evictNetworkImpl functionName => CallEvictNetwork functionName
  | runFunctionImpl _ functionName ctx callback =>
      CallRunFunction functionName ctx callback
  end.

(** The identifiers carried by the [runFunctionImpl] tasks of a queue. *)
Definition runIdentifiers (tasks : list Task) : list N :=
  flat_map (fun t => match t with
                     | runFunctionImpl id _ _ _ => [id]
                     | _ => []
                     end) tasks.

(** ** Run identifiers *)


Lemma performAll_no_run (width : N) (calls : list Call) :
  forall m : Manager,
    filter isRun calls = [] -> fst (performAll width calls m) = [].
Proof.
  induction calls as [|c rest IH]; intros m Hnone; simpl; [reflexivity|].
  destruct c; simpl in *; try discriminate.
  - specialize (IH (addNetwork m module functions callback) Hnone).
    destruct (performAll width rest _); exact IH.
  - specialize (IH (evictNetwork m functionName) Hnone).
    destruct (performAll width rest _); exact IH.
Qed.

Lemma performAll_cons (width : N) (c : Call) (rest : list Call) (m : Manager) :
  fst (performAll width (c :: rest) m)
  = match fst (perform width c m) with
    | Some id => id :: fst (performAll width rest (snd (perform width c m)))
    | None => fst (performAll width rest (snd (perform width c m)))
    end.
Proof.
  simpl. destruct (perform width c m) as [r m1]. simpl.
  destruct (performAll width rest m1) as [ids m2]. simpl.
  destruct r; reflexivity.
Qed.

Lemma performAll_identifiers (width : N) (calls : list Call) :
  forall m : Manager,
    nextIdentifier_ m + runCount calls <= 2 ^ width ->
    StronglySorted N.lt (fst (performAll width calls m)) /\
    (forall id, In id (fst (performAll width calls m)) ->
       nextIdentifier_ m <= id < nextIdentifier_ m + runCount calls) /\
    N.of_nat (length (fst (performAll width calls m))) = runCount calls.
Proof.
  unfold runCount.
  induction calls as [|c rest IH]; intros m Hfit.
  - simpl. repeat split; [constructor|contradiction|contradiction].
  - rewrite performAll_cons.
    destruct c as [module functions callback|functionName
                  |functionName ctx callback].
    + apply (IH (addNetwork m module functions callback) Hfit).
    + apply (IH (evictNetwork m functionName) Hfit).
    + change (fst (perform width (CallRunFunction functionName ctx callback) m))
        with (Some (nextIdentifier_ m)).
      set (m1 := snd (perform width
                        (CallRunFunction functionName ctx callback) m)).
      cbv iota.
      change (filter isRun (CallRunFunction functionName ctx callback :: rest))
        with (CallRunFunction functionName ctx callback :: filter isRun rest)
        in *.
      cbn [length] in *.
      destruct (filter isRun rest) as [|r runs] eqn:Hruns.
      * rewrite (performAll_no_run width rest m1 Hruns).
        split; [|split].
        -- repeat constructor.
        -- intros id [<-|[]]. cbn [length]. lia.
        -- reflexivity.
      * cbn [length] in Hfit.
        assert (Hsucc : nextIdentifier_ m1 = nextIdentifier_ m + 1).
        { subst m1. cbn [perform runFunction snd nextIdentifier_].
          apply N.mod_small. lia. }
        cbn [length] in IH.
        destruct (IH m1) as (Hs & Hb & Hl); [rewrite Hsucc; lia|].
        rewrite Hsucc in Hb. split; [|split].
        -- constructor; [exact Hs|]. apply Forall_forall.
           intros id Hid. apply Hb in Hid. lia.
        -- cbn [length]. intros id [<-|Hid]; [lia|]. apply Hb in Hid. lia.
        -- cbn [length] in *. lia.
Qed.

Lemma StronglySorted_lt_NoDup (l : list N) :
  StronglySorted N.lt l -> NoDup l.
Proof.
  induction 1 as [|x l Hs IH Hx]; constructor; [|exact IH].
  intros Hin. rewrite Forall_forall in Hx. apply Hx in Hin. lia.
Qed.

(** C3.  [runFunction] returns the value the counter [nextIdentifier_]
    had, increments the counter once, and puts the run at the end of the
    work queue without running anything.  Over any sequence of calls of
    the manager's functions that take effect one after the other, the
    identifiers returned by the [runFunction] calls are strictly
    increasing in that order, hence pairwise distinct, as long as the
    counter does not wrap around its [width] bits. *)
Theorem runFunction_identifiers (width : N) (m : Manager) :
  (forall functionName ctx callback,
     fst (runFunction width m functionName ctx callback) = nextIdentifier_ m /\
     nextIdentifier_ (snd (runFunction width m functionName ctx callback))
     = (nextIdentifier_ m + 1) mod 2 ^ width /\
     workThread_ (snd (runFunction width m functionName ctx callback))
     = workThread_ m
       ++ [runFunctionImpl (nextIdentifier_ m) functionName ctx callback]) /\
  (forall calls,
     nextIdentifier_ m + runCount calls <= 2 ^ width ->
     StronglySorted N.lt (fst (performAll width calls m)) /\
     NoDup (fst (performAll width calls m)) /\
     N.of_nat (length (fst (performAll width calls m))) = runCount calls /\
     (forall id, In id (fst (performAll width calls m)) ->
        nextIdentifier_ m <= id < nextIdentifier_ m + runCount calls)).
Proof.
  split.
  - intros functionName ctx callback. repeat split.
  - intros calls Hfit.
    destruct (performAll_identifiers width calls m Hfit) as (Hs & Hb & Hl).
    repeat split; auto.
    + now apply StronglySorted_lt_NoDup.
    + now apply Hb.
    + now apply Hb.
Qed.

Lemma runFunction_identifiers_witness :
  fst (performAll 64
         [CallRunFunction "f" 0 0; CallEvictNetwork "g";
          CallRunFunction "f" 1 1; CallRunFunction "h" 2 2]%string
         {| nextIdentifier_ := 1; workThread_ := [] |})
  = [1; 2; 3] /\
  NoDup (fst (performAll 64
         [CallRunFunction "f" 0 0; CallEvictNetwork "g";
          CallRunFunction "f" 1 1; CallRunFunction "h" 2 2]%string
         {| nextIdentifier_ := 1; workThread_ := [] |})).
Proof.
  split; [reflexivity|].
  apply (proj2 (runFunction_identifiers 64
                  {| nextIdentifier_ := 1; workThread_ := [] |})).
  vm_compute. discriminate.
Defined.

(** ** The tasks submitted *)

Lemma performAll_step (width : N) (c : Call) (rest : list Call) (m : Manager) :
  snd (performAll width (c :: rest) m)
  = snd (performAll width rest (snd (perform width c m))).
Proof.
  simpl. destruct (perform width c m) as [r m1]. simpl.
  destruct (performAll width rest m1) as [ids m2]. reflexivity.
Qed.

(** X20.  Every call of [addNetwork], [evictNetwork] or [runFunction]
    submits one task and runs nothing itself: after a sequence of calls
    the work queue holds, after what it held before, one task per call in
    the order of the calls, each with the arguments of its call; the
    tasks of the [runFunction] calls carry the identifiers that were
    returned; and the counter has advanced by the number of
    [runFunction] calls, modulo [2^width]. *)
Theorem performAll_tasks (width : N) (calls : list Call) :
  forall m : Manager,
    exists tasks,
      workThread_ (snd (performAll width calls m)) = workThread_ m ++ tasks /\
      map callOf tasks = calls /\
      runIdentifiers tasks = fst (performAll width calls m) /\
      nextIdentifier_ (snd (performAll width calls m)) mod 2 ^ width
      = (nextIdentifier_ m + runCount calls) mod 2 ^ width.
Proof.
  unfold runCount.
  induction calls as [|c rest IH]; intros m.
  - exists []. simpl. rewrite app_nil_r, N.add_0_r. repeat split.
  - rewrite performAll_step, performAll_cons.
    destruct (IH (snd (perform width c m))) as (tasks & Hq & Hc & Hi & Hn).
    rewrite Hq, Hn, <- Hi.
    destruct c as [module functions callback|functionName
                  |functionName ctx callback].
    + exists (addNetworkImpl module functions callback :: tasks).
      cbn [perform fst snd addNetwork workThread_ nextIdentifier_ submit
           map callOf runIdentifiers flat_map app filter isRun].
      unfold submit. rewrite <- app_assoc, Hc. repeat split.
    + exists (evictNetworkImpl functionName :: tasks).
      cbn [perform fst snd evictNetwork workThread_ nextIdentifier_ submit
           map callOf runIdentifiers flat_map app filter isRun].
      unfold submit. rewrite <- app_assoc, Hc. repeat split.
    + exists (runFunctionImpl (nextIdentifier_ m) functionName ctx callback
              :: tasks).
      cbn [perform fst snd runFunction workThread_ nextIdentifier_ submit
           map callOf runIdentifiers flat_map app filter isRun length].
      unfold submit. rewrite <- app_assoc, Hc. repeat split.
      rewrite N.Div0.add_mod_idemp_l. f_equal. lia.
Qed.

End DeviceManager.

(* ===================================================================== *)
(** * Producers, the work queue and its one worker *)
(* ===================================================================== *)

Module Executor.
Import DeviceManager.










(** ** Properties of runs *)










End Executor.
